(** * Bill splitter: even and percentage allocation with residual reconciliation

    A shallow embedding of [demo.py]: the money parser [to_decimal], the
    rounding helper [round_money], the allocators [split_evenly] and
    [split_by_percentage] with their residual loop, the percentage
    validation of [run_single_split], the input loops
    [get_positive_decimal], [get_positive_int] and [ask_names], and
    [export_to_txt].

    The program computes with Python's [decimal.Decimal] under the context
    it installs ([getcontext().prec = 28], default rounding ROUND_HALF_EVEN,
    Emax = 999999, Emin = -999999, traps on InvalidOperation,
    DivisionByZero and Overflow).  Module [Decimal] writes that arithmetic
    out on finite numbers (sign, coefficient, exponent), rounding
    included. *)

From Stdlib Require Import ZArith NArith List String Ascii Bool Lia QArith Qround Qabs Qfield DecimalString.
From Stdlib Require Import Lqa.
From Stdlib Require DecimalNat DecimalN DecimalPos.
Import ListNotations.
Local Open Scope Z_scope.

(** ** Outcomes of a Python computation *)

Inductive exn : Type :=
| InvalidOperation
| DivisionByZero
| Overflow
| ValueError
| IndexError
| ZeroDivisionError
| OSError.

(** A computation returns, raises, or is still running when the fuel that
    bounds the number of loop iterations is used up. *)
Inductive outcome (A : Type) : Type :=
| Ok (a : A)
| Raise (e : exn)
| OutOfFuel.

Arguments Ok {A} a.
Arguments Raise {A} e.
Arguments OutOfFuel {A}.

Definition bind {A B : Type} (m : outcome A) (k : A -> outcome B) : outcome B :=
  match m with
  | Ok a => k a
  | Raise e => Raise e
  | OutOfFuel => OutOfFuel
  end.

Notation "x <- m ;; k" := (bind m (fun x => k))
  (at level 61, m at next level, right associativity).
Notation "' pat <- m ;; k" := (bind m (fun x => let 'pat := x in k))
  (at level 61, pat pattern, m at next level, right associativity).

(** ** Decimal arithmetic of the installed context *)

Module Decimal.

(** A finite decimal: [(-1)^sign * coeff * 10^expo]. *)
Record t : Type := mk { d_sign : bool; d_int : N; d_exp : Z }.

Definition coef (d : t) : Z := Z.of_N (d_int d).
Definition mkd (s : bool) (c : Z) (e : Z) : t := mk s (Z.to_N c) e.

Definition prec : Z := 28.
Definition Emax : Z := 999999.
Definition Emin : Z := -999999.
Definition Etiny : Z := Emin - prec + 1.
Definition Etop : Z := Emax - prec + 1.

Inductive rounding : Type := ROUND_HALF_UP | ROUND_HALF_EVEN.

(** [len(str(c))] for a coefficient [c >= 0]. *)
Fixpoint ndigits_fuel (fuel : nat) (c : Z) : Z :=
  match fuel with
  | O => 1
  | S f => if c <? 10 then 1 else 1 + ndigits_fuel f (c / 10)
  end.

Definition ndigits (c : Z) : Z := ndigits_fuel (Z.to_nat (Z.log2 c)) c.

Definition adjusted (d : t) : Z := d_exp d + ndigits (coef d) - 1.

Definition is_zero (d : t) : bool := coef d =? 0.

(** The rounding functions take the coefficient and the number [digits] of
    leading digits that are kept; they answer 1 (round up, away from zero),
    0 (the dropped digits are all zeros) or -1 (truncate). *)
Definition dropped (c digits : Z) : Z := c mod 10 ^ (ndigits c - digits).
Definition kept (c digits : Z) : Z := c / 10 ^ (ndigits c - digits).
Definition half (c digits : Z) : Z := 5 * 10 ^ (ndigits c - digits - 1).

Definition _round_half_up (c digits : Z) : Z :=
  if half c digits <=? dropped c digits then 1
  else if dropped c digits =? 0 then 0
  else -1.

Definition _round_half_even (c digits : Z) : Z :=
  if (dropped c digits =? half c digits) && Z.even (kept c digits) then -1
  else _round_half_up c digits.

Definition pick_rounding (r : rounding) : Z -> Z -> Z :=
  match r with
  | ROUND_HALF_UP => _round_half_up
  | ROUND_HALF_EVEN => _round_half_even
  end.

Definition _rescale (d : t) (exp : Z) (r : rounding) : t :=
  if is_zero d then mk (d_sign d) 0 exp
  else if exp <=? d_exp d then
    mkd (d_sign d) (coef d * 10 ^ (d_exp d - exp)) exp
  else
    let digits := ndigits (coef d) + d_exp d - exp in
    let '(c, digits) := if digits <? 0 then (1, 0) else (coef d, digits) in
    let changed := pick_rounding r c digits in
    let coeff := kept c digits in
    let coeff := if changed =? 1 then coeff + 1 else coeff in
    mkd (d_sign d) coeff exp.

(** [_fix]: round to the context precision and check the exponent range. *)
Definition _fix (d : t) : outcome t :=
  if is_zero d then
    Ok (mk (d_sign d) 0 (Z.min (Z.max (d_exp d) Etiny) Emax))
  else
    let exp_min := ndigits (coef d) + d_exp d - prec in
    if Etop <? exp_min then Raise Overflow
    else
      let exp_min := if exp_min <? Etiny then Etiny else exp_min in
      if d_exp d <? exp_min then
        let digits := ndigits (coef d) + d_exp d - exp_min in
        let '(c, digits) := if digits <? 0 then (1, 0) else (coef d, digits) in
        let changed := _round_half_even c digits in
        let coeff := kept c digits in
        let '(coeff, exp_min) :=
          if 0 <? changed then
            let coeff := coeff + 1 in
            if prec <? ndigits coeff then (coeff / 10, exp_min + 1)
            else (coeff, exp_min)
          else (coeff, exp_min) in
        if Etop <? exp_min then Raise Overflow
        else Ok (mkd (d_sign d) coeff exp_min)
      else Ok d.

(** [_normalize]: bring two nonzero operands of an addition to one exponent;
    an operand far below the other's last place is replaced by one unit
    that rounds the same way. *)
Definition _normalize (c1 e1 c2 e2 : Z) : (Z * Z) * (Z * Z) :=
  if e1 <? e2 then
    (* tmp = op2, other = op1 *)
    let exp := e2 + Z.min (-1) (ndigits c2 - prec - 2) in
    let '(c1, e1) := if ndigits c1 + e1 - 1 <? exp then (1, exp) else (c1, e1) in
    ((c1, e1), (c2 * 10 ^ (e2 - e1), e1))
  else
    let exp := e1 + Z.min (-1) (ndigits c1 - prec - 2) in
    let '(c2, e2) := if ndigits c2 + e2 - 1 <? exp then (1, exp) else (c2, e2) in
    ((c1 * 10 ^ (e1 - e2), e2), (c2, e2)).

Definition add (x y : t) : outcome t :=
  let exp := Z.min (d_exp x) (d_exp y) in
  if is_zero x && is_zero y then
    _fix (mk (d_sign x && d_sign y) 0 exp)
  else if is_zero x then
    _fix (_rescale y (Z.max exp (d_exp y - prec - 1)) ROUND_HALF_EVEN)
  else if is_zero y then
    _fix (_rescale x (Z.max exp (d_exp x - prec - 1)) ROUND_HALF_EVEN)
  else
    let '((c1, e1), (c2, _)) := _normalize (coef x) (d_exp x) (coef y) (d_exp y) in
    if Bool.eqb (d_sign x) (d_sign y) then
      _fix (mkd (d_sign x) (c1 + c2) e1)
    else if c1 =? c2 then
      _fix (mk false 0 exp)
    else if c1 <? c2 then
      _fix (mkd (d_sign y) (c2 - c1) e1)
    else
      _fix (mkd (d_sign x) (c1 - c2) e1).

Definition copy_negate (d : t) : t := mk (negb (d_sign d)) (d_int d) (d_exp d).

Definition sub (x y : t) : outcome t := add x (copy_negate y).

Definition mul (x y : t) : outcome t :=
  let resultsign := xorb (d_sign x) (d_sign y) in
  let resultexp := d_exp x + d_exp y in
  if is_zero x || is_zero y then _fix (mk resultsign 0 resultexp)
  else _fix (mkd resultsign (coef x * coef y) resultexp).

(** The loop of [__truediv__] that removes trailing zeros of an exact
    quotient while the exponent is below the ideal one; it runs at most
    [ideal_exp - exp] times. *)
Fixpoint strip_exact (todo : nat) (coeff exp : Z) : Z * Z :=
  match todo with
  | O => (coeff, exp)
  | S k =>
      if coeff mod 10 =? 0 then strip_exact k (coeff / 10) (exp + 1)
      else (coeff, exp)
  end.

Definition div (x y : t) : outcome t :=
  let sign := xorb (d_sign x) (d_sign y) in
  if is_zero y then
    if is_zero x then Raise InvalidOperation else Raise DivisionByZero
  else if is_zero x then
    _fix (mk sign 0 (d_exp x - d_exp y))
  else
    let shift := ndigits (coef y) - ndigits (coef x) + prec + 1 in
    let exp := d_exp x - d_exp y - shift in
    let '(coeff, remainder) :=
      if 0 <=? shift then
        ((coef x * 10 ^ shift) / coef y, (coef x * 10 ^ shift) mod coef y)
      else
        (coef x / (coef y * 10 ^ (- shift)), coef x mod (coef y * 10 ^ (- shift))) in
    let '(coeff, exp) :=
      if negb (remainder =? 0) then
        (if coeff mod 5 =? 0 then coeff + 1 else coeff, exp)
      else
        strip_exact (Z.to_nat (d_exp x - d_exp y - exp)) coeff exp in
    _fix (mkd sign coeff exp).

Definition quantize (d : t) (exp : t) (r : rounding) : outcome t :=
  if negb ((Etiny <=? d_exp exp) && (d_exp exp <=? Emax)) then Raise InvalidOperation
  else if is_zero d then _fix (mk (d_sign d) 0 (d_exp exp))
  else if Emax <? adjusted d then Raise InvalidOperation
  else if prec <? adjusted d - d_exp exp + 1 then Raise InvalidOperation
  else
    let ans := _rescale d (d_exp exp) r in
    if Emax <? adjusted ans then Raise InvalidOperation
    else if prec <? ndigits (coef ans) then Raise InvalidOperation
    else _fix ans.

(** [_cmp] on finite numbers. *)
Definition sign_cmp (s : bool) : comparison := if s then Lt else Gt.

Definition _cmp (x y : t) : comparison :=
  if is_zero x then
    if is_zero y then Eq else CompOpp (sign_cmp (d_sign y))
  else if is_zero y then sign_cmp (d_sign x)
  else if negb (d_sign y) && d_sign x then Lt
  else if negb (d_sign x) && d_sign y then Gt
  else
    match adjusted x ?= adjusted y with
    | Eq =>
        let x_padded := coef x * 10 ^ (Z.max 0 (d_exp x - d_exp y)) in
        let y_padded := coef y * 10 ^ (Z.max 0 (d_exp y - d_exp x)) in
        match x_padded ?= y_padded with
        | Eq => Eq
        | Lt => CompOpp (sign_cmp (d_sign x))
        | Gt => sign_cmp (d_sign x)
        end
    | Gt => sign_cmp (d_sign x)
    | Lt => CompOpp (sign_cmp (d_sign x))
    end.

Definition eq (x y : t) : bool := match _cmp x y with Eq => true | _ => false end.
Definition ne (x y : t) : bool := negb (eq x y).
Definition lt (x y : t) : bool := match _cmp x y with Lt => true | _ => false end.
Definition le (x y : t) : bool := match _cmp x y with Gt => false | _ => true end.
Definition gt (x y : t) : bool := match _cmp x y with Gt => true | _ => false end.

(** [Decimal(n)] for an int. *)
Definition of_Z (n : Z) : t := mk (n <? 0) (Z.abs_N n) 0.

End Decimal.

Import Decimal.

(** ** The allocation functions of [demo.py] *)

Definition cent : Decimal.t := Decimal.mk false 1 (-2).       (* Decimal('0.01') *)
Definition zero_00 : Decimal.t := Decimal.mk false 0 (-2).    (* Decimal('0.00') *)

(** [round_money]: quantize to two places, ROUND_HALF_UP. *)
Definition round_money (amount : Decimal.t) : outcome Decimal.t :=
  Decimal.quantize amount cent ROUND_HALF_UP.

(** [sum(xs)]: the built-in starts from the int 0, so the first addition is
    [xs[0].__radd__(0)]. *)
Definition py_sum (xs : list Decimal.t) : outcome Decimal.t :=
  match xs with
  | [] => Ok (Decimal.of_Z 0)
  | x :: rest =>
      fold_left (fun acc y => a <- acc ;; Decimal.add a y) rest
                (Decimal.add x (Decimal.of_Z 0))
  end.

(** List indexing and item assignment; Python raises IndexError out of range. *)
Definition getitem {A : Type} (l : list A) (i : nat) : outcome A :=
  match nth_error l i with
  | Some a => Ok a
  | None => Raise IndexError
  end.

Fixpoint setitem {A : Type} (l : list A) (i : nat) (a : A) : list A :=
  match l, i with
  | [], _ => []
  | _ :: r, O => a :: r
  | x :: r, S j => x :: setitem r j a
  end.

Definition py_mod (a n : nat) : outcome nat :=
  match n with
  | O => Raise ZeroDivisionError
  | _ => Ok (Nat.modulo a n)
  end.

(** One iteration of the residual loop, the same text in both allocators;
    the state is the share list, the residual and the index [i]. *)
Definition loop_body (shares : list Decimal.t) (residual : Decimal.t) (i n : nat)
  : outcome (list Decimal.t * Decimal.t * nat) :=
  if Decimal.gt residual zero_00 then
    s <- getitem shares i ;;
    s' <- Decimal.add s cent ;;
    residual' <- Decimal.sub residual cent ;;
    i' <- py_mod (i + 1) n ;;
    Ok (setitem shares i s', residual', i')
  else
    s <- getitem shares i ;;
    s' <- Decimal.sub s cent ;;
    residual' <- Decimal.add residual cent ;;
    i' <- py_mod (i + 1) n ;;
    Ok (setitem shares i s', residual', i').

(** [while residual != Decimal('0.00'): <body>]. *)
Fixpoint residual_loop (fuel : nat) (shares : list Decimal.t)
         (residual : Decimal.t) (i n : nat) : outcome (list Decimal.t) :=
  match fuel with
  | O => OutOfFuel
  | S fuel' =>
      if Decimal.ne residual zero_00 then
        '(shares', residual', i') <- loop_body shares residual i n ;;
        residual_loop fuel' shares' residual' i' n
      else Ok shares
  end.

(** The state after [k] iterations of the body, whatever the loop test says. *)
Fixpoint iterate_body (k : nat) (shares : list Decimal.t) (residual : Decimal.t)
         (i n : nat) : outcome (list Decimal.t * Decimal.t * nat) :=
  match k with
  | O => Ok (shares, residual, i)
  | S k' =>
      '(shares', residual', i') <- loop_body shares residual i n ;;
      iterate_body k' shares' residual' i' n
  end.

(** [f"Person {i}"] for i in range(1, n+1). *)
Definition string_of_nat (i : nat) : string :=
  NilEmpty.string_of_uint (Nat.to_uint i).

Definition default_names (n : nat) : list string :=
  map (fun i => ("Person " ++ string_of_nat i)%string) (seq 1 n).

(** [if names is None: names = [f"Person {i}" for i in range(1, n+1)]]. *)
Definition names_or_default (names : option (list string)) (n : nat) : list string :=
  match names with None => default_names n | Some l => l end.

(** Sequencing a list of computations, left to right. *)
Fixpoint sequence {A : Type} (l : list (outcome A)) : outcome (list A) :=
  match l with
  | [] => Ok []
  | m :: r => a <- m ;; rest <- sequence r ;; Ok (a :: rest)
  end.

(** The part of [split_evenly] before the loop: the rounded shares and the
    residual.  The count [n] is a natural number, as [get_positive_int]
    reads it. *)
Definition even_shares (total : Decimal.t) (n : nat)
  : outcome (list Decimal.t * Decimal.t) :=
  base <- Decimal.div total (Decimal.of_Z (Z.of_nat n)) ;;
  rounded_shares <- sequence (map (fun _ => round_money base) (seq 0 n)) ;;
  sum_rounded <- py_sum rounded_shares ;;
  residual <- Decimal.sub total sum_rounded ;;
  Ok (rounded_shares, residual).

Definition split_evenly (fuel : nat) (total : Decimal.t) (n : nat)
           (names : option (list string)) : outcome (list (string * Decimal.t)) :=
  let names := names_or_default names n in
  '(rounded_shares, residual) <- even_shares total n ;;
  rounded_shares <- residual_loop fuel rounded_shares residual 0 n ;;
  Ok (combine names rounded_shares).

(** The part of [split_by_percentage] before the loop. *)
Definition percentage_shares (total : Decimal.t) (percentages : list Decimal.t)
  : outcome (list Decimal.t * Decimal.t) :=
  shares <- sequence (map (fun p =>
              q <- Decimal.div p (Decimal.of_Z 100) ;;
              share <- Decimal.mul q total ;;
              round_money share) percentages) ;;
  sum_shares <- py_sum shares ;;
  residual <- Decimal.sub total sum_shares ;;
  Ok (shares, residual).

Definition split_by_percentage (fuel : nat) (total : Decimal.t)
           (percentages : list Decimal.t) (names : option (list string))
  : outcome (list (string * Decimal.t)) :=
  let names := names_or_default names (List.length percentages) in
  '(shares, residual) <- percentage_shares total percentages ;;
  shares <- residual_loop fuel shares residual 0 (List.length shares) ;;
  Ok (combine names shares).

(** ** The percentage validation of [run_single_split]

    The percentage branch of [run_single_split] after the percentages have
    been read: the sum is checked against 100 with a tolerance of 0.01;
    outside the band the function prints
    [Percentages sum to {total_percent}%. ...] and returns None, otherwise
    it calls [split_by_percentage]. *)

Inductive split_report : Type :=
| ReenterSplit (total_percent : Decimal.t)
| Allocation (result : list (string * Decimal.t)).

(** [Decimal('100') - Decimal('0.01') <= total_percent <= Decimal('100') + Decimal('0.01')]. *)
Definition within_tolerance (total_percent : Decimal.t) : outcome bool :=
  lo <- Decimal.sub (Decimal.of_Z 100) cent ;;
  hi <- Decimal.add (Decimal.of_Z 100) cent ;;
  Ok (Decimal.le lo total_percent && Decimal.le total_percent hi).

Definition percentage_branch (fuel : nat) (total : Decimal.t)
           (percentages : list Decimal.t) (names : list string)
  : outcome split_report :=
  total_percent <- py_sum percentages ;;
  ok <- within_tolerance total_percent ;;
  if negb ok then
    Ok (ReenterSplit total_percent)
  else
    result <- split_by_percentage fuel total percentages (Some names) ;;
    Ok (Allocation result).

(** ** The money parser [to_decimal]

    Strings are sequences of code points below 256.  [str.strip()] removes
    the code points for which [str.isspace] holds; in that range these are
    9-13, 28-32, 133 and 160. *)

Definition isspace (c : ascii) : bool :=
  let n := nat_of_ascii c in
  ((9 <=? n) && (n <=? 13) || (28 <=? n) && (n <=? 32) || (n =? 133) || (n =? 160))%nat.

Fixpoint lstrip (s : list ascii) : list ascii :=
  match s with
  | c :: r => if isspace c then lstrip r else s
  | [] => []
  end.

Definition strip (s : list ascii) : list ascii := rev (lstrip (rev (lstrip s))).

(** [s.replace(c, '')] for a one-character [c]. *)
Definition remove_char (c : ascii) (s : list ascii) : list ascii :=
  filter (fun x => negb (Ascii.eqb x c)) s.

Definition isdigit (c : ascii) : bool :=
  let n := nat_of_ascii c in ((48 <=? n) && (n <=? 57))%nat.

Definition digit_value (c : ascii) : N := N.of_nat (nat_of_ascii c - 48).

(** [int(digits)] for a string of decimal digits; the empty string counts 0. *)
Definition int_of_digits (ds : list ascii) : N :=
  fold_left (fun acc c => (10 * acc + digit_value c)%N) ds 0%N.

Fixpoint span_digits (s : list ascii) : list ascii * list ascii :=
  match s with
  | c :: r =>
      if isdigit c then let '(ds, rest) := span_digits r in (c :: ds, rest)
      else ([], s)
  | [] => ([], [])
  end.

Definition lower (c : ascii) : ascii :=
  let n := nat_of_ascii c in
  if ((65 <=? n) && (n <=? 90))%nat then ascii_of_nat (n + 32) else c.

(** What [Decimal(str)] can construct. *)
Inductive value : Type :=
| Finite (d : Decimal.t)
| Infinity (sign : bool)
| NaN (sign : bool) (signaling : bool) (diag : N).

(** The optional exponent [(E[-+]?\d+)?] followed by the end of the string. *)
Definition parse_exponent (s : list ascii) : option Z :=
  match s with
  | [] => Some 0
  | c :: r =>
      if Ascii.eqb (lower c) "e" then
        let '(neg, r) :=
          match r with
          | "-"%char :: r' => (true, r')
          | "+"%char :: r' => (false, r')
          | _ => (false, r)
          end in
        match span_digits r with
        | ((_ :: _) as ds, []) =>
            Some (if neg then - Z.of_N (int_of_digits ds) else Z.of_N (int_of_digits ds))
        | _ => None
        end
      else None
  end.

(** The numeric alternative of the grammar: digits, an optional fraction,
    an optional exponent, with at least one digit before the exponent. *)
Definition parse_number (sign : bool) (s : list ascii) : option value :=
  let '(intpart, r) := span_digits s in
  let '(fracpart, r, dot) :=
    match r with
    | "."%char :: r' => let '(f, r'') := span_digits r' in (f, r'', true)
    | _ => ([], r, false)
    end in
  match intpart ++ fracpart with
  | [] => None
  | digits =>
      match parse_exponent r with
      | Some exp =>
          Some (Finite (Decimal.mk sign (int_of_digits digits)
                                   (exp - Z.of_nat (List.length fracpart))))
      | None => None
      end
  end.

Definition string_lower (s : list ascii) : list ascii := map lower s.

Definition parse_special (sign : bool) (s : list ascii) : option value :=
  let l := string_lower s in
  if list_eq_dec ascii_dec l (list_ascii_of_string "inf") then Some (Infinity sign)
  else if list_eq_dec ascii_dec l (list_ascii_of_string "infinity") then Some (Infinity sign)
  else
    let '(signaling, l) :=
      match l with
      | "s"%char :: l' => (true, l')
      | _ => (false, l)
      end in
    match l with
    | "n"%char :: "a"%char :: "n"%char :: diag =>
        match span_digits diag with
        | (ds, []) => Some (NaN sign signaling (int_of_digits ds))
        | _ => None
        end
    | _ => None
    end.

(** The limits of the decimal module: [Decimal(value)] constructs a number
    exactly, and refuses a text whose number needs an exponent or a
    precision outside them ([MAX_PREC], [MAX_EMAX], [MIN_ETINY]). *)
Definition MAX_PREC : Z := 999999999999999999.
Definition MAX_EMAX : Z := 999999999999999999.
Definition MIN_ETINY : Z := -1999999999999999997.

Definition constructible (d : Decimal.t) : bool :=
  (MIN_ETINY <=? d_exp d) && (adjusted d <=? MAX_EMAX) && (ndigits (coef d) <=? MAX_PREC).

(** The grammar of [Decimal(value)] for a string: surrounding whitespace
    and all underscores are removed, then the text must match. *)
Definition Decimal_syntax (s : list ascii) : option value :=
  let s := remove_char "_" (strip s) in
  let '(sign, body) :=
    match s with
    | "-"%char :: r => (true, r)
    | "+"%char :: r => (false, r)
    | _ => (false, s)
    end in
  match body with
  | c :: r =>
      if isdigit c || Ascii.eqb c "." then parse_number sign body
      else parse_special sign body
  | [] => None
  end.

(** [Decimal(value)] for a string: the number of the text, when the text
    matches the grammar and the number is within the limits. *)
Definition Decimal_of_str (s : list ascii) : option value :=
  match Decimal_syntax s with
  | Some (Finite d) => if constructible d then Some (Finite d) else None
  | r => r
  end.

Definition to_decimal (value_str : string) : outcome value :=
  let cleaned :=
    remove_char "$" (remove_char "," (strip (list_ascii_of_string value_str))) in
  match Decimal_of_str cleaned with
  | Some d => Ok d
  | None => Raise ValueError
  end.

(** ** Values and bounds used in the statements *)

(** The signed coefficient. *)
Definition signed (d : Decimal.t) : Z :=
  if d_sign d then - coef d else coef d.

(** The value in minor units (cents) of a number with at most two decimal
    places ([d_exp d >= -2]). *)
Definition cents (d : Decimal.t) : Z := signed d * 10 ^ (d_exp d + 2).

(** The value as a rational number. *)
Definition pow10Q (e : Z) : Q :=
  if 0 <=? e then inject_Z (10 ^ e) else / inject_Z (10 ^ (- e)).

Definition dval (d : Decimal.t) : Q := inject_Z (signed d) * pow10Q (d_exp d).

(** [below K d]: [|d| < 10^K] (zero, or at most [K] digits before the point). *)
Definition below (K : Z) (d : Decimal.t) : Prop :=
  coef d = 0 \/ ndigits (coef d) + d_exp d <= K.

(** [fits d]: at most two decimal places and fewer than 10^28 minor units, so
    that the context precision of 28 digits holds the number exactly. *)
Definition fits (d : Decimal.t) : Prop :=
  -2 <= d_exp d /\ Z.abs (cents d) < 10 ^ 28.

(** The round-robin distribution on integers: [m] units of sign [sgn], one
    per step, starting at index [i] and advancing [(i + 1) mod n]. *)
Fixpoint distribute (m : nat) (cs : list Z) (sgn : Z) (i n : nat) : list Z :=
  match m with
  | O => cs
  | S m' => distribute m' (setitem cs i (nth i cs 0 + sgn)) sgn ((i + 1) mod n) n
  end.

(** The number of units participant [j] has received after [m] steps of a
    round robin over [n] participants that starts at index 0. *)
Definition share_of (m n j : nat) : Z :=
  Z.of_nat (m / n) + (if (j <? m mod n)%nat then 1 else 0).

Definition sum_Z (l : list Z) : Z := fold_right Z.add 0 l.

(** Rounding half up to two places, on the coefficient: a number with
    exponent [e < -2] loses [k = -2 - e] digits, and [c] becomes
    [floor ((c + 10^k / 2) / 10^k)]. *)
Definition half_up_coef (d : Decimal.t) : Z :=
  if -2 <=? d_exp d then coef d * 10 ^ (d_exp d + 2)
  else (coef d + 5 * 10 ^ (- 3 - d_exp d)) / 10 ^ (- 2 - d_exp d).

(** Round-half-up as the specification words it: the nearest multiple of
    0.01, a tie going away from zero; the result is counted in minor
    units, without its sign. *)
Definition round_half_up_spec (x : Q) : Z := Qfloor (Qabs x * 100 + (1 # 2))%Q.

(** [d] is, or is not, negative: the test [d < 0] of the input loops. *)
Definition nonneg (d : Decimal.t) : Prop := Decimal.lt d (Decimal.of_Z 0) = false.

(** A share as the allocators build it: two decimal places, between 0 and
    [B] minor units. *)
Definition cents_in (B : Z) (s : Decimal.t) : Prop :=
  d_exp s = -2 /\ 0 <= cents s <= B.

(** A share inside the loop: two decimal places, and room for [m] more
    one-cent steps within 28 digits. *)
Definition share_ok (m : Z) (s : Decimal.t) : Prop :=
  d_exp s = -2 /\ Z.abs (cents s) + m < 10 ^ 28.

(** Requests whose numbers the 28-digit context holds exactly: a total
    that is not negative, has at most two decimal places and is below
    [10^K]; a count of at least one and at most [10^M] participants;
    percentages that are not negative and below 1000. *)
Record valid_total (K : Z) (total : Decimal.t) : Prop := {
  vt_nonneg : nonneg total;
  vt_places : -2 <= d_exp total;
  vt_below : below K total
}.

Definition valid_count (M : Z) (n : nat) : Prop :=
  (1 <= n)%nat /\ Z.of_nat n <= 10 ^ M.

Definition valid_percentage (p : Decimal.t) : Prop := nonneg p /\ below 3 p.

(** The direction of the residual loop, and its number of iterations. *)
Definition direction (residual : Decimal.t) : Z := if d_sign residual then -1 else 1.
Definition steps (residual : Decimal.t) : nat := Z.abs_nat (cents residual).

(** The sum of the values of an allocation result, as a rational number. *)
Definition sum_Q (l : list Q) : Q := fold_right Qplus 0%Q l.

Definition total_of (result : list (string * Decimal.t)) : Q :=
  sum_Q (map (fun entry => dval (snd entry)) result).

(** What the specification says of the residual loop, for the state
    [(shares, residual)] the loop starts from: after each of the first
    [steps residual] iterations the residual is a whole number [c] of minor
    units, the number of units left has gone down by one per iteration,
    and the loop returns once these iterations are done. *)
Definition counts_down (shares : list Decimal.t) (residual : Decimal.t) (n : nat) : Prop :=
  (forall k, (k <= steps residual)%nat ->
     exists shares_k residual_k i_k,
       iterate_body k shares residual 0 n = Ok (shares_k, residual_k, i_k) /\
       exists c : Z,
         (dval residual_k == inject_Z c * dval cent)%Q /\
         Z.abs c = Z.of_nat (steps residual) - Z.of_nat k) /\
  exists out, residual_loop (S (steps residual)) shares residual 0 n = Ok out.

(** ** Requests within the precision of the context *)

(** The rounded shares of [split_evenly] and of [split_by_percentage],
    as the functions have them before they sum and reconcile them. *)
Definition even_rounded (total : Decimal.t) (n : nat) : outcome (list Decimal.t) :=
  base <- Decimal.div total (Decimal.of_Z (Z.of_nat n)) ;;
  sequence (map (fun _ => round_money base) (seq 0 n)).

Definition percentage_rounded (total : Decimal.t) (percentages : list Decimal.t)
  : outcome (list Decimal.t) :=
  sequence (map (fun p =>
              q <- Decimal.div p (Decimal.of_Z 100) ;;
              share <- Decimal.mul q total ;;
              round_money share) percentages).

(** [sum] adds the rounded shares without rounding: what it returns is
    their sum. *)
Definition sum_is_exact (rounded : list Decimal.t) : Prop :=
  exists s, py_sum rounded = Ok s /\ (dval s == sum_Q (map dval rounded))%Q.

(** The arithmetic of 28 digits is exact on a request when the total is
    not negative, has at most two decimal places and fewer than [10^28]
    minor units, [sum] adds the rounded shares without rounding, and the
    residual, the total less that sum, has fewer than [10^28] minor
    units. *)
Definition within_precision (total : Decimal.t) (rounded : list Decimal.t) : Prop :=
  nonneg total /\ fits total /\ sum_is_exact rounded /\
  Z.abs (cents total - sum_Z (map cents rounded)) < 10 ^ 28.

(** Every amount met while [m] units are dealt out, one by one from index
    [i], has fewer than [10^28] minor units. *)
Fixpoint run_in_range (m : nat) (cs : list Z) (sgn : Z) (i n : nat) : Prop :=
  Forall (fun c => Z.abs c < 10 ^ 28) cs /\
  match m with
  | O => True
  | S m' => run_in_range m' (setitem cs i (nth i cs 0 + sgn)) sgn ((i + 1) mod n)%nat n
  end.



(** A total of 28 digits: 99999999999999999999999999.99. *)
Definition total_28_digits : Decimal.t :=
  Decimal.mk false 9999999999999999999999999999 (-2).

(** A total with three decimal places: 10.005. *)
Definition total_three_places : Decimal.t := Decimal.mk false 10005 (-3).

(** A percentage above the band: 100.0100000000000000000000000004. *)
Definition above_band : Decimal.t :=
  Decimal.mk false 1000100000000000000000000000004 (-28).

(** The value of a number, scaled to an exponent [m] not above its own. *)
Definition scaled (m : Z) (d : Decimal.t) : Z := signed d * 10 ^ (d_exp d - m).

(** ** The parser, as specified and as characterised *)

(** [str.rstrip()]; [strip] is [rstrip] after [lstrip]. *)
Definition rstrip (s : list ascii) : list ascii := rev (lstrip (rev s)).

Definition all_space (s : list ascii) : bool := forallb isspace s.

(** The parser in the words of the specification: surrounding whitespace is
    stripped, then one leading currency symbol, then the thousands
    separators; the rest must be a number, anything else is an error. *)
Definition parse_money_spec (text : string) : outcome value :=
  let s := strip (list_ascii_of_string text) in
  let s := match s with
           | c :: r => if Ascii.eqb c "$" then r else s
           | [] => s
           end in
  let s := remove_char "," s in
  match Decimal_of_str s with
  | Some (Finite d) => Ok (Finite d)
  | _ => Raise ValueError
  end.

Definition one_of (cs : string) (c : ascii) : bool :=
  existsb (Ascii.eqb c) (list_ascii_of_string cs).

(** The characters that can occur in a text [Decimal(value)] accepts:
    digits, whitespace, the point, the underscore, the signs, and the
    letters of the exponent marker and of the special values. *)
Definition decimal_char (c : ascii) : bool :=
  isdigit c || isspace c || one_of "._+-" c || one_of "einftyas" (lower c).

(** The characters of a text [to_decimal] accepts: those and the two it
    removes. *)
Definition money_char (c : ascii) : bool := decimal_char c || one_of ",$" c.

(** ** Console interaction

    [input(prompt)] writes the prompt and reads one line of standard
    input, raising EOFError when there is none left; [print] writes one
    line.  A run of an interactive function is given the lines still to be
    read and tells what was written, in order, and how the call ended. *)

Inductive event : Type :=
| Prompt (text : string)
| Print (text : string).

Inductive run (A : Type) : Type :=
| Returns (a : A) (rest : list string) (out : list event)
| Raises (e : exn) (out : list event)
| EndOfInput (out : list event)
| Diverges (out : list event).
Arguments Returns {A} a rest out.
Arguments Raises {A} e out.
Arguments EndOfInput {A} out.
Arguments Diverges {A} out.

(** What was written so far, before the rest of the run. *)
Definition emit {A : Type} (evs : list event) (r : run A) : run A :=
  match r with
  | Returns a rest out => Returns a rest (evs ++ out)
  | Raises e out => Raises e (evs ++ out)
  | EndOfInput out => EndOfInput (evs ++ out)
  | Diverges out => Diverges (evs ++ out)
  end.

Definition written {A : Type} (r : run A) : list event :=
  match r with
  | Returns _ _ out | Raises _ out | EndOfInput out | Diverges out => out
  end.

Definition map_run {A B : Type} (f : A -> B) (r : run A) : run B :=
  match r with
  | Returns a rest out => Returns (f a) rest out
  | Raises e out => Raises e out
  | EndOfInput out => EndOfInput out
  | Diverges out => Diverges out
  end.

(** [s.strip()] on a string. *)
Definition py_strip (s : string) : string :=
  string_of_list_ascii (strip (list_ascii_of_string s)).

(** [d < 0] for what [to_decimal] returns: a comparison with a NaN signals
    InvalidOperation, which the context traps. *)
Definition negative (v : value) : outcome bool :=
  match v with
  | Finite d => Ok (Decimal.lt d (Decimal.of_Z 0))
  | Infinity sign => Ok sign
  | NaN _ _ _ => Raise InvalidOperation
  end.

(** [get_positive_decimal]: one line is read per iteration of the loop.
    The handler catches ValueError only. *)
Fixpoint get_positive_decimal (prompt : string) (stdin : list string) : run value :=
  match stdin with
  | [] => EndOfInput [Prompt prompt]
  | line :: rest =>
      let s := py_strip line in
      emit [Prompt prompt]
        match to_decimal s with
        | Ok d =>
            match negative d with
            | Ok true =>
                emit [Print "Amount cannot be negative. Try again."]
                     (get_positive_decimal prompt rest)
            | Ok false => Returns d rest []
            | Raise ValueError =>
                emit [Print "Invalid number. Try again (e.g. 123.45)."]
                     (get_positive_decimal prompt rest)
            | Raise e => Raises e []
            | OutOfFuel => Diverges []
            end
        | Raise ValueError =>
            emit [Print "Invalid number. Try again (e.g. 123.45)."]
                 (get_positive_decimal prompt rest)
        | Raise e => Raises e []
        | OutOfFuel => Diverges []
        end
  end.

(** [c.isdigit()] below code point 256: the decimal digits and the
    superscripts two, three and one. *)
Definition py_isdigit (c : ascii) : bool :=
  let n := nat_of_ascii c in
  (isdigit c || (n =? 178) || (n =? 179) || (n =? 185))%nat.

(** [s.isdigit()]: false for the empty string. *)
Definition str_isdigit (s : list ascii) : bool :=
  match s with
  | [] => false
  | _ => forallb py_isdigit s
  end.

(** The digits of an integer literal: decimal digits, with single
    underscores allowed between them. *)
Fixpoint literal_digits (after_digit : bool) (s : list ascii) : option (list ascii) :=
  match s with
  | [] => if after_digit then Some [] else None
  | c :: r =>
      if isdigit c then option_map (cons c) (literal_digits true r)
      else if Ascii.eqb c "_" then
        if after_digit then literal_digits false r else None
      else None
  end.

(** [sys.int_info.default_max_str_digits], the limit of CPython 3.11 and
    later on the digits of a decimal literal. *)
Definition max_str_digits : nat := 4300.

(** The whitespace [int] skips around a literal: that of [str.isspace]
    without the separators 28-31. *)
Definition int_space (c : ascii) : bool :=
  let n := nat_of_ascii c in
  isspace c && negb ((28 <=? n) && (n <=? 31))%nat.

Fixpoint int_lstrip (s : list ascii) : list ascii :=
  match s with
  | c :: r => if int_space c then int_lstrip r else s
  | [] => []
  end.

(** [int(s)] in base 10: surrounding whitespace, an optional sign, the
    digits; more than 4300 digits are refused. *)
Definition int_of_str (s : list ascii) : outcome Z :=
  let s := rev (int_lstrip (rev (int_lstrip s))) in
  let '(neg, body) :=
    match s with
    | c :: r => if Ascii.eqb c "-" then (true, r)
                else if Ascii.eqb c "+" then (false, r)
                else (false, s)
    | [] => (false, s)
    end in
  match literal_digits false body with
  | Some ds =>
      if (max_str_digits <? List.length ds)%nat then Raise ValueError
      else Ok (if neg then - Z.of_N (int_of_digits ds) else Z.of_N (int_of_digits ds))
  | None => Raise ValueError
  end.

(** [str(k)] for an int. *)
Definition string_of_Z (k : Z) : string := NilZero.string_of_int (Z.to_int k).

(** [get_positive_int]. *)
Fixpoint get_positive_int (prompt : string) (min_value : Z) (stdin : list string) : run Z :=
  match stdin with
  | [] => EndOfInput [Prompt prompt]
  | line :: rest =>
      let s := strip (list_ascii_of_string line) in
      emit [Prompt prompt]
        (if negb (str_isdigit s) then
           emit [Print "Please enter a positive integer."]
                (get_positive_int prompt min_value rest)
         else
           match int_of_str s with
           | Ok n =>
               if n <? min_value then
                 emit [Print ("Please enter an integer >= " ++ string_of_Z min_value ++ ".")%string]
                      (get_positive_int prompt min_value rest)
               else Returns n rest []
           | Raise e => Raises e []
           | OutOfFuel => Diverges []
           end)
  end.

(** [c.lower()] below code point 256: the letters A-Z and the capital
    letters of Latin-1 (192-222 without the multiplication sign 215). *)
Definition py_lower_char (c : ascii) : ascii :=
  let n := nat_of_ascii c in
  if ((65 <=? n) && (n <=? 90) || (192 <=? n) && (n <=? 222) && negb (n =? 215))%nat
  then ascii_of_nat (n + 32) else c.

Definition py_lower (s : string) : string :=
  string_of_list_ascii (map py_lower_char (list_ascii_of_string s)).

(** The loop of [ask_names] over [range(i, i + count)]. *)
Fixpoint read_names (i count : nat) (stdin : list string) : run (list string) :=
  match count with
  | O => Returns [] stdin []
  | S count' =>
      let prompt := ("  Enter name for person #" ++ string_of_nat i
                     ++ " (leave blank for default): ")%string in
      match stdin with
      | [] => EndOfInput [Prompt prompt]
      | line :: rest =>
          let name := py_strip line in
          let name := if String.eqb name "" then ("Person " ++ string_of_nat i)%string
                      else name in
          emit [Prompt prompt] (map_run (cons name) (read_names (S i) count' rest))
      end
  end.

Definition ask_names (n : nat) (stdin : list string) : run (list string) :=
  let prompt := "Would you like to enter names for each person? (y/N): "%string in
  match stdin with
  | [] => EndOfInput [Prompt prompt]
  | line :: rest =>
      let use_names := py_lower (py_strip line) in
      emit [Prompt prompt]
        (if String.eqb use_names "y" then read_names 1 n rest
         else Returns (default_names n) rest [])
  end.

(** ** Printing amounts

    [str(d)] for a finite Decimal, which is also what an f-string puts for
    [{amount}]: scientific notation, with the exponent marker in capitals. *)

Definition digits_of_N (n : N) : list ascii :=
  list_ascii_of_string (NilZero.string_of_uint (N.to_uint n)).

(** ["%+d" % k]. *)
Definition signed_digits (k : Z) : list ascii :=
  (if k <? 0 then "-"%char else "+"%char) :: digits_of_N (Z.abs_N k).

Definition Decimal_str (d : Decimal.t) : string :=
  let sign := if d_sign d then ["-"%char] else [] in
  let digs := digits_of_N (d_int d) in
  let len := Z.of_nat (List.length digs) in
  let leftdigits := d_exp d + len in
  let dotplace := if (d_exp d <=? 0) && (-6 <? leftdigits) then leftdigits else 1 in
  let '(intpart, fracpart) :=
    if dotplace <=? 0 then
      (["0"%char], "."%char :: repeat "0"%char (Z.to_nat (- dotplace)) ++ digs)
    else if len <=? dotplace then
      (digs ++ repeat "0"%char (Z.to_nat (dotplace - len)), [])
    else
      (firstn (Z.to_nat dotplace) digs, "."%char :: skipn (Z.to_nat dotplace) digs) in
  let exp := if leftdigits =? dotplace then []
             else "E"%char :: signed_digits (leftdigits - dotplace) in
  string_of_list_ascii (sign ++ intpart ++ fracpart ++ exp).

(** ** Exporting the result

    [os.path.splitext] of a POSIX path. *)

(** [p.rfind(c)]: the last index of [c], -1 when there is none. *)
Fixpoint rfind (c : ascii) (p : list ascii) : Z :=
  match p with
  | [] => -1
  | x :: r =>
      let k := rfind c r in
      if 0 <=? k then k + 1 else if Ascii.eqb x c then 0 else -1
  end.

(** [p[i:j]] for indices within the string. *)
Definition slice (p : list ascii) (i j : Z) : list ascii :=
  firstn (Z.to_nat (j - i)) (skipn (Z.to_nat i) p).

Definition splitext (p : list ascii) : list ascii * list ascii :=
  let sepIndex := rfind "/" p in
  let dotIndex := rfind "." p in
  if sepIndex <? dotIndex then
    (* the loop over [filenameIndex] returns at the first character that
       is no dot *)
    if existsb (fun c => negb (Ascii.eqb c ".")) (slice p (sepIndex + 1) dotIndex)
    then (firstn (Z.to_nat dotIndex) p, skipn (Z.to_nat dotIndex) p)
    else (p, [])
  else (p, []).

(** The file system, as [export_to_txt] meets it: what [os.path.exists]
    answers for a path; what [open(path, 'w', encoding='utf-8')] raises, if
    anything (FileNotFoundError, an OSError, when a directory of the path
    is missing; IsADirectoryError or PermissionError, ...); and what
    writing a text to the file opened at a path and closing it raises, if
    anything. *)
Record file_system : Type := {
  fs_exists : string -> bool;
  fs_open : string -> option exn;
  fs_write : string -> string -> option exn
}.

(** What the call asks of the file system and does to it, in order. *)
Inductive file_event : Type :=
| AskExists (path : string)
| OpenToWrite (path : string)
| WriteText (path : string) (text : string)
| CloseFile (path : string).

(** [export_to_txt]; [timestamp] is what
    [time.strftime("%Y%m%d-%H%M%S")] gives at the call.  The [with]
    statement closes the file whether or not the write raises. *)
Definition export_to_txt (filename result_summary : string) (timestamp : string)
           (fs : file_system) : outcome string * list file_event :=
  let '(base, ext) := splitext (list_ascii_of_string filename) in
  let base := string_of_list_ascii base in
  let ext := match ext with [] => ".txt"%string | _ => string_of_list_ascii ext end in
  let first := (base ++ ext)%string in
  let safe_filename :=
    if fs_exists fs first
    then (base ++ "_" ++ timestamp ++ ext)%string
    else first in
  match fs_open fs safe_filename with
  | Some e => (Raise e, [AskExists first; OpenToWrite safe_filename])
  | None =>
      (match fs_write fs safe_filename result_summary with
       | Some e => Raise e
       | None => Ok safe_filename
       end,
       [AskExists first; OpenToWrite safe_filename;
        WriteText safe_filename result_summary; CloseFile safe_filename])
  end.

(** A file system where [bill.txt] exists and every path can be written,
    and one where nothing exists and no path can be opened. *)
Definition bill_exists : file_system :=
  {| fs_exists := fun path => String.eqb path "bill.txt";
     fs_open := fun _ => None;
     fs_write := fun _ _ => None |}.

Definition no_directory : file_system :=
  {| fs_exists := fun _ => false;
     fs_open := fun _ => Some OSError;
     fs_write := fun _ _ => None |}.

(** ** Lines the input loops turn down *)

(** A line [get_positive_decimal] answers with a message and a new
    prompt: no number, or a negative one. *)
Definition amount_rejected (line : string) : Prop :=
  to_decimal line = Raise ValueError \/
  exists v, to_decimal line = Ok v /\ negative v = Ok true.

(** A line [get_positive_int] answers with a message and a new prompt: not
    all digits, or a number below [min_value]. *)
Definition count_rejected (min_value : Z) (line : string) : Prop :=
  let s := strip (list_ascii_of_string line) in
  str_isdigit s = false \/ exists n, int_of_str s = Ok n /\ n < min_value.

(** The message that answers a line [get_positive_decimal] turns down. *)
Definition amount_reply (line : string) : string :=
  match to_decimal line with
  | Ok _ => "Amount cannot be negative. Try again."
  | _ => "Invalid number. Try again (e.g. 123.45)."
  end.

(** The message that answers a line [get_positive_int] turns down. *)
Definition count_reply (min_value : Z) (line : string) : string :=
  if str_isdigit (strip (list_ascii_of_string line))
  then ("Please enter an integer >= " ++ string_of_Z min_value ++ ".")%string
  else "Please enter a positive integer.".

(** What is written while the lines [skipped] are turned down: for each
    line the prompt, then the message that answers it. *)
Definition exchange (prompt : string) (reply : string -> string)
           (skipped : list string) : list event :=
  flat_map (fun line => [Prompt prompt; Print (reply line)]) skipped.

(** The characters [str] writes for a finite number. *)
Definition str_char (c : ascii) : bool := isdigit c || one_of "-.E+" c.

(* ================================================================= *)
(** * Properties *)

(** ** Powers of ten and digit counts *)

Lemma pow10_pos (k : Z) : 0 <= k -> 0 < 10 ^ k.
Proof. intros; apply Z.pow_pos_nonneg; lia. Qed.

Lemma pow10_S (k : Z) : 0 <= k -> 10 ^ (k + 1) = 10 * 10 ^ k.
Proof. intros; rewrite Z.pow_add_r by lia; lia. Qed.

Lemma pow10_le (a b : Z) : 0 <= a <= b -> 10 ^ a <= 10 ^ b.
Proof. intros; apply Z.pow_le_mono_r; lia. Qed.

Lemma pow10_lt (a b : Z) : 0 <= a < b -> 10 ^ a < 10 ^ b.
Proof. intros; apply Z.pow_lt_mono_r; lia. Qed.

Lemma pow10_lt_inv (a b : Z) : 0 <= a -> 0 <= b -> 10 ^ a < 10 ^ b -> a < b.
Proof.
  intros Ha Hb H. destruct (Z_lt_le_dec a b) as [|Hle]; [assumption|].
  pose proof (pow10_le b a ltac:(lia)). lia.
Qed.

Lemma ndigits_fuel_spec (fuel : nat) :
  forall c, 0 < c < 2 ^ (Z.of_nat fuel + 1) ->
    1 <= ndigits_fuel fuel c /\
    10 ^ (ndigits_fuel fuel c - 1) <= c < 10 ^ (ndigits_fuel fuel c).
Proof.
  induction fuel as [|f IH]; intros c Hc.
  - simpl in *. change (2 ^ (0 + 1)) with 2 in Hc. lia.
  - cbn [ndigits_fuel]. destruct (Z.ltb_spec c 10) as [Hs|Hs].
    + simpl. lia.
    + assert (Hq : 0 < c / 10 < 2 ^ (Z.of_nat f + 1)).
      { split.
        - apply Z.div_str_pos; lia.
        - replace (Z.of_nat (S f) + 1) with (Z.of_nat f + 1 + 1) in Hc by lia.
          rewrite Z.pow_add_r in Hc by lia. change (2 ^ 1) with 2 in Hc.
          apply Z.div_lt_upper_bound; lia. }
      destruct (IH _ Hq) as [H1 [H2 H3]].
      set (k := ndigits_fuel f (c / 10)) in *.
      replace (1 + k - 1) with (k - 1 + 1) by lia.
      replace (1 + k) with (k + 1) by lia.
      rewrite !pow10_S by lia.
      pose proof (Z.div_mod c 10 ltac:(lia)).
      pose proof (Z.mod_pos_bound c 10 ltac:(lia)).
      lia.
Qed.

Lemma ndigits_spec (c : Z) :
  0 < c -> 10 ^ (ndigits c - 1) <= c < 10 ^ (ndigits c).
Proof.
  intros Hc. apply ndigits_fuel_spec. split; [assumption|].
  rewrite Z2Nat.id by apply Z.log2_nonneg.
  replace (Z.log2 c + 1) with (Z.succ (Z.log2 c)) by lia.
  apply Z.log2_spec; assumption.
Qed.

Lemma ndigits_pos (c : Z) : 1 <= ndigits c.
Proof.
  destruct (Z_lt_le_dec 0 c) as [Hc|Hc].
  - apply ndigits_fuel_spec. split; [assumption|].
    rewrite Z2Nat.id by apply Z.log2_nonneg.
    replace (Z.log2 c + 1) with (Z.succ (Z.log2 c)) by lia.
    apply Z.log2_spec; assumption.
  - unfold ndigits. rewrite Z.log2_nonpos by assumption. simpl. lia.
Qed.

Lemma ndigits_nonpos (c : Z) : c <= 0 -> ndigits c = 1.
Proof. intros H. unfold ndigits. rewrite Z.log2_nonpos by assumption. reflexivity. Qed.


Lemma ndigits_le (c k : Z) : 1 <= k -> c < 10 ^ k -> ndigits c <= k.
Proof.
  intros Hk Hc. destruct (Z_lt_le_dec 0 c) as [Hp|Hp].
  - destruct (ndigits_spec c Hp) as [H1 _]. pose proof (ndigits_pos c).
    assert (ndigits c - 1 < k) by (apply pow10_lt_inv; lia). lia.
  - rewrite ndigits_nonpos by assumption. assumption.
Qed.

Lemma ndigits_ge (c k : Z) : 1 <= k -> 10 ^ (k - 1) <= c -> k <= ndigits c.
Proof.
  intros Hk Hc.
  assert (Hp : 0 < c) by (pose proof (pow10_pos (k - 1)); lia).
  destruct (ndigits_spec c Hp) as [_ H2]. pose proof (ndigits_pos c).
  assert (k - 1 < ndigits c) by (apply pow10_lt_inv; lia). lia.
Qed.

(** ** Numbers the context holds exactly *)

Ltac ctx := unfold Etop, Etiny in *; unfold Emin, Emax, prec in *.

Lemma coef_nonneg (d : Decimal.t) : 0 <= coef d.
Proof. unfold coef; lia. Qed.

Lemma coef_mkd (s : bool) (c e : Z) : 0 <= c -> coef (mkd s c e) = c.
Proof. intros; unfold coef, mkd; simpl; lia. Qed.

Lemma coef_zero_eta (d : Decimal.t) :
  coef d = 0 -> d = Decimal.mk (d_sign d) 0 (d_exp d).
Proof.
  destruct d as [s c e]; unfold coef; simpl; intros H.
  f_equal; lia.
Qed.

Lemma is_zero_true (d : Decimal.t) : is_zero d = true <-> coef d = 0.
Proof. unfold is_zero; apply Z.eqb_eq. Qed.

Lemma is_zero_false (d : Decimal.t) : is_zero d = false <-> 0 < coef d.
Proof.
  unfold is_zero; rewrite Z.eqb_neq. pose proof (coef_nonneg d); lia.
Qed.

(** [_fix] leaves a number alone when it has at most 28 digits and an
    exponent inside the range of the context. *)
Lemma fix_exact (d : Decimal.t) :
  coef d < 10 ^ 28 -> Etiny <= d_exp d <= Emax - 28 -> _fix d = Ok d.
Proof.
  intros Hc He. unfold _fix.
  destruct (is_zero d) eqn:Hz.
  - apply is_zero_true in Hz. destruct d as [s c e].
    unfold coef in Hz. simpl in *. ctx. do 2 f_equal; lia.
  - apply is_zero_false in Hz.
    pose proof (ndigits_le (coef d) 28 ltac:(lia) Hc) as Hn.
    pose proof (ndigits_pos (coef d)) as Hp.
    ctx.
    destruct (Z.ltb_spec (999999 - 28 + 1) (ndigits (coef d) + d_exp d - 28)); [lia|].
    destruct (Z.ltb_spec (ndigits (coef d) + d_exp d - 28) (-999999 - 28 + 1)).
    + destruct (Z.ltb_spec (d_exp d) (-999999 - 28 + 1)); [lia|reflexivity].
    + destruct (Z.ltb_spec (d_exp d) (ndigits (coef d) + d_exp d - 28)); [lia|reflexivity].
Qed.

Lemma signed_abs (d : Decimal.t) : Z.abs (signed d) = coef d.
Proof. unfold signed; pose proof (coef_nonneg d); destruct (d_sign d); lia. Qed.

Lemma cents_abs (d : Decimal.t) :
  -2 <= d_exp d -> Z.abs (cents d) = coef d * 10 ^ (d_exp d + 2).
Proof.
  intros He. unfold cents. rewrite Z.abs_mul, signed_abs.
  pose proof (pow10_pos (d_exp d + 2) ltac:(lia)). rewrite (Z.abs_eq (10 ^ _)); lia.
Qed.

Lemma cents_mkd (s : bool) (c : Z) :
  0 <= c -> cents (mkd s c (-2)) = if s then - c else c.
Proof.
  intros Hc. unfold cents, signed. rewrite coef_mkd by assumption.
  simpl d_exp. simpl d_sign. change (10 ^ (-2 + 2)) with 1. destruct s; lia.
Qed.

Lemma fits_coef (d : Decimal.t) : fits d -> coef d * 10 ^ (d_exp d + 2) < 10 ^ 28.
Proof. intros [He Hc]. rewrite cents_abs in Hc; assumption. Qed.

(** A nonzero number that fits has at most 26 digits before the point. *)
Lemma fits_digits (d : Decimal.t) :
  fits d -> 0 < coef d -> ndigits (coef d) + d_exp d <= 26.
Proof.
  intros Hf Hz. pose proof (fits_coef d Hf) as Hc. destruct Hf as [He _].
  destruct (ndigits_spec (coef d) Hz) as [Hlo _].
  pose proof (ndigits_pos (coef d)) as Hp.
  assert (H : 10 ^ (ndigits (coef d) - 1 + (d_exp d + 2)) < 10 ^ 28).
  { rewrite Z.pow_add_r by lia.
    pose proof (pow10_pos (d_exp d + 2) ltac:(lia)). nia. }
  apply pow10_lt_inv in H; lia.
Qed.

Lemma fix_cents (s : bool) (c : Z) :
  0 <= c < 10 ^ 28 -> _fix (mkd s c (-2)) = Ok (mkd s c (-2)).
Proof.
  intros Hc. apply fix_exact.
  - rewrite coef_mkd; lia.
  - simpl. ctx. lia.
Qed.

Lemma rescale_pad (d : Decimal.t) :
  0 < coef d -> -2 <= d_exp d ->
  _rescale d (-2) ROUND_HALF_EVEN = mkd (d_sign d) (coef d * 10 ^ (d_exp d + 2)) (-2).
Proof.
  intros Hz He. unfold _rescale.
  apply is_zero_false in Hz. rewrite Hz.
  destruct (Z.leb_spec (-2) (d_exp d)); [|lia].
  replace (d_exp d - -2) with (d_exp d + 2) by lia. reflexivity.
Qed.

Lemma normalize_fits (x y : Decimal.t) :
  fits x -> fits y -> 0 < coef x -> 0 < coef y ->
  Z.min (d_exp x) (d_exp y) = -2 ->
  _normalize (coef x) (d_exp x) (coef y) (d_exp y) =
  ((coef x * 10 ^ (d_exp x + 2), -2), (coef y * 10 ^ (d_exp y + 2), -2)).
Proof.
  intros Hx Hy Zx Zy Hmin.
  pose proof (fits_digits x Hx Zx) as Dx. pose proof (fits_digits y Hy Zy) as Dy.
  pose proof (ndigits_pos (coef x)) as Px. pose proof (ndigits_pos (coef y)) as Py.
  destruct Hx as [Ex _], Hy as [Ey _].
  unfold _normalize. ctx.
  destruct (Z.ltb_spec (d_exp x) (d_exp y)) as [Hlt|Hge].
  - assert (Hx2 : d_exp x = -2) by lia.
    destruct (Z.ltb_spec (ndigits (coef x) + d_exp x - 1)
                (d_exp y + Z.min (-1) (ndigits (coef y) - 28 - 2))); [lia|].
    rewrite Hx2. change (10 ^ (-2 + 2)) with 1.
    replace (d_exp y - -2) with (d_exp y + 2) by lia.
    rewrite Z.mul_1_r. reflexivity.
  - assert (Hy2 : d_exp y = -2) by lia.
    destruct (Z.ltb_spec (ndigits (coef y) + d_exp y - 1)
                (d_exp x + Z.min (-1) (ndigits (coef x) - 28 - 2))); [lia|].
    rewrite Hy2. change (10 ^ (-2 + 2)) with 1.
    replace (d_exp x - -2) with (d_exp x + 2) by lia.
    rewrite Z.mul_1_r. reflexivity.
Qed.

(** Addition is exact on numbers that fit, as long as the sum fits. *)
Lemma add_cents (x y : Decimal.t) :
  fits x -> fits y -> Z.min (d_exp x) (d_exp y) = -2 ->
  Z.abs (cents x + cents y) < 10 ^ 28 ->
  exists z, Decimal.add x y = Ok z /\ d_exp z = -2 /\ cents z = cents x + cents y.
Proof.
  intros Hx Hy Hmin Hsum.
  pose proof (fits_coef x Hx) as Cx. pose proof (fits_coef y Hy) as Cy.
  pose proof (coef_nonneg x) as Nx. pose proof (coef_nonneg y) as Ny.
  assert (Ex : -2 <= d_exp x) by apply Hx. assert (Ey : -2 <= d_exp y) by apply Hy.
  pose proof (pow10_pos (d_exp x + 2) ltac:(lia)) as Px.
  pose proof (pow10_pos (d_exp y + 2) ltac:(lia)) as Py.
  unfold Decimal.add. rewrite Hmin.
  destruct (is_zero x) eqn:Zx; destruct (is_zero y) eqn:Zy; cbn [andb].
  - apply is_zero_true in Zx, Zy.
    exists (Decimal.mk (d_sign x && d_sign y) 0 (-2)). split; [|split].
    + reflexivity.
    + reflexivity.
    + unfold cents, signed. rewrite Zx, Zy. simpl. unfold coef. simpl.
      destruct (d_sign x && d_sign y), (d_sign x), (d_sign y); reflexivity.
  - apply is_zero_true in Zx. apply is_zero_false in Zy.
    pose proof (fits_digits y Hy Zy) as Dy. pose proof (ndigits_pos (coef y)).
    ctx. replace (Z.max (-2) (d_exp y - 28 - 1)) with (-2) by lia.
    rewrite rescale_pad by assumption.
    exists (mkd (d_sign y) (coef y * 10 ^ (d_exp y + 2)) (-2)). split; [|split].
    + apply fix_cents. nia.
    + reflexivity.
    + rewrite cents_mkd by nia. unfold cents, signed. rewrite Zx.
      destruct (d_sign y), (d_sign x); lia.
  - apply is_zero_true in Zy. apply is_zero_false in Zx.
    pose proof (fits_digits x Hx Zx) as Dx. pose proof (ndigits_pos (coef x)).
    ctx. replace (Z.max (-2) (d_exp x - 28 - 1)) with (-2) by lia.
    rewrite rescale_pad by assumption.
    exists (mkd (d_sign x) (coef x * 10 ^ (d_exp x + 2)) (-2)). split; [|split].
    + apply fix_cents. nia.
    + reflexivity.
    + rewrite cents_mkd by nia. unfold cents, signed. rewrite Zy.
      destruct (d_sign y), (d_sign x); lia.
  - apply is_zero_false in Zx, Zy.
    rewrite (normalize_fits x y) by assumption.
    set (C1 := coef x * 10 ^ (d_exp x + 2)) in *.
    set (C2 := coef y * 10 ^ (d_exp y + 2)) in *.
    assert (HC1 : 0 < C1) by (subst C1; nia).
    assert (HC2 : 0 < C2) by (subst C2; nia).
    assert (Hcx : cents x = if d_sign x then - C1 else C1).
    { unfold cents, signed, C1. destruct (d_sign x); lia. }
    assert (Hcy : cents y = if d_sign y then - C2 else C2).
    { unfold cents, signed, C2. destruct (d_sign y); lia. }
    rewrite Hcx, Hcy in *.
    destruct (Bool.eqb (d_sign x) (d_sign y)) eqn:Hs.
    + apply Bool.eqb_prop in Hs. rewrite <- Hs in *.
      exists (mkd (d_sign x) (C1 + C2) (-2)). split; [|split].
      * apply fix_cents. destruct (d_sign x); lia.
      * reflexivity.
      * rewrite cents_mkd by lia. destruct (d_sign x); lia.
    + apply Bool.eqb_false_iff in Hs.
      destruct (Z.eqb_spec C1 C2) as [He|Hne].
      * exists (Decimal.mk false 0 (-2)). split; [|split].
        -- reflexivity.
        -- reflexivity.
        -- unfold cents, signed, coef; simpl.
           destruct (d_sign x), (d_sign y); try congruence; lia.
      * destruct (Z.ltb_spec C1 C2).
        -- exists (mkd (d_sign y) (C2 - C1) (-2)). split; [|split].
           ++ apply fix_cents. lia.
           ++ reflexivity.
           ++ rewrite cents_mkd by lia.
              destruct (d_sign x), (d_sign y); try congruence; lia.
        -- exists (mkd (d_sign x) (C1 - C2) (-2)). split; [|split].
           ++ apply fix_cents. lia.
           ++ reflexivity.
           ++ rewrite cents_mkd by lia.
              destruct (d_sign x), (d_sign y); try congruence; lia.
Qed.

Lemma copy_negate_cents (d : Decimal.t) : cents (copy_negate d) = - cents d.
Proof.
  unfold cents, signed, copy_negate, coef; simpl. destruct (d_sign d); simpl; lia.
Qed.

Lemma copy_negate_fits (d : Decimal.t) : fits d -> fits (copy_negate d).
Proof.
  intros [He Hc]. split; [exact He|]. rewrite copy_negate_cents. lia.
Qed.

Lemma sub_cents (x y : Decimal.t) :
  fits x -> fits y -> Z.min (d_exp x) (d_exp y) = -2 ->
  Z.abs (cents x - cents y) < 10 ^ 28 ->
  exists z, Decimal.sub x y = Ok z /\ d_exp z = -2 /\ cents z = cents x - cents y.
Proof.
  intros Hx Hy Hmin Hs. unfold Decimal.sub.
  destruct (add_cents x (copy_negate y)) as [z [H1 [H2 H3]]];
    try assumption.
  - apply copy_negate_fits; assumption.
  - rewrite copy_negate_cents. replace (cents x + - cents y) with (cents x - cents y) by lia.
    assumption.
  - exists z. rewrite copy_negate_cents in H3. repeat split; try assumption; lia.
Qed.

Lemma cent_fits : fits cent.
Proof. split; [simpl; lia|]. vm_compute. reflexivity. Qed.

Lemma cent_cents : cents cent = 1.
Proof. reflexivity. Qed.

(** The loop tests against [Decimal('0.00')]. *)
Lemma ne_zero_00 (d : Decimal.t) : Decimal.ne d zero_00 = negb (is_zero d).
Proof.
  unfold Decimal.ne, Decimal.eq, _cmp.
  change (is_zero zero_00) with true.
  destruct (is_zero d); [reflexivity|]. destruct (d_sign d); reflexivity.
Qed.

Lemma gt_zero_00 (d : Decimal.t) :
  Decimal.gt d zero_00 = negb (is_zero d) && negb (d_sign d).
Proof.
  unfold Decimal.gt, _cmp. change (is_zero zero_00) with true.
  destruct (is_zero d); [reflexivity|]. destruct (d_sign d); reflexivity.
Qed.

Lemma cents_zero_iff (d : Decimal.t) : -2 <= d_exp d -> (cents d = 0 <-> coef d = 0).
Proof.
  intros He. unfold cents, signed.
  pose proof (pow10_pos (d_exp d + 2) ltac:(lia)). pose proof (coef_nonneg d).
  destruct (d_sign d); nia.
Qed.

Lemma cents_pos_iff (d : Decimal.t) :
  -2 <= d_exp d -> (0 < cents d <-> 0 < coef d /\ d_sign d = false).
Proof.
  intros He. unfold cents, signed.
  pose proof (pow10_pos (d_exp d + 2) ltac:(lia)). pose proof (coef_nonneg d).
  destruct (d_sign d); split.
  - intros; nia.
  - intros [_ Hd]; discriminate.
  - intros; split; [nia|reflexivity].
  - intros [Hc _]; nia.
Qed.

(** ** List assignment *)

Lemma setitem_length {A : Type} (l : list A) (i : nat) (a : A) :
  List.length (setitem l i a) = List.length l.
Proof.
  revert i; induction l as [|x l IH]; intros [|i]; simpl; try reflexivity.
  now rewrite IH.
Qed.

Lemma setitem_map {A B : Type} (f : A -> B) (l : list A) (i : nat) (a : A) :
  map f (setitem l i a) = setitem (map f l) i (f a).
Proof.
  revert i; induction l as [|x l IH]; intros [|i]; simpl; try reflexivity.
  now rewrite IH.
Qed.

Lemma setitem_nth_same {A : Type} (l : list A) (i : nat) (a d : A) :
  (i < List.length l)%nat -> nth i (setitem l i a) d = a.
Proof.
  revert i; induction l as [|x l IH]; intros [|i] H; simpl in *; try lia; try reflexivity.
  apply IH; lia.
Qed.

Lemma setitem_nth_other {A : Type} (l : list A) (i j : nat) (a d : A) :
  i <> j -> nth j (setitem l i a) d = nth j l d.
Proof.
  revert i j; induction l as [|x l IH]; intros [|i] [|j] H; simpl; try reflexivity; try lia.
  apply IH; lia.
Qed.

Lemma setitem_Forall {A : Type} (P : A -> Prop) (l : list A) (i : nat) (a : A) :
  Forall P l -> P a -> Forall P (setitem l i a).
Proof.
  intros Hl Ha; revert i; induction Hl as [|x l Hx Hl IH]; intros [|i]; simpl;
    constructor; auto.
Qed.

Lemma getitem_nth {A : Type} (l : list A) (i : nat) (d : A) :
  (i < List.length l)%nat -> getitem l i = Ok (nth i l d).
Proof.
  intros H. unfold getitem. rewrite (nth_error_nth' l d H). reflexivity.
Qed.

(** ** Rounding to the context precision keeps magnitudes *)

Lemma below_zero (K : Z) (d : Decimal.t) : coef d = 0 -> below K d.
Proof. intros H; left; exact H. Qed.

Lemma kept_lt (c digits : Z) :
  0 < c -> 0 <= digits <= ndigits c -> kept c digits < 10 ^ digits.
Proof.
  intros Hc Hd. unfold kept.
  destruct (ndigits_spec c Hc) as [_ Hhi].
  apply Z.div_lt_upper_bound.
  - apply pow10_pos; lia.
  - rewrite <- Z.pow_add_r by lia.
    replace (ndigits c - digits + digits) with (ndigits c) by lia. assumption.
Qed.

Lemma kept_nonneg (c digits : Z) : 0 <= c -> 0 <= kept c digits.
Proof.
  intros Hc. unfold kept.
  destruct (Z_lt_le_dec (ndigits c - digits) 0) as [Hn|Hn].
  - rewrite Z.pow_neg_r by assumption. rewrite Z.div_0_r. lia.
  - apply Z.div_pos; [assumption|apply pow10_pos; assumption].
Qed.

Lemma fix_below (d : Decimal.t) (K : Z) :
  0 < coef d -> ndigits (coef d) + d_exp d <= K -> Etiny < K <= Etop + 27 ->
  exists y, _fix d = Ok y /\ d_sign y = d_sign d /\ below (K + 1) y.
Proof.
  intros Hc HD HK. unfold _fix.
  pose proof Hc as Hz. apply is_zero_false in Hz. rewrite Hz.
  pose proof (ndigits_pos (coef d)) as Hp.
  set (nd := ndigits (coef d)) in *.
  ctx.
  destruct (Z.ltb_spec (999999 - 28 + 1) (nd + d_exp d - 28)) as [|Hov]; [lia|].
  set (exp_min := if nd + d_exp d - 28 <? -999999 - 28 + 1
                  then -999999 - 28 + 1 else nd + d_exp d - 28).
  assert (Hem : exp_min = Z.max (nd + d_exp d - 28) (-999999 - 28 + 1)).
  { unfold exp_min. destruct (Z.ltb_spec (nd + d_exp d - 28) (-999999 - 28 + 1)); lia. }
  clearbody exp_min.
  destruct (Z.ltb_spec (d_exp d) exp_min) as [Hr|Hr].
  2:{ exists d. split; [reflexivity|]. split; [reflexivity|]. right. fold nd. lia. }
  destruct (Z.ltb_spec (nd + d_exp d - exp_min) 0) as [Hneg|Hdig].
  - (* everything is rounded away *)
    change (_round_half_even 1 0) with (-1). change (kept 1 0) with 0.
    cbn [Z.ltb Z.compare].
    destruct (Z.ltb_spec (999999 - 28 + 1) exp_min); [lia|].
    eexists. split; [reflexivity|]. split; [reflexivity|]. left. reflexivity.
  - set (digits := nd + d_exp d - exp_min) in *.
    assert (Hk : kept (coef d) digits < 10 ^ digits) by (apply kept_lt; fold nd; lia).
    pose proof (kept_nonneg (coef d) digits ltac:(lia)) as Hk0.
    set (q := kept (coef d) digits) in *.
    assert (Hd28 : digits <= 28) by lia.
    destruct (Z.ltb_spec 0 (_round_half_even (coef d) digits)) as [Hup|Hdn].
    + destruct (Z.ltb_spec 28 (ndigits (q + 1))) as [Hcarry|Hnc].
      * (* the coefficient became 10^28 *)
        assert (Hq : q + 1 = 10 ^ 28).
        { assert (10 ^ 28 <= q + 1).
          { destruct (ndigits_spec (q + 1) ltac:(lia)) as [Hlo _].
            pose proof (pow10_le 28 (ndigits (q + 1) - 1) ltac:(lia)). lia. }
          pose proof (pow10_le digits 28 ltac:(lia)). lia. }
        assert (Hdg : digits = 28).
        { destruct (Z.eq_dec digits 28); [assumption|].
          pose proof (pow10_lt digits 28 ltac:(lia)). lia. }
        rewrite Hq. change (10 ^ 28 / 10) with (10 ^ 27).
        destruct (Z.ltb_spec (999999 - 28 + 1) (exp_min + 1)); [lia|].
        eexists. split; [reflexivity|]. split; [reflexivity|].
        right. rewrite coef_mkd by (vm_compute; discriminate).
        change (ndigits (10 ^ 27)) with 28. simpl d_exp. lia.
      * destruct (Z.ltb_spec (999999 - 28 + 1) exp_min); [lia|].
        eexists. split; [reflexivity|]. split; [reflexivity|].
        right. rewrite coef_mkd by lia. simpl d_exp.
        assert (ndigits (q + 1) <= digits + 1).
        { apply ndigits_le; [lia|]. rewrite pow10_S by lia.
          pose proof (pow10_pos digits ltac:(lia)). lia. }
        lia.
    + destruct (Z.ltb_spec (999999 - 28 + 1) exp_min); [lia|].
      eexists. split; [reflexivity|]. split; [reflexivity|].
      destruct (Z.eq_dec q 0) as [Hq0|Hq0].
      * left. rewrite coef_mkd by lia. assumption.
      * right. rewrite coef_mkd by lia. simpl d_exp.
        assert (ndigits q <= digits).
        { destruct (Z.eq_dec digits 0) as [Hd0|Hd0].
          - rewrite Hd0 in Hk. change (10 ^ 0) with 1 in Hk. lia.
          - apply ndigits_le; lia. }
        lia.
Qed.

(** ** Quantizing to two places *)

Lemma rescale_half_up (d : Decimal.t) :
  _rescale d (-2) ROUND_HALF_UP = mkd (d_sign d) (half_up_coef d) (-2).
Proof.
  unfold _rescale, half_up_coef.
  pose proof (coef_nonneg d) as Hn. pose proof (ndigits_pos (coef d)) as Hp.
  destruct (is_zero d) eqn:Hz.
  - apply is_zero_true in Hz. rewrite Hz.
    destruct (Z.leb_spec (-2) (d_exp d)) as [He|He].
    + rewrite Z.mul_0_l. reflexivity.
    + rewrite Z.add_0_l.
      assert (H : 5 * 10 ^ (-3 - d_exp d) / 10 ^ (-2 - d_exp d) = 0).
      { apply Z.div_small.
        replace (-2 - d_exp d) with (-3 - d_exp d + 1) by lia.
        rewrite pow10_S by lia.
        pose proof (pow10_pos (-3 - d_exp d) ltac:(lia)). lia. }
      rewrite H. reflexivity.
  - apply is_zero_false in Hz.
    destruct (Z.leb_spec (-2) (d_exp d)) as [He|He].
    + replace (d_exp d - -2) with (d_exp d + 2) by lia. reflexivity.
    + set (k := -2 - d_exp d). assert (Hk : 0 < k) by (unfold k; lia).
      replace (-3 - d_exp d) with (k - 1) by (unfold k; lia).
      pose proof (pow10_pos (k - 1) ltac:(lia)) as Pk1.
      assert (Hk10 : 10 ^ k = 10 * 10 ^ (k - 1)).
      { replace k with (k - 1 + 1) at 1 by lia. apply pow10_S; lia. }
      destruct (ndigits_spec (coef d) Hz) as [_ Hhi].
      destruct (Z.ltb_spec (ndigits (coef d) + d_exp d - -2) 0) as [Hneg|Hdig].
      * change (pick_rounding ROUND_HALF_UP 1 0) with (-1). change (kept 1 0) with 0.
        change (-1 =? 1) with false. cbv iota. f_equal.
        symmetry. apply Z.div_small.
        pose proof (pow10_le (ndigits (coef d)) (k - 1) ltac:(unfold k; lia)). lia.
      * cbn [pick_rounding]. unfold _round_half_up, kept, dropped, half.
        replace (ndigits (coef d) - (ndigits (coef d) + d_exp d - -2)) with k
          by (unfold k; lia).
        replace (ndigits (coef d) - (ndigits (coef d) + d_exp d - -2) - 1) with (k - 1)
          by (unfold k; lia).
        pose proof (Z.div_mod (coef d) (10 ^ k) ltac:(lia)) as Hdm.
        pose proof (Z.mod_pos_bound (coef d) (10 ^ k) ltac:(lia)) as Hmb.
        set (q := coef d / 10 ^ k) in *. set (r := coef d mod 10 ^ k) in *.
        f_equal.
        destruct (Z.leb_spec (5 * 10 ^ (k - 1)) r) as [Hup|Hdn].
        -- change (1 =? 1) with true. cbv iota.
           apply Z.div_unique with (r := r - 5 * 10 ^ (k - 1)); lia.
        -- assert (Hq : (coef d + 5 * 10 ^ (k - 1)) / 10 ^ k = q).
           { symmetry. apply Z.div_unique with (r := r + 5 * 10 ^ (k - 1)); lia. }
           rewrite Hq. destruct (r =? 0); reflexivity.
Qed.

Lemma half_up_coef_nonneg (d : Decimal.t) : 0 <= half_up_coef d.
Proof.
  unfold half_up_coef. pose proof (coef_nonneg d).
  destruct (Z.leb_spec (-2) (d_exp d)).
  - pose proof (pow10_pos (d_exp d + 2) ltac:(lia)). nia.
  - apply Z.div_pos.
    + pose proof (pow10_pos (-3 - d_exp d) ltac:(lia)). lia.
    + apply pow10_pos; lia.
Qed.

(** The rounded coefficient is at least [10^(adjusted d + 2)]. *)
Lemma half_up_coef_lower (d : Decimal.t) :
  0 < coef d -> 0 <= adjusted d + 2 -> 10 ^ (adjusted d + 2) <= half_up_coef d.
Proof.
  intros Hz Ha. unfold half_up_coef, adjusted in *.
  destruct (ndigits_spec (coef d) Hz) as [Hlo _].
  pose proof (ndigits_pos (coef d)) as Hp.
  destruct (Z.leb_spec (-2) (d_exp d)) as [He|He].
  - replace (d_exp d + ndigits (coef d) - 1 + 2)
      with (ndigits (coef d) - 1 + (d_exp d + 2)) by lia.
    rewrite Z.pow_add_r by lia.
    pose proof (pow10_pos (d_exp d + 2) ltac:(lia)). nia.
  - set (k := -2 - d_exp d) in *. assert (Hk : 0 < k) by (unfold k; lia).
    replace (-3 - d_exp d) with (k - 1) by (unfold k; lia).
    set (a := d_exp d + ndigits (coef d) - 1 + 2) in *.
    assert (Hnd : ndigits (coef d) - 1 = a + k) by (unfold a, k; lia).
    rewrite Hnd in Hlo. rewrite Z.pow_add_r in Hlo by lia.
    pose proof (pow10_pos k ltac:(lia)). pose proof (pow10_pos (k - 1) ltac:(lia)).
    pose proof (pow10_pos a ltac:(lia)).
    apply Z.div_le_lower_bound; [lia|]. nia.
Qed.

(** ... and below [10^K] when the number is below [10^(K - 2)]. *)
Lemma half_up_coef_upper (d : Decimal.t) (K : Z) :
  below K d -> 0 <= K + 2 -> half_up_coef d <= 10 ^ (K + 2).
Proof.
  intros Hb HK. pose proof (pow10_pos (K + 2) HK) as PK.
  destruct (Z.eq_dec (coef d) 0) as [Hz|Hz].
  { unfold half_up_coef. rewrite Hz.
    destruct (Z.leb_spec (-2) (d_exp d)); [lia|].
    rewrite Z.add_0_l, Z.div_small; [lia|].
    replace (-2 - d_exp d) with (-3 - d_exp d + 1) by lia.
    rewrite pow10_S by lia. pose proof (pow10_pos (-3 - d_exp d) ltac:(lia)). lia. }
  destruct Hb as [Hb|Hb]; [contradiction|].
  pose proof (coef_nonneg d) as Hn. assert (Hc : 0 < coef d) by lia.
  destruct (ndigits_spec (coef d) Hc) as [_ Hhi].
  pose proof (ndigits_pos (coef d)) as Hp.
  unfold half_up_coef.
  destruct (Z.leb_spec (-2) (d_exp d)) as [He|He].
  - pose proof (pow10_pos (d_exp d + 2) ltac:(lia)).
    assert (10 ^ (ndigits (coef d) + (d_exp d + 2)) <= 10 ^ (K + 2))
      by (apply pow10_le; lia).
    rewrite Z.pow_add_r in H0 by lia. nia.
  - set (k := -2 - d_exp d) in *. assert (Hk : 0 < k) by (unfold k; lia).
    replace (-3 - d_exp d) with (k - 1) by (unfold k; lia).
    pose proof (pow10_pos (k - 1) ltac:(lia)) as Pk1.
    assert (Hk10 : 10 ^ k = 10 * 10 ^ (k - 1)).
    { replace k with (k - 1 + 1) at 1 by lia. apply pow10_S; lia. }
    destruct (Z_lt_le_dec (ndigits (coef d)) k) as [Hs|Hs].
    + rewrite Z.div_small; [lia|].
      pose proof (pow10_le (ndigits (coef d)) (k - 1) ltac:(lia)). lia.
    + set (j := ndigits (coef d) - k). assert (Hj : 0 <= j) by (unfold j; lia).
      assert (Hnd : ndigits (coef d) = j + k) by (unfold j; lia).
      rewrite Hnd in Hhi. rewrite Z.pow_add_r in Hhi by lia.
      pose proof (pow10_pos j Hj) as Pj.
      assert (Hle : (coef d + 5 * 10 ^ (k - 1)) / 10 ^ k <= 10 ^ j).
      { apply Z.lt_succ_r. apply Z.div_lt_upper_bound; [lia|]. nia. }
      pose proof (pow10_le j (K + 2) ltac:(unfold j, k; lia)). lia.
Qed.

(** [round_money] in closed form: the rounded coefficient when it has at
    most 28 digits, InvalidOperation otherwise. *)
Lemma round_money_char (d : Decimal.t) :
  round_money d =
  if half_up_coef d <? 10 ^ 28
  then Ok (mkd (d_sign d) (half_up_coef d) (-2))
  else Raise InvalidOperation.
Proof.
  unfold round_money, quantize.
  change (negb ((Etiny <=? d_exp cent) && (d_exp cent <=? Emax))) with false.
  cbv iota. change (d_exp cent) with (-2).
  pose proof (half_up_coef_nonneg d) as Hh.
  destruct (is_zero d) eqn:Hz.
  - apply is_zero_true in Hz.
    assert (H0 : half_up_coef d = 0).
    { pose proof (half_up_coef_upper d (-2) (below_zero _ _ Hz) ltac:(lia)) as H.
      change (10 ^ (-2 + 2)) with 1 in H.
      unfold half_up_coef in *. rewrite Hz in *.
      destruct (Z.leb_spec (-2) (d_exp d)); [lia|].
      rewrite Z.add_0_l in *. apply Z.div_small.
      replace (-2 - d_exp d) with (-3 - d_exp d + 1) by lia.
      rewrite pow10_S by lia. pose proof (pow10_pos (-3 - d_exp d) ltac:(lia)). lia. }
    rewrite H0. reflexivity.
  - apply is_zero_false in Hz.
    pose proof (ndigits_pos (coef d)) as Hp.
    destruct (Z.ltb_spec Emax (adjusted d)) as [H1|H1].
    { pose proof (half_up_coef_lower d Hz ltac:(ctx; lia)) as Hl.
      pose proof (pow10_le 28 (adjusted d + 2) ltac:(ctx; lia)).
      destruct (Z.ltb_spec (half_up_coef d) (10 ^ 28)); [lia|reflexivity]. }
    destruct (Z.ltb_spec prec (adjusted d - -2 + 1)) as [H2|H2].
    { pose proof (half_up_coef_lower d Hz ltac:(ctx; lia)) as Hl.
      pose proof (pow10_le 28 (adjusted d + 2) ltac:(ctx; lia)).
      destruct (Z.ltb_spec (half_up_coef d) (10 ^ 28)); [lia|reflexivity]. }
    rewrite rescale_half_up.
    assert (Hup : half_up_coef d <= 10 ^ 28).
    { destruct (Z_lt_le_dec (adjusted d + 3) 0) as [Hs|Hs].
      - pose proof (half_up_coef_upper d (-2)) as H. change (10 ^ (-2 + 2)) with 1 in H.
        assert (1 <= 10 ^ 28) by (vm_compute; discriminate).
        enough (half_up_coef d <= 1) by lia. apply H; [|lia].
        right. unfold adjusted in Hs. lia.
      - pose proof (half_up_coef_upper d (adjusted d + 1)) as H.
        pose proof (pow10_le (adjusted d + 1 + 2) 28 ltac:(ctx; lia)).
        enough (half_up_coef d <= 10 ^ (adjusted d + 1 + 2)) by lia.
        apply H; [|lia]. right. unfold adjusted. lia. }
    unfold adjusted at 1. rewrite coef_mkd by assumption. simpl d_exp.
    assert (Hn29 : ndigits (half_up_coef d) <= 29).
    { apply ndigits_le; [lia|].
      assert (10 ^ 28 < 10 ^ 29) by (apply pow10_lt; lia). lia. }
    destruct (Z.ltb_spec Emax (-2 + ndigits (half_up_coef d) - 1)); [ctx; lia|].
    destruct (Z.ltb_spec (half_up_coef d) (10 ^ 28)) as [Hlt|Hge].
    + pose proof (ndigits_le (half_up_coef d) 28 ltac:(lia) Hlt).
      destruct (Z.ltb_spec prec (ndigits (half_up_coef d))); [ctx; lia|].
      apply fix_cents. lia.
    + pose proof (ndigits_ge (half_up_coef d) 29 ltac:(lia) Hge).
      destruct (Z.ltb_spec prec (ndigits (half_up_coef d))); [reflexivity|ctx; lia].
Qed.

(** ** Magnitudes of quotients and products *)

Lemma fix_below_gen (d : Decimal.t) (K : Z) :
  below K d -> Etiny < K <= Etop + 27 ->
  exists y, _fix d = Ok y /\ d_sign y = d_sign d /\ below (K + 1) y /\
            (coef d = 0 -> coef y = 0).
Proof.
  intros Hb HK. destruct (Z.eq_dec (coef d) 0) as [Hz|Hz].
  - unfold _fix. apply is_zero_true in Hz. rewrite Hz.
    eexists. split; [reflexivity|]. repeat split. left. reflexivity.
  - pose proof (coef_nonneg d). destruct Hb as [Hb|Hb]; [contradiction|].
    destruct (fix_below d K ltac:(lia) Hb HK) as [y [H1 [H2 H3]]].
    exists y. repeat split; try assumption. intros; contradiction.
Qed.

Lemma ndigits_div10 (c : Z) : 10 <= c -> ndigits (c / 10) + 1 <= ndigits c.
Proof.
  intros Hc. destruct (ndigits_spec c ltac:(lia)) as [Hlo Hhi].
  assert (H2 : 2 <= ndigits c).
  { apply ndigits_ge; [lia|]. exact Hc. }
  enough (ndigits (c / 10) <= ndigits c - 1) by lia.
  apply ndigits_le; [lia|].
  apply Z.div_lt_upper_bound; [lia|].
  replace (ndigits c) with (ndigits c - 1 + 1) in Hhi by lia.
  rewrite pow10_S in Hhi by lia. assumption.
Qed.

Lemma strip_exact_spec (k : nat) :
  forall coeff exp, 0 < coeff ->
    0 < fst (strip_exact k coeff exp) /\
    ndigits (fst (strip_exact k coeff exp)) + snd (strip_exact k coeff exp)
    <= ndigits coeff + exp.
Proof.
  induction k as [|k IH]; intros coeff exp Hc; simpl.
  - split; [assumption|lia].
  - destruct (Z.eqb_spec (coeff mod 10) 0) as [Hm|Hm].
    + pose proof (Z.div_mod coeff 10 ltac:(lia)) as Hdm.
      assert (H10 : 10 <= coeff) by lia.
      assert (Hq : 0 < coeff / 10) by lia.
      destruct (IH (coeff / 10) (exp + 1) Hq) as [H1 H2].
      split; [assumption|]. pose proof (ndigits_div10 coeff H10). lia.
    + simpl. split; [assumption|lia].
Qed.

(** The raw quotient computed by [__truediv__] has 29 or 30 digits. *)
Lemma div_raw_quotient (cx cy : Z) :
  0 < cx -> 0 < cy ->
  let shift := ndigits cy - ndigits cx + prec + 1 in
  forall coeff remainder,
    (coeff, remainder) =
      (if 0 <=? shift
       then (cx * 10 ^ shift / cy, (cx * 10 ^ shift) mod cy)
       else (cx / (cy * 10 ^ (- shift)), cx mod (cy * 10 ^ (- shift)))) ->
    0 < coeff < 10 ^ 30.
Proof.
  intros Zx Zy shift coeff remainder E.
  destruct (ndigits_spec cx Zx) as [Lx Ux].
  destruct (ndigits_spec cy Zy) as [Ly Uy].
  pose proof (ndigits_pos cx) as Px. pose proof (ndigits_pos cy) as Py.
  set (lx := ndigits cx) in *. set (ly := ndigits cy) in *.
  pose proof (pow10_pos (ly - 1) ltac:(lia)) as Ply.
  pose proof (pow10_pos (lx - 1) ltac:(lia)) as Plx.
  assert (Hly : 10 ^ ly = 10 * 10 ^ (ly - 1)).
  { replace ly with (ly - 1 + 1) at 1 by lia. apply pow10_S; lia. }
  assert (Hlx : 10 ^ lx = 10 * 10 ^ (lx - 1)).
  { replace lx with (lx - 1 + 1) at 1 by lia. apply pow10_S; lia. }
  destruct (Z.leb_spec 0 shift) as [Hs|Hs]; inversion E; subst coeff remainder; clear E.
  - pose proof (pow10_pos shift Hs) as Psh.
    assert (Hp10 : 10 ^ (lx - 1) * 10 ^ shift = 10 ^ (ly - 1) * 10 ^ 29).
    { rewrite <- !Z.pow_add_r by lia. f_equal. unfold shift, prec. lia. }
    change (10 ^ 30) with (10 * 10 ^ 29). set (P29 := 10 ^ 29) in *.
    assert (0 < P29) by (unfold P29; apply pow10_pos; lia).
    split.
    + apply Z.div_str_pos. nia.
    + apply Z.div_lt_upper_bound; [lia|]. nia.
  - pose proof (pow10_pos (- shift) ltac:(lia)) as Psh.
    assert (Hp10 : 10 ^ (ly - 1) * 10 ^ (- shift) * 10 ^ 29 = 10 ^ (lx - 1)).
    { rewrite <- !Z.pow_add_r by lia. f_equal. unfold shift, prec. lia. }
    change (10 ^ 30) with (10 * 10 ^ 29). set (P29 := 10 ^ 29) in *.
    assert (1 < P29) by (unfold P29; vm_compute; reflexivity).
    split.
    + apply Z.div_str_pos. nia.
    + apply Z.div_lt_upper_bound; [nia|]. nia.
Qed.

Lemma div_below (x y : Decimal.t) (K : Z) :
  0 < coef y ->
  coef x = 0 \/ ndigits (coef x) + d_exp x - (ndigits (coef y) + d_exp y) + 1 <= K ->
  Etiny < K <= Etop + 27 ->
  exists b, Decimal.div x y = Ok b /\ d_sign b = xorb (d_sign x) (d_sign y) /\
            below (K + 1) b /\ (coef x = 0 -> coef b = 0).
Proof.
  intros Hy Hx HK. unfold Decimal.div.
  pose proof Hy as Zy. apply is_zero_false in Zy. rewrite Zy.
  destruct (is_zero x) eqn:Zx.
  { eexists. split; [reflexivity|]. repeat split. left. reflexivity. }
  apply is_zero_false in Zx. destruct Hx as [Hx|Hx]; [lia|].
  pose proof (div_raw_quotient (coef x) (coef y) Zx Hy) as Hq. cbv zeta in Hq.
  set (shift := ndigits (coef y) - ndigits (coef x) + prec + 1) in *.
  destruct (if 0 <=? shift
            then (coef x * 10 ^ shift / coef y, (coef x * 10 ^ shift) mod coef y)
            else (coef x / (coef y * 10 ^ (- shift)), coef x mod (coef y * 10 ^ (- shift))))
    as [coeff remainder] eqn:E.
  specialize (Hq coeff remainder eq_refl).
  assert (Hfin : forall c e, 0 < c -> ndigits c + e <= 30 + (d_exp x - d_exp y - shift) ->
            exists b, _fix (mkd (xorb (d_sign x) (d_sign y)) c e) = Ok b /\
                      d_sign b = xorb (d_sign x) (d_sign y) /\
                      below (K + 1) b /\ (coef x = 0 -> coef b = 0)).
  { intros c e Hc Hce.
    destruct (fix_below_gen (mkd (xorb (d_sign x) (d_sign y)) c e) K) as [b [H1 [H2 [H3 _]]]].
    - right. rewrite coef_mkd by lia. simpl d_exp. unfold shift, prec in Hce. lia.
    - assumption.
    - exists b. repeat split; try assumption. intros; lia. }
  destruct (Z.eqb_spec remainder 0) as [Hr|Hr]; cbn [negb].
  - pose proof (strip_exact_spec
                  (Z.to_nat (d_exp x - d_exp y - (d_exp x - d_exp y - shift)))
                  coeff (d_exp x - d_exp y - shift) ltac:(lia)) as [S1 S2].
    destruct (strip_exact _ coeff (d_exp x - d_exp y - shift)) as [c' e'].
    simpl in S1, S2. apply Hfin; [assumption|].
    pose proof (ndigits_le coeff 30 ltac:(lia) ltac:(lia)). lia.
  - assert (Hst : 0 < (if coeff mod 5 =? 0 then coeff + 1 else coeff) < 10 ^ 30).
    { destruct (Z.eqb_spec (coeff mod 5) 0) as [H5|H5]; [|lia].
      pose proof (Z.div_mod coeff 5 ltac:(lia)).
      change (10 ^ 30) with (5 * 200000000000000000000000000000) in *. lia. }
    apply Hfin; [lia|].
    pose proof (ndigits_le _ 30 ltac:(lia) (proj2 Hst)). lia.
Qed.

Lemma ndigits_mul (a b : Z) : 0 < a -> 0 < b -> ndigits (a * b) <= ndigits a + ndigits b.
Proof.
  intros Ha Hb.
  destruct (ndigits_spec a Ha) as [_ Ua]. destruct (ndigits_spec b Hb) as [_ Ub].
  pose proof (ndigits_pos a). pose proof (ndigits_pos b).
  apply ndigits_le; [lia|]. rewrite Z.pow_add_r by lia. nia.
Qed.

Lemma mul_below (x y : Decimal.t) (K1 K2 : Z) :
  below K1 x -> below K2 y -> Etiny < K1 + K2 <= Etop + 27 ->
  exists z, Decimal.mul x y = Ok z /\ d_sign z = xorb (d_sign x) (d_sign y) /\
            below (K1 + K2 + 1) z /\ (coef x = 0 \/ coef y = 0 -> coef z = 0).
Proof.
  intros Hx Hy HK. unfold Decimal.mul.
  destruct (is_zero x) eqn:Zx; [|destruct (is_zero y) eqn:Zy]; cbn [orb].
  1,2: eexists; split; [reflexivity|]; repeat split; left; reflexivity.
  apply is_zero_false in Zx, Zy.
  destruct Hx as [Hx|Hx]; [lia|]. destruct Hy as [Hy|Hy]; [lia|].
  destruct (fix_below_gen (mkd (xorb (d_sign x) (d_sign y)) (coef x * coef y)
                               (d_exp x + d_exp y)) (K1 + K2)) as [z [H1 [H2 [H3 _]]]].
  - right. rewrite coef_mkd by nia. simpl d_exp.
    pose proof (ndigits_mul _ _ Zx Zy). lia.
  - assumption.
  - exists z. repeat split; try assumption. intros [H|H]; lia.
Qed.

(** ** Signs *)

Lemma lt_zero (d : Decimal.t) :
  Decimal.lt d (Decimal.of_Z 0) = negb (is_zero d) && d_sign d.
Proof.
  unfold Decimal.lt, _cmp. change (is_zero (Decimal.of_Z 0)) with true.
  destruct (is_zero d); [reflexivity|]. destruct (d_sign d); reflexivity.
Qed.

Lemma nonneg_iff (d : Decimal.t) : nonneg d <-> d_sign d = false \/ coef d = 0.
Proof.
  unfold nonneg. rewrite lt_zero. rewrite <- is_zero_true.
  destruct (is_zero d), (d_sign d); simpl; intuition congruence.
Qed.

Lemma nonneg_cents (d : Decimal.t) : nonneg d -> cents d = coef d * 10 ^ (d_exp d + 2).
Proof.
  intros H. apply nonneg_iff in H. unfold cents, signed.
  destruct H as [H|H]; [rewrite H; reflexivity|].
  rewrite H. destruct (d_sign d); reflexivity.
Qed.

Lemma of_nat_coef (n : nat) : coef (Decimal.of_Z (Z.of_nat n)) = Z.of_nat n.
Proof. unfold coef, Decimal.of_Z; simpl. lia. Qed.

Lemma of_nat_sign (n : nat) : d_sign (Decimal.of_Z (Z.of_nat n)) = false.
Proof. unfold Decimal.of_Z; simpl. apply Z.ltb_ge. lia. Qed.

(** A total below [10^K] with at most two decimal places, in minor units. *)
Lemma below_cents (K : Z) (d : Decimal.t) :
  below K d -> -2 <= d_exp d -> 0 <= K + 2 -> Z.abs (cents d) < 10 ^ (K + 2).
Proof.
  intros Hb He HK. rewrite cents_abs by assumption.
  pose proof (pow10_pos (K + 2) HK). pose proof (pow10_pos (d_exp d + 2) ltac:(lia)).
  destruct Hb as [Hb|Hb]; [rewrite Hb; lia|].
  destruct (Z.eq_dec (coef d) 0) as [Hz|Hz]; [rewrite Hz; lia|].
  pose proof (coef_nonneg d).
  destruct (ndigits_spec (coef d) ltac:(lia)) as [_ Hhi].
  pose proof (ndigits_pos (coef d)).
  pose proof (pow10_le (ndigits (coef d) + (d_exp d + 2)) (K + 2) ltac:(lia)) as Hle.
  rewrite Z.pow_add_r in Hle by lia. nia.
Qed.

Lemma half_up_coef_zero (d : Decimal.t) : coef d = 0 -> half_up_coef d = 0.
Proof.
  intros Hz. unfold half_up_coef. rewrite Hz.
  destruct (Z.leb_spec (-2) (d_exp d)); [lia|].
  rewrite Z.add_0_l. apply Z.div_small.
  replace (-2 - d_exp d) with (-3 - d_exp d + 1) by lia.
  rewrite pow10_S by lia. pose proof (pow10_pos (-3 - d_exp d) ltac:(lia)). lia.
Qed.

Lemma round_money_below (d : Decimal.t) (K : Z) :
  below K d -> nonneg d -> -2 <= K <= 25 ->
  exists r, round_money d = Ok r /\ cents_in (10 ^ (K + 2)) r.
Proof.
  intros Hb Hn HK. rewrite round_money_char.
  pose proof (half_up_coef_upper d K Hb ltac:(lia)) as Hu.
  pose proof (half_up_coef_nonneg d) as Hl.
  pose proof (pow10_lt (K + 2) 28 ltac:(lia)).
  destruct (Z.ltb_spec (half_up_coef d) (10 ^ 28)); [|lia].
  eexists. split; [reflexivity|]. split; [reflexivity|].
  rewrite cents_mkd by assumption.
  apply nonneg_iff in Hn. destruct Hn as [Hs|Hz].
  - rewrite Hs. lia.
  - rewrite (half_up_coef_zero d Hz). destruct (d_sign d); lia.
Qed.

(** ** Sequencing and summing *)

Lemma sequence_repeat {A B : Type} (m : outcome A) (a : A) (l : list B) :
  m = Ok a -> sequence (map (fun _ => m) l) = Ok (repeat a (List.length l)).
Proof.
  intros H. induction l as [|x l IH]; simpl; [reflexivity|].
  rewrite H at 1. simpl. rewrite IH. reflexivity.
Qed.

Lemma sequence_Forall {A B : Type} (f : A -> outcome B) (P : B -> Prop) (l : list A) :
  Forall (fun a => exists b, f a = Ok b /\ P b) l ->
  exists bs, sequence (map f l) = Ok bs /\ Forall P bs /\
             List.length bs = List.length l.
Proof.
  induction 1 as [|a l [b [Hb Pb]] _ [bs [H1 [H2 H3]]]]; simpl.
  - exists []. repeat split; constructor.
  - exists (b :: bs). rewrite Hb. simpl. rewrite H1. simpl.
    repeat split; [constructor; assumption|lia].
Qed.

Lemma cents_in_fits (B : Z) (s : Decimal.t) : cents_in B s -> B < 10 ^ 28 -> fits s.
Proof. intros [He Hc] HB. split; [lia|]. lia. Qed.

Lemma sum_fold (B : Z) (rest : list Decimal.t) :
  forall acc,
    d_exp acc = -2 -> 0 <= cents acc ->
    Forall (cents_in B) rest ->
    cents acc + Z.of_nat (List.length rest) * B < 10 ^ 28 ->
    exists z, fold_left (fun acc y => a <- acc ;; Decimal.add a y) rest (Ok acc) = Ok z /\
              d_exp z = -2 /\ cents z = cents acc + sum_Z (map cents rest).
Proof.
  induction rest as [|y rest IH]; intros acc He Hc Hall Hb.
  - exists acc. simpl. repeat split; [assumption|lia].
  - inversion Hall as [|? ? Hy Hrest]; subst.
    cbn [List.length] in Hb. destruct Hy as [Ey [Cy1 Cy2]].
    assert (HB : 0 <= B) by lia.
    destruct (add_cents acc y) as [z [H1 [H2 H3]]].
    + split; [lia|]. nia.
    + split; [lia|]. nia.
    + lia.
    + nia.
    + destruct (IH z H2 ltac:(lia) Hrest ltac:(nia)) as [w [W1 [W2 W3]]].
      exists w. cbn [fold_left bind]. rewrite H1. repeat split; try assumption.
      simpl. lia.
Qed.

Lemma py_sum_cents (B : Z) (xs : list Decimal.t) :
  Forall (cents_in B) xs -> Z.of_nat (List.length xs) * B < 10 ^ 28 -> xs <> [] ->
  exists z, py_sum xs = Ok z /\ d_exp z = -2 /\ cents z = sum_Z (map cents xs).
Proof.
  intros Hall Hb Hne. destruct xs as [|x rest]; [contradiction|].
  inversion Hall as [|? ? Hx Hrest]; subst. destruct Hx as [Ex [Cx1 Cx2]].
  cbn [List.length] in Hb. unfold py_sum.
  destruct (add_cents x (Decimal.of_Z 0)) as [z [H1 [H2 H3]]].
  - split; [lia|]. nia.
  - split; [simpl; lia|]. vm_compute. reflexivity.
  - rewrite Ex. reflexivity.
  - change (cents (Decimal.of_Z 0)) with 0. nia.
  - change (cents (Decimal.of_Z 0)) with 0 in H3. rewrite H1.
    destruct (sum_fold B rest z H2 ltac:(lia) Hrest ltac:(nia)) as [w [W1 [W2 W3]]].
    exists w. repeat split; try assumption. simpl. lia.
Qed.

Lemma sum_Z_repeat (c : Z) (n : nat) : sum_Z (repeat c n) = Z.of_nat n * c.
Proof. induction n as [|n IH]; [reflexivity|]. cbn [repeat sum_Z fold_right] in *. fold (sum_Z (repeat c n)). lia. Qed.

Lemma map_repeat {A B : Type} (f : A -> B) (a : A) (n : nat) :
  map f (repeat a n) = repeat (f a) n.
Proof. induction n as [|n IH]; simpl; [reflexivity|]. now rewrite IH. Qed.

Lemma Forall_repeat {A : Type} (P : A -> Prop) (a : A) (n : nat) :
  P a -> Forall P (repeat a n).
Proof. intros H. induction n; simpl; constructor; assumption. Qed.

(** ** The residual loop *)

Lemma share_ok_weaken (m m' : Z) (s : Decimal.t) : m' <= m -> share_ok m s -> share_ok m' s.
Proof. intros H [He Hc]. split; [assumption|lia]. Qed.

Lemma nth_map_cents (l : list Decimal.t) (i : nat) :
  nth i (map cents l) 0 = cents (nth i l zero_00).
Proof. change 0 with (cents zero_00) at 1. apply map_nth. Qed.

(** One iteration moves one cent from the residual to the share at [i]. *)
Lemma loop_body_spec (shares : list Decimal.t) (residual : Decimal.t) (i n : nat)
      (sgn m : Z) :
  sgn = 1 \/ sgn = -1 -> 0 <= m -> m + 1 < 10 ^ 28 ->
  Forall (share_ok (m + 1)) shares ->
  (i < List.length shares)%nat -> n = List.length shares ->
  d_exp residual = -2 -> cents residual = sgn * (m + 1) ->
  exists shares' residual',
    loop_body shares residual i n = Ok (shares', residual', ((i + 1) mod n)%nat) /\
    Forall (share_ok m) shares' /\
    List.length shares' = n /\
    map cents shares' = setitem (map cents shares) i (nth i (map cents shares) 0 + sgn) /\
    d_exp residual' = -2 /\ cents residual' = sgn * m.
Proof.
  intros Hsgn Hm Hm28 Hall Hi Hn Er Cr.
  assert (Hs : share_ok (m + 1) (nth i shares zero_00)).
  { apply Forall_nth; assumption. }
  destruct Hs as [Es Cs].
  assert (Fs : fits (nth i shares zero_00)) by (split; lia).
  assert (Fr : fits residual) by (split; [lia|]; rewrite Cr; destruct Hsgn; subst sgn; lia).
  assert (Hmod : py_mod (i + 1) n = Ok ((i + 1) mod n)%nat).
  { unfold py_mod. destruct n; [lia|reflexivity]. }
  unfold loop_body. rewrite gt_zero_00.
  rewrite (getitem_nth shares i zero_00 Hi). cbn [bind].
  destruct Hsgn as [Hsgn|Hsgn]; subst sgn.
  - (* positive residual *)
    assert (Hpos : 0 < cents residual) by lia.
    apply cents_pos_iff in Hpos; [|lia]. destruct Hpos as [Hc Hsg].
    apply is_zero_false in Hc. rewrite Hc, Hsg. cbn [negb andb].
    destruct (add_cents (nth i shares zero_00) cent Fs cent_fits) as [s' [A1 [A2 A3]]].
    { rewrite Es. reflexivity. }
    { rewrite cent_cents. lia. }
    destruct (sub_cents residual cent Fr cent_fits) as [r' [S1 [S2 S3]]].
    { rewrite Er. reflexivity. }
    { rewrite cent_cents. lia. }
    rewrite A1, S1, Hmod. cbn [bind].
    exists (setitem shares i s'), r'. rewrite cent_cents in *.
    split; [reflexivity|]. split; [|split; [|split; [|split]]].
    + apply setitem_Forall.
      * eapply Forall_impl; [|exact Hall]. intros a. apply share_ok_weaken. lia.
      * split; [assumption|lia].
    + rewrite setitem_length. lia.
    + rewrite setitem_map, nth_map_cents. f_equal. lia.
    + assumption.
    + lia.
  - (* negative residual *)
    assert (Hneg : cents residual < 0) by lia.
    assert (Hz : is_zero residual = false).
    { apply is_zero_false. pose proof (cents_zero_iff residual ltac:(lia)).
      pose proof (coef_nonneg residual). lia. }
    assert (Hsg : d_sign residual = true).
    { destruct (d_sign residual) eqn:E; [reflexivity|].
      pose proof (proj2 (cents_pos_iff residual ltac:(lia))
                        (conj (proj1 (is_zero_false _) Hz) E)). lia. }
    rewrite Hz, Hsg. cbn [negb andb].
    destruct (sub_cents (nth i shares zero_00) cent Fs cent_fits) as [s' [A1 [A2 A3]]].
    { rewrite Es. reflexivity. }
    { rewrite cent_cents. lia. }
    destruct (add_cents residual cent Fr cent_fits) as [r' [S1 [S2 S3]]].
    { rewrite Er. reflexivity. }
    { rewrite cent_cents. lia. }
    rewrite A1, S1, Hmod. cbn [bind].
    exists (setitem shares i s'), r'. rewrite cent_cents in *.
    split; [reflexivity|]. split; [|split; [|split; [|split]]].
    + apply setitem_Forall.
      * eapply Forall_impl; [|exact Hall]. intros a. apply share_ok_weaken. lia.
      * split; [assumption|lia].
    + rewrite setitem_length. lia.
    + rewrite setitem_map, nth_map_cents. f_equal. lia.
    + assumption.
    + lia.
Qed.

Lemma mod_lt_length (i n : nat) : (0 < n)%nat -> ((i + 1) mod n < n)%nat.
Proof. intros; apply Nat.mod_upper_bound; lia. Qed.

(** The loop ends after as many iterations as the residual has cents, and
    what it did to the shares is the round-robin distribution. *)
Lemma residual_loop_spec (sgn : Z) (n : nat) :
  sgn = 1 \/ sgn = -1 ->
  forall (m : nat) (shares : list Decimal.t) (residual : Decimal.t) (i : nat),
    Z.of_nat m < 10 ^ 28 ->
    Forall (share_ok (Z.of_nat m)) shares ->
    (i < n)%nat -> n = List.length shares ->
    d_exp residual = -2 -> cents residual = sgn * Z.of_nat m ->
    exists shares',
      residual_loop (S m) shares residual i n = Ok shares' /\
      Forall (fun s => d_exp s = -2) shares' /\
      List.length shares' = n /\
      map cents shares' = distribute m (map cents shares) sgn i n.
Proof.
  intros Hsgn. induction m as [|m IH]; intros shares residual i Hm Hall Hi Hn Er Cr.
  - exists shares. cbn [residual_loop]. rewrite ne_zero_00.
    assert (Hz : is_zero residual = true).
    { apply is_zero_true. apply cents_zero_iff; lia. }
    rewrite Hz. cbn [negb]. split; [reflexivity|]. split; [|split].
    + eapply Forall_impl; [|exact Hall]. intros a [H _]. exact H.
    + lia.
    + reflexivity.
  - cbn [residual_loop]. rewrite ne_zero_00.
    assert (Hz : is_zero residual = false).
    { apply is_zero_false. pose proof (cents_zero_iff residual ltac:(lia)).
      pose proof (coef_nonneg residual). destruct Hsgn; subst sgn; lia. }
    rewrite Hz. cbn [negb].
    replace (Z.of_nat (S m)) with (Z.of_nat m + 1) in * by lia.
    destruct (loop_body_spec shares residual i n sgn (Z.of_nat m))
      as [shares' [residual' [B1 [B2 [B3 [B4 [B5 B6]]]]]]]; try assumption; try lia.
    rewrite B1. cbn [bind].
    destruct (IH shares' residual' ((i + 1) mod n)%nat) as [out [O1 [O2 [O3 O4]]]];
      try assumption; try lia.
    { apply mod_lt_length. lia. }
    exists out. split; [exact O1|]. split; [exact O2|]. split; [exact O3|].
    rewrite O4, B4. reflexivity.
Qed.

(** The residual after [k] iterations: it has moved by exactly [k] cents
    towards zero. *)
Lemma iterate_body_spec (sgn : Z) (n : nat) :
  sgn = 1 \/ sgn = -1 ->
  forall (k m : nat) (shares : list Decimal.t) (residual : Decimal.t) (i : nat),
    (k <= m)%nat -> Z.of_nat m < 10 ^ 28 ->
    Forall (share_ok (Z.of_nat m)) shares ->
    (i < n)%nat -> n = List.length shares ->
    d_exp residual = -2 -> cents residual = sgn * Z.of_nat m ->
    exists shares' residual' i',
      iterate_body k shares residual i n = Ok (shares', residual', i') /\
      d_exp residual' = -2 /\ cents residual' = sgn * (Z.of_nat m - Z.of_nat k).
Proof.
  intros Hsgn. induction k as [|k IH]; intros m shares residual i Hk Hm Hall Hi Hn Er Cr.
  - exists shares, residual, i. cbn [iterate_body]. repeat split; [assumption|]. rewrite Cr. f_equal. lia.
  - destruct m as [|m]; [lia|]. cbn [iterate_body].
    replace (Z.of_nat (S m)) with (Z.of_nat m + 1) in * by lia.
    destruct (loop_body_spec shares residual i n sgn (Z.of_nat m))
      as [shares' [residual' [B1 [B2 [B3 [B4 [B5 B6]]]]]]]; try assumption; try lia.
    rewrite B1. cbn [bind].
    destruct (IH m shares' residual' ((i + 1) mod n)%nat) as [s2 [r2 [i2 [O1 [O2 O3]]]]];
      try assumption; try lia.
    { apply mod_lt_length. lia. }
    exists s2, r2, i2. repeat split; try assumption. rewrite O3. f_equal. lia.
Qed.

(** ** The round-robin distribution on integers *)

Lemma distribute_length (m : nat) :
  forall cs sgn i n, List.length (distribute m cs sgn i n) = List.length cs.
Proof.
  induction m as [|m IH]; intros; simpl; [reflexivity|].
  rewrite IH. apply setitem_length.
Qed.

Lemma sum_Z_setitem (cs : list Z) (i : nat) (v : Z) :
  (i < List.length cs)%nat -> sum_Z (setitem cs i v) = sum_Z cs - nth i cs 0 + v.
Proof.
  revert i. induction cs as [|c cs IH]; intros [|i] H; simpl in *; try lia.
  rewrite IH by lia. lia.
Qed.

Lemma distribute_sum (m : nat) :
  forall cs sgn i n,
    (i < n)%nat -> n = List.length cs ->
    sum_Z (distribute m cs sgn i n) = sum_Z cs + sgn * Z.of_nat m.
Proof.
  induction m as [|m IH]; intros cs sgn i n Hi Hn.
  - simpl. lia.
  - cbn [distribute]. rewrite IH.
    + rewrite sum_Z_setitem by lia. lia.
    + apply mod_lt_length. lia.
    + rewrite setitem_length. assumption.
Qed.

Lemma share_of_succ (k n j : nat) :
  (j < n)%nat ->
  share_of (S k) n j = share_of k n j + (if (j =? k mod n)%nat then 1 else 0).
Proof.
  intros Hj. assert (Hn : n <> O) by lia. unfold share_of.
  pose proof (Nat.div_mod_eq k n) as Hk.
  pose proof (Nat.mod_upper_bound k n Hn) as Hr.
  set (q := (k / n)%nat) in *. set (r := (k mod n)%nat) in *.
  destruct (Nat.eq_dec (S r) n) as [Hw|Hw].
  - (* the index wraps around *)
    assert (Hq : (S k / n = S q)%nat).
    { symmetry. apply (Nat.div_unique (S k) n (S q) 0); lia. }
    assert (Hm : (S k mod n = 0)%nat).
    { symmetry. apply (Nat.mod_unique (S k) n (S q) 0); lia. }
    rewrite Hq, Hm.
    destruct (Nat.ltb_spec j 0); [lia|].
    destruct (Nat.ltb_spec j r); destruct (Nat.eqb_spec j r); lia.
  - assert (Hq : (S k / n = q)%nat).
    { symmetry. apply (Nat.div_unique (S k) n q (S r)); lia. }
    assert (Hm : (S k mod n = S r)%nat).
    { symmetry. apply (Nat.mod_unique (S k) n q (S r)); lia. }
    rewrite Hq, Hm.
    destruct (Nat.ltb_spec j (S r)); destruct (Nat.ltb_spec j r);
      destruct (Nat.eqb_spec j r); lia.
Qed.

Lemma distribute_from (sgn : Z) (n j : nat) :
  (j < n)%nat ->
  forall (r k : nat) (cs : list Z),
    n = List.length cs ->
    nth j (distribute r cs sgn (k mod n) n) 0 =
    nth j cs 0 + sgn * (share_of (k + r) n j - share_of k n j).
Proof.
  intros Hj. induction r as [|r IH]; intros k cs Hn.
  - simpl. rewrite Nat.add_0_r. lia.
  - cbn [distribute].
    replace ((k mod n + 1) mod n)%nat with (S k mod n)%nat.
    2:{ replace (S k) with (k + 1)%nat by lia.
        rewrite <- Nat.Div0.add_mod_idemp_l. reflexivity. }
    rewrite IH by (rewrite setitem_length; assumption).
    replace (S k + r)%nat with (k + S r)%nat by lia.
    rewrite (share_of_succ k n j Hj).
    destruct (Nat.eqb_spec j (k mod n)) as [He|He].
    + subst j. rewrite setitem_nth_same by lia. lia.
    + rewrite setitem_nth_other by lia. lia.
Qed.

(** Started at index 0 the distribution gives participant [j] exactly
    [share_of m n j] units. *)
Lemma distribute_round_robin (sgn : Z) (m n j : nat) (cs : list Z) :
  (j < n)%nat -> n = List.length cs ->
  nth j (distribute m cs sgn 0 n) 0 = nth j cs 0 + sgn * share_of m n j.
Proof.
  intros Hj Hn.
  pose proof (distribute_from sgn n j Hj m 0 cs Hn) as H.
  rewrite Nat.Div0.mod_0_l in H. rewrite H. simpl (0 + m)%nat.
  unfold share_of at 2. rewrite Nat.Div0.div_0_l, Nat.Div0.mod_0_l.
  destruct (Nat.ltb_spec j 0); [lia|]. simpl. lia.
Qed.

(** ** The allocators before the loop *)

Lemma pow10_27_28 : 10 ^ 28 = 10 * 10 ^ 27.
Proof. reflexivity. Qed.

Lemma direction_cents (residual : Decimal.t) :
  -2 <= d_exp residual ->
  (direction residual = 1 \/ direction residual = -1) /\
  cents residual = direction residual * Z.of_nat (steps residual).
Proof.
  intros He. unfold direction, steps. rewrite Zabs2Nat.id_abs.
  unfold cents, signed. pose proof (coef_nonneg residual).
  pose proof (pow10_pos (d_exp residual + 2) ltac:(lia)).
  destruct (d_sign residual); split; try (right; reflexivity); try (left; reflexivity); nia.
Qed.

Lemma even_shares_spec (total : Decimal.t) (n : nat) (K M : Z) :
  valid_total K total -> valid_count M n -> 0 <= K -> 0 <= M -> K + M <= 24 ->
  exists r residual,
    even_shares total n = Ok (repeat r n, residual) /\
    cents_in (10 ^ (K + 3)) r /\
    d_exp residual = -2 /\
    cents residual = cents total - Z.of_nat n * cents r /\
    0 <= cents total < 10 ^ (K + 2) /\
    Z.of_nat n * 10 ^ (K + 3) <= 10 ^ 27.
Proof.
  intros [Hnn Hpl Hbl] [Hn1 HnM] HK HM HKM.
  pose proof (below_cents K total Hbl Hpl ltac:(lia)) as Habs.
  pose proof (nonneg_cents total Hnn) as Hct.
  assert (Hc0 : 0 <= cents total).
  { rewrite Hct. pose proof (coef_nonneg total).
    pose proof (pow10_pos (d_exp total + 2) ltac:(lia)). nia. }
  assert (HnR : Z.of_nat n * 10 ^ (K + 3) <= 10 ^ 27).
  { pose proof (pow10_le (M + (K + 3)) 27 ltac:(lia)) as H.
    rewrite Z.pow_add_r in H by lia.
    pose proof (pow10_pos (K + 3) ltac:(lia)). nia. }
  unfold even_shares.
  (* base = total / Decimal(n) *)
  destruct (div_below total (Decimal.of_Z (Z.of_nat n)) K) as [base [D1 [D2 [D3 D4]]]].
  { rewrite of_nat_coef. lia. }
  { destruct Hbl as [Hz|Hd]; [left; assumption|right].
    rewrite of_nat_coef. simpl (d_exp (Decimal.of_Z _)).
    pose proof (ndigits_pos (Z.of_nat n)). lia. }
  { ctx. lia. }
  rewrite D1. cbn [bind].
  rewrite of_nat_sign, xorb_false_r in D2.
  assert (Hbn : nonneg base).
  { apply nonneg_iff. apply nonneg_iff in Hnn. destruct Hnn as [Hs|Hz].
    - left. congruence.
    - right. auto. }
  (* rounded_shares = [round_money(base) for _ in range(n)] *)
  destruct (round_money_below base (K + 1) D3 Hbn ltac:(lia)) as [r [R1 R2]].
  replace (K + 1 + 2) with (K + 3) in R2 by lia.
  rewrite (sequence_repeat (round_money base) r (seq 0 n) R1), length_seq. cbn [bind].
  pose proof R2 as [Er [Cr0 Cr1]].
  (* sum_rounded = sum(rounded_shares) *)
  destruct (py_sum_cents (10 ^ (K + 3)) (repeat r n)) as [sm [S1 [S2 S3]]].
  { apply Forall_repeat. assumption. }
  { rewrite repeat_length. rewrite pow10_27_28. pose proof (pow10_pos 27 ltac:(lia)). lia. }
  { destruct n; [lia|discriminate]. }
  rewrite S1. cbn [bind].
  rewrite map_repeat, sum_Z_repeat in S3.
  (* residual = total - sum_rounded *)
  pose proof (pow10_le (K + 2) 27 ltac:(lia)) as H27.
  pose proof (pow10_pos 27 ltac:(lia)) as P27.
  assert (Hsm : 0 <= cents sm <= 10 ^ 27) by nia.
  destruct (sub_cents total sm) as [residual [B1 [B2 B3]]].
  { split; [assumption|]. rewrite pow10_27_28. lia. }
  { split; [lia|]. rewrite pow10_27_28. lia. }
  { rewrite S2. lia. }
  { rewrite pow10_27_28. lia. }
  rewrite B1. cbn [bind].
  exists r, residual. split; [reflexivity|].
  repeat split; try assumption; try lia.
Qed.

Lemma percentage_share_spec (total p : Decimal.t) (K : Z) :
  valid_total K total -> valid_percentage p -> 0 <= K <= 22 ->
  exists share,
    (q <- Decimal.div p (Decimal.of_Z 100) ;;
     share <- Decimal.mul q total ;;
     round_money share) = Ok share /\
    cents_in (10 ^ (K + 5)) share.
Proof.
  intros [Hnn Hpl Hbl] [Hpn Hpb] HK.
  destruct (div_below p (Decimal.of_Z 100) 1) as [q [D1 [D2 [D3 D4]]]].
  { vm_compute. reflexivity. }
  { destruct Hpb as [Hz|Hd]; [left; assumption|right].
    change (ndigits (coef (Decimal.of_Z 100))) with 3.
    change (d_exp (Decimal.of_Z 100)) with 0. lia. }
  { ctx. lia. }
  rewrite D1. cbn [bind].
  change (d_sign (Decimal.of_Z 100)) with false in D2. rewrite xorb_false_r in D2.
  destruct (mul_below q total 2 K D3 Hbl) as [z [M1 [M2 [M3 M4]]]].
  { ctx. lia. }
  rewrite M1. cbn [bind].
  assert (Hzn : nonneg z).
  { apply nonneg_iff. apply nonneg_iff in Hnn. apply nonneg_iff in Hpn.
    destruct Hpn as [Hs|Hz]; [|right; auto].
    destruct Hnn as [Ht|Hz]; [|right; auto].
    left. rewrite M2, D2, Hs, Ht. reflexivity. }
  destruct (round_money_below z (2 + K + 1) M3 Hzn ltac:(lia)) as [r [R1 R2]].
  replace (2 + K + 1 + 2) with (K + 5) in R2 by lia.
  exists r. split; assumption.
Qed.

Lemma sum_Z_bound (B : Z) (xs : list Decimal.t) :
  Forall (cents_in B) xs ->
  0 <= sum_Z (map cents xs) <= Z.of_nat (List.length xs) * B.
Proof.
  induction 1 as [|x xs [_ Hx] _ IH]; [simpl; lia|].
  cbn [map sum_Z fold_right List.length]. fold (sum_Z (map cents xs)). lia.
Qed.

Lemma percentage_shares_spec (total : Decimal.t) (percentages : list Decimal.t) (K M : Z) :
  valid_total K total -> Forall valid_percentage percentages ->
  valid_count M (List.length percentages) -> 0 <= K -> 0 <= M -> K + M <= 22 ->
  exists shares residual,
    percentage_shares total percentages = Ok (shares, residual) /\
    Forall (cents_in (10 ^ (K + 5))) shares /\
    List.length shares = List.length percentages /\
    d_exp residual = -2 /\
    cents residual = cents total - sum_Z (map cents shares) /\
    0 <= cents total < 10 ^ (K + 2) /\
    Z.of_nat (List.length percentages) * 10 ^ (K + 5) <= 10 ^ 27.
Proof.
  intros Ht Hps [Hn1 HnM] HK HM HKM.
  pose proof Ht as [Hnn Hpl Hbl].
  pose proof (below_cents K total Hbl Hpl ltac:(lia)) as Habs.
  pose proof (nonneg_cents total Hnn) as Hct.
  assert (Hc0 : 0 <= cents total).
  { rewrite Hct. pose proof (coef_nonneg total).
    pose proof (pow10_pos (d_exp total + 2) ltac:(lia)). nia. }
  assert (HnR : Z.of_nat (List.length percentages) * 10 ^ (K + 5) <= 10 ^ 27).
  { pose proof (pow10_le (M + (K + 5)) 27 ltac:(lia)) as H.
    rewrite Z.pow_add_r in H by lia.
    pose proof (pow10_pos (K + 5) ltac:(lia)). nia. }
  unfold percentage_shares.
  destruct (sequence_Forall
              (fun p => q <- Decimal.div p (Decimal.of_Z 100) ;;
                        share <- Decimal.mul q total ;; round_money share)
              (cents_in (10 ^ (K + 5))) percentages) as [shares [Q1 [Q2 Q3]]].
  { eapply Forall_impl; [|exact Hps]. intros p Hp.
    apply percentage_share_spec; [assumption|assumption|lia]. }
  rewrite Q1. cbn [bind].
  pose proof (pow10_pos 27 ltac:(lia)) as P27.
  destruct (py_sum_cents (10 ^ (K + 5)) shares Q2) as [sm [S1 [S2 S3]]].
  { rewrite Q3, pow10_27_28. lia. }
  { destruct shares; [simpl in Q3; lia|discriminate]. }
  rewrite S1. cbn [bind].
  pose proof (sum_Z_bound _ _ Q2) as Hsb. rewrite Q3 in Hsb.
  pose proof (pow10_le (K + 2) 27 ltac:(lia)) as H27.
  destruct (sub_cents total sm) as [residual [B1 [B2 B3]]].
  { split; [assumption|]. rewrite pow10_27_28. lia. }
  { split; [lia|]. rewrite pow10_27_28. lia. }
  { rewrite S2. lia. }
  { rewrite pow10_27_28. lia. }
  rewrite B1. cbn [bind].
  exists shares, residual. split; [reflexivity|].
  repeat split; try assumption; try lia.
Qed.

(** ** The allocators, for requests the context holds exactly *)

(** What the residual loop does to shares between 0 and [B] cents when the
    residual is at most [10^27] cents in magnitude. *)
Lemma reconcile (B : Z) (n : nat) (shares : list Decimal.t) (residual : Decimal.t) :
  Forall (cents_in B) shares -> B <= 10 ^ 27 ->
  n = List.length shares -> (0 < n)%nat ->
  d_exp residual = -2 -> Z.abs (cents residual) <= 10 ^ 27 ->
  exists out,
    residual_loop (S (steps residual)) shares residual 0 n = Ok out /\
    Forall (fun s => d_exp s = -2) out /\
    List.length out = n /\
    map cents out =
      distribute (steps residual) (map cents shares) (direction residual) 0 n.
Proof.
  intros Hall HB Hn Hn0 Er Hr.
  destruct (direction_cents residual ltac:(lia)) as [Hd Hc].
  pose proof (pow10_pos 27 ltac:(lia)) as P27.
  assert (Hst : Z.of_nat (steps residual) <= 10 ^ 27).
  { unfold steps. rewrite Zabs2Nat.id_abs. assumption. }
  apply (residual_loop_spec (direction residual) n Hd); try assumption; try lia.
  eapply Forall_impl; [|exact Hall]. intros s [Es Cs]. split; [assumption|].
  rewrite pow10_27_28. lia.
Qed.

Lemma split_evenly_spec (total : Decimal.t) (n : nat) (names : option (list string))
      (K M : Z) :
  valid_total K total -> valid_count M n -> 0 <= K -> 0 <= M -> K + M <= 24 ->
  exists r residual out,
    even_shares total n = Ok (repeat r n, residual) /\
    split_evenly (S (steps residual)) total n names =
      Ok (combine (names_or_default names n) out) /\
    cents_in (10 ^ (K + 3)) r /\ d_exp residual = -2 /\
    cents residual = cents total - Z.of_nat n * cents r /\
    Forall (fun s => d_exp s = -2) out /\
    List.length out = n /\
    map cents out =
      distribute (steps residual) (repeat (cents r) n) (direction residual) 0 n /\
    Z.of_nat (steps residual) < 10 ^ 28.
Proof.
  intros Ht Hn HK HM HKM.
  destruct (even_shares_spec total n K M Ht Hn HK HM HKM)
    as [r [residual [E1 [E2 [E3 [E4 [E5 E6]]]]]]].
  pose proof (pow10_pos (K + 3) ltac:(lia)) as PK.
  pose proof (pow10_pos 27 ltac:(lia)) as P27.
  pose proof (pow10_le (K + 2) 27 ltac:(lia)) as H27.
  destruct Hn as [Hn1 HnM]. pose proof E2 as [Er [Cr0 Cr1]].
  assert (Hres : Z.abs (cents residual) <= 10 ^ 27) by nia.
  destruct (reconcile (10 ^ (K + 3)) n (repeat r n) residual) as [out [L1 [L2 [L3 L4]]]];
    try assumption; try lia.
  { apply Forall_repeat. assumption. }
  { rewrite repeat_length. reflexivity. }
  exists r, residual, out. unfold split_evenly. rewrite E1. cbn [bind].
  rewrite L1. cbn [bind]. rewrite map_repeat in L4.
  repeat split; try assumption; try lia.
  unfold steps. rewrite Zabs2Nat.id_abs, pow10_27_28. lia.
Qed.

Lemma split_by_percentage_spec (total : Decimal.t) (percentages : list Decimal.t)
      (names : option (list string)) (K M : Z) :
  valid_total K total -> Forall valid_percentage percentages ->
  valid_count M (List.length percentages) -> 0 <= K -> 0 <= M -> K + M <= 22 ->
  exists shares residual out,
    percentage_shares total percentages = Ok (shares, residual) /\
    split_by_percentage (S (steps residual)) total percentages names =
      Ok (combine (names_or_default names (List.length percentages)) out) /\
    Forall (cents_in (10 ^ (K + 5))) shares /\
    List.length shares = List.length percentages /\
    d_exp residual = -2 /\
    cents residual = cents total - sum_Z (map cents shares) /\
    Forall (fun s => d_exp s = -2) out /\
    List.length out = List.length percentages /\
    map cents out =
      distribute (steps residual) (map cents shares) (direction residual) 0
                 (List.length percentages) /\
    Z.of_nat (steps residual) < 10 ^ 28.
Proof.
  intros Ht Hps Hn HK HM HKM.
  destruct (percentage_shares_spec total percentages K M Ht Hps Hn HK HM HKM)
    as [shares [residual [E1 [E2 [E3 [E4 [E5 [E6 E7]]]]]]]].
  pose proof (pow10_pos (K + 5) ltac:(lia)) as PK.
  pose proof (pow10_pos 27 ltac:(lia)) as P27.
  pose proof (pow10_le (K + 2) 27 ltac:(lia)) as H27.
  destruct Hn as [Hn1 HnM].
  pose proof (sum_Z_bound _ _ E2) as Hsb. rewrite E3 in Hsb.
  assert (Hres : Z.abs (cents residual) <= 10 ^ 27) by lia.
  destruct (reconcile (10 ^ (K + 5)) (List.length percentages) shares residual)
    as [out [L1 [L2 [L3 L4]]]]; try assumption; try lia.
  exists shares, residual, out. unfold split_by_percentage. rewrite E1. cbn [bind].
  rewrite E3, L1. cbn [bind].
  repeat split; try assumption; try lia.
  unfold steps. rewrite Zabs2Nat.id_abs, pow10_27_28. lia.
Qed.

(** ** Values as rational numbers *)

Lemma dval_cents (d : Decimal.t) : -2 <= d_exp d -> (dval d == cents d # 100)%Q.
Proof.
  intros He. unfold dval, pow10Q, cents.
  destruct (Z.leb_spec 0 (d_exp d)) as [H0|H0].
  - unfold Qeq, Qmult, inject_Z. simpl Qnum. simpl Qden.
    rewrite Z.pow_add_r by lia. change (10 ^ 2) with 100.
    change (Z.pos (1 * 1)) with 1. change (Z.pos 100) with 100. lia.
  - assert (Hc : d_exp d = -1 \/ d_exp d = -2) by lia.
    destruct Hc as [Hc|Hc]; rewrite Hc; simpl Z.opp; simpl Z.add.
    + change (10 ^ 1) with 10. unfold Qeq, Qmult, Qinv, inject_Z. simpl. lia.
    + change (10 ^ 2) with 100. change (10 ^ 0) with 1.
      unfold Qeq, Qmult, Qinv, inject_Z. simpl. lia.
Qed.

Lemma sum_Q_cents (l : list Decimal.t) :
  Forall (fun d => -2 <= d_exp d) l ->
  (sum_Q (map dval l) == sum_Z (map cents l) # 100)%Q.
Proof.
  induction 1 as [|d l Hd _ IH]; simpl.
  - reflexivity.
  - rewrite IH, (dval_cents d Hd). fold (sum_Z (map cents l)).
    unfold Qeq, Qplus. simpl. lia.
Qed.

Lemma map_snd_combine {A B : Type} (l1 : list A) (l2 : list B) :
  List.length l1 = List.length l2 -> map snd (combine l1 l2) = l2.
Proof.
  revert l2. induction l1 as [|a l1 IH]; intros [|b l2] H; simpl in *; try lia; try reflexivity.
  f_equal. apply IH. lia.
Qed.

Lemma map_fst_combine {A B : Type} (l1 : list A) (l2 : list B) :
  List.length l1 = List.length l2 -> map fst (combine l1 l2) = l1.
Proof.
  revert l2. induction l1 as [|a l1 IH]; intros [|b l2] H; simpl in *; try lia; try reflexivity.
  f_equal. apply IH. lia.
Qed.

Lemma total_of_combine (names : list string) (out : list Decimal.t) :
  List.length names = List.length out ->
  Forall (fun s => d_exp s = -2) out ->
  (total_of (combine names out) == sum_Z (map cents out) # 100)%Q.
Proof.
  intros Hl Hall. unfold total_of.
  rewrite <- (map_map snd dval), map_snd_combine by assumption.
  apply sum_Q_cents. eapply Forall_impl; [|exact Hall]. intros; simpl in *; lia.
Qed.

Lemma default_names_length (n : nat) : List.length (default_names n) = n.
Proof. unfold default_names. rewrite length_map, length_seq. reflexivity. Qed.

(** [round_money] of a total with at most two decimal places below
    [10^26] is the total itself, in value. *)
Lemma round_money_two_places (total : Decimal.t) :
  -2 <= d_exp total -> Z.abs (cents total) < 10 ^ 28 ->
  exists t, round_money total = Ok t /\ d_exp t = -2 /\ cents t = cents total.
Proof.
  intros He Hc. rewrite round_money_char.
  rewrite cents_abs in Hc by assumption.
  unfold half_up_coef. destruct (Z.leb_spec (-2) (d_exp total)); [|lia].
  destruct (Z.ltb_spec (coef total * 10 ^ (d_exp total + 2)) (10 ^ 28)); [|lia].
  eexists. split; [reflexivity|]. split; [reflexivity|].
  pose proof (coef_nonneg total). pose proof (pow10_pos (d_exp total + 2) ltac:(lia)).
  rewrite cents_mkd by nia. unfold cents, signed. destruct (d_sign total); lia.
Qed.

Lemma sum_Z_distribute_repeat (m n : nat) (c sgn : Z) :
  (0 < n)%nat ->
  sum_Z (distribute m (repeat c n) sgn 0 n) = Z.of_nat n * c + sgn * Z.of_nat m.
Proof.
  intros Hn. rewrite distribute_sum; [|lia|rewrite repeat_length; reflexivity].
  rewrite sum_Z_repeat. reflexivity.
Qed.

(** ** Additions the context does without rounding *)

Lemma scaled_digits (c k : Z) :
  0 < c -> 0 <= k -> c * 10 ^ k < 10 ^ 28 -> ndigits c + k <= 28.
Proof.
  intros Hc Hk H.
  destruct (ndigits_spec c Hc) as [Hlo _].
  pose proof (ndigits_pos c) as Hp.
  assert (H1 : 10 ^ (ndigits c - 1 + k) < 10 ^ 28).
  { rewrite Z.pow_add_r by lia. pose proof (pow10_pos k Hk). nia. }
  apply pow10_lt_inv in H1; lia.
Qed.

Lemma rescale_pad_to (d : Decimal.t) (m : Z) :
  0 < coef d -> m <= d_exp d ->
  _rescale d m ROUND_HALF_EVEN = mkd (d_sign d) (coef d * 10 ^ (d_exp d - m)) m.
Proof.
  intros Hz He. unfold _rescale.
  apply is_zero_false in Hz. rewrite Hz.
  destruct (Z.leb_spec m (d_exp d)); [reflexivity|lia].
Qed.

Lemma normalize_exact (x y : Decimal.t) (m : Z) :
  m = Z.min (d_exp x) (d_exp y) -> 0 < coef x -> 0 < coef y ->
  coef x * 10 ^ (d_exp x - m) < 10 ^ 28 -> coef y * 10 ^ (d_exp y - m) < 10 ^ 28 ->
  _normalize (coef x) (d_exp x) (coef y) (d_exp y) =
  ((coef x * 10 ^ (d_exp x - m), m), (coef y * 10 ^ (d_exp y - m), m)).
Proof.
  intros Hm Zx Zy Cx Cy.
  pose proof (scaled_digits (coef x) (d_exp x - m) Zx ltac:(lia) Cx) as Dx.
  pose proof (scaled_digits (coef y) (d_exp y - m) Zy ltac:(lia) Cy) as Dy.
  pose proof (ndigits_pos (coef x)) as Px. pose proof (ndigits_pos (coef y)) as Py.
  unfold _normalize. ctx.
  destruct (Z.ltb_spec (d_exp x) (d_exp y)) as [Hlt|Hge].
  - assert (Hx2 : m = d_exp x) by lia.
    destruct (Z.ltb_spec (ndigits (coef x) + d_exp x - 1)
                (d_exp y + Z.min (-1) (ndigits (coef y) - 28 - 2))); [lia|].
    rewrite Hx2. rewrite Z.sub_diag. change (10 ^ 0) with 1.
    rewrite Z.mul_1_r. reflexivity.
  - assert (Hy2 : m = d_exp y) by lia.
    destruct (Z.ltb_spec (ndigits (coef y) + d_exp y - 1)
                (d_exp x + Z.min (-1) (ndigits (coef x) - 28 - 2))); [lia|].
    rewrite Hy2. rewrite Z.sub_diag. change (10 ^ 0) with 1.
    rewrite Z.mul_1_r. reflexivity.
Qed.

Lemma signed_mkd (s : bool) (c e : Z) :
  0 <= c -> signed (mkd s c e) = if s then - c else c.
Proof. intros Hc. unfold signed. rewrite coef_mkd by assumption. reflexivity. Qed.

Lemma fix_at (s : bool) (c m : Z) :
  0 <= c < 10 ^ 28 -> Etiny <= m <= Emax - 28 -> _fix (mkd s c m) = Ok (mkd s c m).
Proof.
  intros Hc Hm. apply fix_exact.
  - rewrite coef_mkd; lia.
  - exact Hm.
Qed.

(** Addition is exact when the sum, written at the smaller of the two
    exponents, has at most 28 digits. *)
Lemma add_exact (x y : Decimal.t) (m : Z) :
  m = Z.min (d_exp x) (d_exp y) -> Etiny <= m <= Emax - 28 ->
  coef x * 10 ^ (d_exp x - m) < 10 ^ 28 ->
  coef y * 10 ^ (d_exp y - m) < 10 ^ 28 ->
  Z.abs (scaled m x + scaled m y) < 10 ^ 28 ->
  exists z, Decimal.add x y = Ok z /\ d_exp z = m /\
            signed z = scaled m x + scaled m y.
Proof.
  intros Hm Hr Cx Cy Hsum.
  pose proof (coef_nonneg x) as Nx. pose proof (coef_nonneg y) as Ny.
  pose proof (pow10_pos (d_exp x - m) ltac:(lia)) as Px.
  pose proof (pow10_pos (d_exp y - m) ltac:(lia)) as Py.
  unfold Decimal.add. rewrite <- Hm.
  destruct (is_zero x) eqn:Zx; destruct (is_zero y) eqn:Zy; cbn [andb].
  - apply is_zero_true in Zx, Zy.
    exists (Decimal.mk (d_sign x && d_sign y) 0 m). split; [|split].
    + unfold _fix, is_zero, coef. cbn [d_int d_exp d_sign]. cbn [Z.of_N Z.eqb].
      do 2 f_equal. ctx. lia.
    + reflexivity.
    + unfold scaled, signed. rewrite Zx, Zy. unfold coef. cbn [d_int Z.of_N].
      destruct (d_sign x && d_sign y), (d_sign x), (d_sign y); reflexivity.
  - apply is_zero_true in Zx. apply is_zero_false in Zy.
    pose proof (scaled_digits (coef y) (d_exp y - m) Zy ltac:(lia) Cy) as Dy.
    pose proof (ndigits_pos (coef y)).
    ctx. replace (Z.max m (d_exp y - 28 - 1)) with m by lia.
    rewrite rescale_pad_to by (assumption || lia).
    exists (mkd (d_sign y) (coef y * 10 ^ (d_exp y - m)) m). split; [|split].
    + apply fix_at; [nia|ctx; lia].
    + reflexivity.
    + rewrite signed_mkd by nia. unfold scaled, signed. rewrite Zx.
      destruct (d_sign y), (d_sign x); lia.
  - apply is_zero_true in Zy. apply is_zero_false in Zx.
    pose proof (scaled_digits (coef x) (d_exp x - m) Zx ltac:(lia) Cx) as Dx.
    pose proof (ndigits_pos (coef x)).
    ctx. replace (Z.max m (d_exp x - 28 - 1)) with m by lia.
    rewrite rescale_pad_to by (assumption || lia).
    exists (mkd (d_sign x) (coef x * 10 ^ (d_exp x - m)) m). split; [|split].
    + apply fix_at; [nia|ctx; lia].
    + reflexivity.
    + rewrite signed_mkd by nia. unfold scaled, signed. rewrite Zy.
      destruct (d_sign y), (d_sign x); lia.
  - apply is_zero_false in Zx, Zy.
    rewrite (normalize_exact x y m) by assumption.
    set (C1 := coef x * 10 ^ (d_exp x - m)) in *.
    set (C2 := coef y * 10 ^ (d_exp y - m)) in *.
    assert (HC1 : 0 < C1) by (subst C1; nia).
    assert (HC2 : 0 < C2) by (subst C2; nia).
    assert (Hcx : scaled m x = if d_sign x then - C1 else C1).
    { unfold scaled, signed, C1. destruct (d_sign x); lia. }
    assert (Hcy : scaled m y = if d_sign y then - C2 else C2).
    { unfold scaled, signed, C2. destruct (d_sign y); lia. }
    rewrite Hcx, Hcy in *.
    destruct (Bool.eqb (d_sign x) (d_sign y)) eqn:Hs.
    + apply Bool.eqb_prop in Hs. rewrite <- Hs in *.
      exists (mkd (d_sign x) (C1 + C2) m). split; [|split].
      * apply fix_at; [destruct (d_sign x); lia|assumption].
      * reflexivity.
      * rewrite signed_mkd by lia. destruct (d_sign x); lia.
    + apply Bool.eqb_false_iff in Hs.
      destruct (Z.eqb_spec C1 C2) as [He|Hne].
      * exists (Decimal.mk false 0 m). split; [|split].
        -- unfold _fix, is_zero, coef. cbn [d_int d_exp d_sign]. cbn [Z.of_N Z.eqb].
           do 2 f_equal. ctx. lia.
        -- reflexivity.
        -- unfold signed, coef; cbn [d_int d_sign Z.of_N].
           destruct (d_sign x), (d_sign y); try congruence; lia.
      * destruct (Z.ltb_spec C1 C2).
        -- exists (mkd (d_sign y) (C2 - C1) m). split; [|split].
           ++ apply fix_at; [lia|assumption].
           ++ reflexivity.
           ++ rewrite signed_mkd by lia.
              destruct (d_sign x), (d_sign y); try congruence; lia.
        -- exists (mkd (d_sign x) (C1 - C2) m). split; [|split].
           ++ apply fix_at; [lia|assumption].
           ++ reflexivity.
           ++ rewrite signed_mkd by lia.
              destruct (d_sign x), (d_sign y); try congruence; lia.
Qed.

(** Numbers of at most two decimal places and fewer than [10^29] minor
    units are brought to one exponent as they are. *)
Lemma normalize_wide (x y : Decimal.t) (m : Z) :
  m = Z.min (d_exp x) (d_exp y) -> 0 < coef x -> 0 < coef y ->
  -2 <= d_exp x -> -2 <= d_exp y ->
  Z.abs (cents x) < 10 ^ 29 -> Z.abs (cents y) < 10 ^ 29 ->
  _normalize (coef x) (d_exp x) (coef y) (d_exp y) =
  ((coef x * 10 ^ (d_exp x - m), m), (coef y * 10 ^ (d_exp y - m), m)).
Proof.
  intros Hm Zx Zy Ex Ey Cx Cy.
  rewrite cents_abs in Cx, Cy by assumption.
  assert (Dx : ndigits (coef x) + d_exp x <= 27).
  { destruct (ndigits_spec (coef x) Zx) as [Hlo _]. pose proof (ndigits_pos (coef x)) as Hp.
    assert (Hd : 10 ^ (ndigits (coef x) - 1 + (d_exp x + 2)) < 10 ^ 29).
    { rewrite Z.pow_add_r by lia. pose proof (pow10_pos (d_exp x + 2) ltac:(lia)). nia. }
    apply pow10_lt_inv in Hd; lia. }
  assert (Dy : ndigits (coef y) + d_exp y <= 27).
  { destruct (ndigits_spec (coef y) Zy) as [Hlo _]. pose proof (ndigits_pos (coef y)) as Hp.
    assert (Hd : 10 ^ (ndigits (coef y) - 1 + (d_exp y + 2)) < 10 ^ 29).
    { rewrite Z.pow_add_r by lia. pose proof (pow10_pos (d_exp y + 2) ltac:(lia)). nia. }
    apply pow10_lt_inv in Hd; lia. }
  pose proof (ndigits_pos (coef x)) as Px. pose proof (ndigits_pos (coef y)) as Py.
  unfold _normalize. ctx.
  destruct (Z.ltb_spec (d_exp x) (d_exp y)) as [Hlt|Hge].
  - assert (Hx2 : m = d_exp x) by lia.
    destruct (Z.ltb_spec (ndigits (coef x) + d_exp x - 1)
                (d_exp y + Z.min (-1) (ndigits (coef y) - 28 - 2))); [lia|].
    rewrite Hx2. rewrite Z.sub_diag. change (10 ^ 0) with 1.
    rewrite Z.mul_1_r. reflexivity.
  - assert (Hy2 : m = d_exp y) by lia.
    destruct (Z.ltb_spec (ndigits (coef y) + d_exp y - 1)
                (d_exp x + Z.min (-1) (ndigits (coef x) - 28 - 2))); [lia|].
    rewrite Hy2. rewrite Z.sub_diag. change (10 ^ 0) with 1.
    rewrite Z.mul_1_r. reflexivity.
Qed.

Lemma cents_scaled (m : Z) (d : Decimal.t) :
  -2 <= m -> m <= d_exp d -> cents d = scaled m d * 10 ^ (m + 2).
Proof.
  intros H1 H2. unfold cents, scaled.
  replace (d_exp d + 2) with ((d_exp d - m) + (m + 2)) by lia.
  rewrite Z.pow_add_r by lia. ring.
Qed.

(** Addition is exact on numbers of at most two decimal places as long as
    the sum has fewer than [10^28] minor units, even when an operand has
    more, its last digits being zeros. *)
Lemma add_wide (x y : Decimal.t) :
  -2 <= d_exp x -> -2 <= d_exp y ->
  Z.abs (cents x) < 10 ^ 29 -> Z.abs (cents y) < 10 ^ 29 ->
  Z.abs (cents x + cents y) < 10 ^ 28 ->
  exists z, Decimal.add x y = Ok z /\ -2 <= d_exp z /\ cents z = cents x + cents y.
Proof.
  intros Ex Ey Bx By Hsum.
  set (m := Z.min (d_exp x) (d_exp y)).
  assert (Hm : -2 <= m) by (unfold m; lia).
  assert (Hmx : m <= d_exp x) by (unfold m; lia).
  assert (Hmy : m <= d_exp y) by (unfold m; lia).
  pose proof (coef_nonneg x) as Nx. pose proof (coef_nonneg y) as Ny.
  pose proof (pow10_pos (d_exp x - m) ltac:(lia)) as Px.
  pose proof (pow10_pos (d_exp y - m) ltac:(lia)) as Py.
  pose proof (pow10_pos (m + 2) ltac:(lia)) as Pm.
  pose proof (cents_scaled m x Hm Hmx) as Sx.
  pose proof (cents_scaled m y Hm Hmy) as Sy.
  assert (Hss : Z.abs (scaled m x + scaled m y) < 10 ^ 28).
  { rewrite Sx, Sy in Hsum.
    replace (scaled m x * 10 ^ (m + 2) + scaled m y * 10 ^ (m + 2))
      with ((scaled m x + scaled m y) * 10 ^ (m + 2)) in Hsum by ring.
    rewrite Z.abs_mul in Hsum. rewrite (Z.abs_eq (10 ^ (m + 2))) in Hsum by lia. nia. }
  assert (Hcz : forall z, d_exp z = m -> signed z = scaled m x + scaled m y ->
                          cents z = cents x + cents y).
  { intros z E1 E2. unfold cents at 1. rewrite E1, E2, Sx, Sy. ring. }
  assert (Hmr : 0 < coef x \/ 0 < coef y -> m <= 26).
  { intros Hnz. destruct (Z_le_gt_dec m 26) as [|Hgt]; [assumption|exfalso].
    destruct Hnz as [Zx|Zy].
    - rewrite cents_abs in Bx by assumption.
      pose proof (pow10_le 29 (d_exp x + 2) ltac:(lia)). nia.
    - rewrite cents_abs in By by assumption.
      pose proof (pow10_le 29 (d_exp y + 2) ltac:(lia)). nia. }
  unfold Decimal.add. fold m.
  destruct (is_zero x) eqn:Zx; destruct (is_zero y) eqn:Zy; cbn [andb].
  - apply is_zero_true in Zx, Zy.
    exists (Decimal.mk (d_sign x && d_sign y) 0 (Z.min (Z.max m Etiny) Emax)).
    split; [reflexivity|]. split; [cbn [d_exp]; ctx; lia|].
    unfold cents, signed. rewrite Zx, Zy. unfold coef. cbn [d_int Z.of_N].
    destruct (d_sign x && d_sign y), (d_sign x), (d_sign y); reflexivity.
  - apply is_zero_true in Zx. apply is_zero_false in Zy.
    specialize (Hmr (or_intror Zy)).
    assert (Cy : coef y * 10 ^ (d_exp y - m) < 10 ^ 28).
    { unfold scaled, signed in Hss. rewrite Zx in Hss.
      destruct (d_sign x), (d_sign y); nia. }
    pose proof (scaled_digits (coef y) (d_exp y - m) Zy ltac:(lia) Cy) as Dy.
    pose proof (ndigits_pos (coef y)).
    ctx. replace (Z.max m (d_exp y - 28 - 1)) with m by lia.
    rewrite rescale_pad_to by (assumption || lia).
    exists (mkd (d_sign y) (coef y * 10 ^ (d_exp y - m)) m). split; [|split].
    + apply fix_at; [nia|ctx; lia].
    + exact Hm.
    + apply Hcz; [reflexivity|].
      rewrite signed_mkd by nia. unfold scaled, signed. rewrite Zx.
      destruct (d_sign y), (d_sign x); lia.
  - apply is_zero_true in Zy. apply is_zero_false in Zx.
    specialize (Hmr (or_introl Zx)).
    assert (Cx : coef x * 10 ^ (d_exp x - m) < 10 ^ 28).
    { unfold scaled, signed in Hss. rewrite Zy in Hss.
      destruct (d_sign x), (d_sign y); nia. }
    pose proof (scaled_digits (coef x) (d_exp x - m) Zx ltac:(lia) Cx) as Dx.
    pose proof (ndigits_pos (coef x)).
    ctx. replace (Z.max m (d_exp x - 28 - 1)) with m by lia.
    rewrite rescale_pad_to by (assumption || lia).
    exists (mkd (d_sign x) (coef x * 10 ^ (d_exp x - m)) m). split; [|split].
    + apply fix_at; [nia|ctx; lia].
    + exact Hm.
    + apply Hcz; [reflexivity|].
      rewrite signed_mkd by nia. unfold scaled, signed. rewrite Zy.
      destruct (d_sign y), (d_sign x); lia.
  - apply is_zero_false in Zx, Zy.
    specialize (Hmr (or_introl Zx)).
    rewrite (normalize_wide x y m) by (assumption || reflexivity).
    set (C1 := coef x * 10 ^ (d_exp x - m)) in *.
    set (C2 := coef y * 10 ^ (d_exp y - m)) in *.
    assert (HC1 : 0 < C1) by (subst C1; nia).
    assert (HC2 : 0 < C2) by (subst C2; nia).
    assert (Hcx : scaled m x = if d_sign x then - C1 else C1).
    { unfold scaled, signed, C1. destruct (d_sign x); lia. }
    assert (Hcy : scaled m y = if d_sign y then - C2 else C2).
    { unfold scaled, signed, C2. destruct (d_sign y); lia. }
    rewrite Hcx, Hcy in Hss.
    destruct (Bool.eqb (d_sign x) (d_sign y)) eqn:Hs.
    + apply Bool.eqb_prop in Hs.
      exists (mkd (d_sign x) (C1 + C2) m). split; [|split].
      * apply fix_at; [rewrite <- Hs in Hss; destruct (d_sign x); lia|ctx; lia].
      * exact Hm.
      * apply Hcz; [reflexivity|]. rewrite signed_mkd by lia. rewrite Hcx, Hcy, <- Hs.
        destruct (d_sign x); lia.
    + apply Bool.eqb_false_iff in Hs.
      destruct (Z.eqb_spec C1 C2) as [He|Hne].
      * exists (Decimal.mk false 0 m). split; [|split].
        -- unfold _fix, is_zero, coef. cbn [d_int d_exp d_sign]. cbn [Z.of_N Z.eqb].
           do 2 f_equal. ctx. lia.
        -- exact Hm.
        -- apply Hcz; [reflexivity|]. rewrite Hcx, Hcy.
           unfold signed, coef; cbn [d_int d_sign Z.of_N].
           destruct (d_sign x), (d_sign y); try congruence; lia.
      * destruct (Z.ltb_spec C1 C2).
        -- exists (mkd (d_sign y) (C2 - C1) m). split; [|split].
           ++ apply fix_at; [destruct (d_sign x), (d_sign y); try congruence; lia|ctx; lia].
           ++ exact Hm.
           ++ apply Hcz; [reflexivity|]. rewrite signed_mkd by lia. rewrite Hcx, Hcy.
              destruct (d_sign x), (d_sign y); try congruence; lia.
        -- exists (mkd (d_sign x) (C1 - C2) m). split; [|split].
           ++ apply fix_at; [destruct (d_sign x), (d_sign y); try congruence; lia|ctx; lia].
           ++ exact Hm.
           ++ apply Hcz; [reflexivity|]. rewrite signed_mkd by lia. rewrite Hcx, Hcy.
              destruct (d_sign x), (d_sign y); try congruence; lia.
Qed.

Lemma sub_wide (x y : Decimal.t) :
  -2 <= d_exp x -> -2 <= d_exp y ->
  Z.abs (cents x) < 10 ^ 29 -> Z.abs (cents y) < 10 ^ 29 ->
  Z.abs (cents x - cents y) < 10 ^ 28 ->
  exists z, Decimal.sub x y = Ok z /\ -2 <= d_exp z /\ cents z = cents x - cents y.
Proof.
  intros Ex Ey Bx By Hs. unfold Decimal.sub.
  destruct (add_wide x (copy_negate y)) as [z [H1 [H2 H3]]]; try assumption.
  - rewrite copy_negate_cents. lia.
  - rewrite copy_negate_cents. replace (cents x + - cents y) with (cents x - cents y) by lia.
    assumption.
  - exists z. rewrite copy_negate_cents in H3. split; [exact H1|]. split; [exact H2|lia].
Qed.

(** ** Sums keep two decimal places *)

Lemma fix_places (d y : Decimal.t) : _fix d = Ok y -> -2 <= d_exp d -> -2 <= d_exp y.
Proof.
  intros H He. unfold _fix in H. ctx.
  destruct (is_zero d).
  - inversion H. cbn [d_exp]. lia.
  - destruct (Z.ltb_spec (999999 - 28 + 1) (ndigits (coef d) + d_exp d - 28));
      [discriminate H|].
    set (exp_min := if ndigits (coef d) + d_exp d - 28 <? -999999 - 28 + 1
                    then -999999 - 28 + 1 else ndigits (coef d) + d_exp d - 28) in *.
    destruct (Z.ltb_spec (d_exp d) exp_min) as [Hlt|Hge]; [|inversion H; subst; exact He].
    destruct (if ndigits (coef d) + d_exp d - exp_min <? 0 then (1, 0)
              else (coef d, ndigits (coef d) + d_exp d - exp_min)) as [c digits].
    destruct (0 <? _round_half_even c digits).
    + destruct (28 <? ndigits (kept c digits + 1)).
      * destruct (999999 - 28 + 1 <? exp_min + 1); [discriminate H|].
        inversion H. cbn [d_exp mkd]. lia.
      * destruct (999999 - 28 + 1 <? exp_min); [discriminate H|].
        inversion H. cbn [d_exp mkd]. lia.
    + destruct (999999 - 28 + 1 <? exp_min); [discriminate H|].
      inversion H. cbn [d_exp mkd]. lia.
Qed.

Lemma rescale_exp (d : Decimal.t) (e : Z) (r : rounding) : d_exp (_rescale d e r) = e.
Proof.
  unfold _rescale. destruct (is_zero d); [reflexivity|].
  destruct (e <=? d_exp d); [reflexivity|].
  destruct (if ndigits (coef d) + d_exp d - e <? 0 then (1, 0)
            else (coef d, ndigits (coef d) + d_exp d - e)) as [c digits].
  reflexivity.
Qed.

Lemma normalize_places (c1 e1 c2 e2 : Z) :
  -2 <= e1 -> -2 <= e2 -> 1 <= ndigits c1 -> 1 <= ndigits c2 ->
  -2 <= snd (fst (_normalize c1 e1 c2 e2)).
Proof.
  intros H1 H2 D1 D2. unfold _normalize.
  destruct (e1 <? e2).
  - destruct (Z.ltb_spec (ndigits c1 + e1 - 1) (e2 + Z.min (-1) (ndigits c2 - prec - 2)));
      cbn [fst snd]; lia.
  - destruct (Z.ltb_spec (ndigits c2 + e2 - 1) (e1 + Z.min (-1) (ndigits c1 - prec - 2)));
      cbn [fst snd]; lia.
Qed.

Lemma add_places (x y z : Decimal.t) :
  Decimal.add x y = Ok z -> -2 <= d_exp x -> -2 <= d_exp y -> -2 <= d_exp z.
Proof.
  intros H Ex Ey. unfold Decimal.add in H.
  destruct (is_zero x && is_zero y).
  - apply fix_places in H; [exact H|cbn [d_exp]; lia].
  - destruct (is_zero x).
    + apply fix_places in H; [exact H|rewrite rescale_exp; lia].
    + destruct (is_zero y).
      * apply fix_places in H; [exact H|rewrite rescale_exp; lia].
      * pose proof (normalize_places (coef x) (d_exp x) (coef y) (d_exp y) Ex Ey
                      (ndigits_pos _) (ndigits_pos _)) as Hn.
        destruct (_normalize (coef x) (d_exp x) (coef y) (d_exp y)) as [[c1 e1] [c2 e2]].
        cbn [fst snd] in Hn.
        destruct (Bool.eqb (d_sign x) (d_sign y)).
        -- apply fix_places in H; [exact H|exact Hn].
        -- destruct (c1 =? c2).
           ++ apply fix_places in H; [exact H|cbn [d_exp]; lia].
           ++ destruct (c1 <? c2); apply fix_places in H; try exact H; exact Hn.
Qed.

Lemma sum_fold_places (rest : list Decimal.t) :
  forall (acc : outcome Decimal.t) (s : Decimal.t),
    (forall a, acc = Ok a -> -2 <= d_exp a) ->
    Forall (fun x => -2 <= d_exp x) rest ->
    fold_left (fun acc0 y => a <- acc0 ;; Decimal.add a y) rest acc = Ok s ->
    -2 <= d_exp s.
Proof.
  induction rest as [|y rest IH]; intros acc s Ha Hall H.
  - apply Ha. exact H.
  - inversion Hall as [|y' rest' Ey Hrest]; subst. cbn [fold_left] in H.
    apply (IH _ s) in H; [exact H| |exact Hrest].
    intros a Ea. destruct acc as [a0| |]; cbn [bind] in Ea; try discriminate Ea.
    apply (add_places a0 y a Ea); [apply Ha; reflexivity|exact Ey].
Qed.

(** [sum] of numbers with at most two decimal places has at most two. *)
Lemma py_sum_places (xs : list Decimal.t) (s : Decimal.t) :
  Forall (fun x => -2 <= d_exp x) xs -> py_sum xs = Ok s -> -2 <= d_exp s.
Proof.
  intros Hall H. destruct xs as [|x rest].
  - inversion H. cbn. lia.
  - inversion Hall as [|x' rest' Ex Hrest]; subst. unfold py_sum in H.
    apply (sum_fold_places rest _ s) in H; [exact H| |exact Hrest].
    intros a Ea. apply (add_places x (Decimal.of_Z 0) a Ea); [exact Ex|cbn; lia].
Qed.

(** ** The loop on amounts of up to 28 digits *)

Lemma run_in_range_now (m : nat) (cs : list Z) (sgn : Z) (i n : nat) :
  run_in_range m cs sgn i n -> Forall (fun c => Z.abs c < 10 ^ 28) cs.
Proof. destruct m; intros [H _]; exact H. Qed.

(** One iteration, when the share at [i] stays below [10^28] units. *)
Lemma loop_body_tight (shares : list Decimal.t) (residual : Decimal.t) (i n : nat)
      (sgn m : Z) :
  sgn = 1 \/ sgn = -1 -> 0 <= m -> m + 1 < 10 ^ 28 ->
  Forall (fun s => d_exp s = -2) shares ->
  Z.abs (cents (nth i shares zero_00)) < 10 ^ 28 ->
  Z.abs (cents (nth i shares zero_00) + sgn) < 10 ^ 28 ->
  (i < List.length shares)%nat -> n = List.length shares ->
  -2 <= d_exp residual -> cents residual = sgn * (m + 1) ->
  exists shares' residual',
    loop_body shares residual i n = Ok (shares', residual', ((i + 1) mod n)%nat) /\
    Forall (fun s => d_exp s = -2) shares' /\
    List.length shares' = n /\
    map cents shares' = setitem (map cents shares) i (nth i (map cents shares) 0 + sgn) /\
    d_exp residual' = -2 /\ cents residual' = sgn * m.
Proof.
  intros Hsgn Hm Hm28 Hall Cs Cs' Hi Hn Er Cr.
  assert (Es : d_exp (nth i shares zero_00) = -2).
  { apply Forall_nth; assumption. }
  assert (Fs : fits (nth i shares zero_00)) by (split; lia).
  assert (Fr : fits residual) by (split; [lia|]; rewrite Cr; destruct Hsgn; subst sgn; lia).
  assert (Hmod : py_mod (i + 1) n = Ok ((i + 1) mod n)%nat).
  { unfold py_mod. destruct n; [lia|reflexivity]. }
  unfold loop_body. rewrite gt_zero_00.
  rewrite (getitem_nth shares i zero_00 Hi). cbn [bind].
  destruct Hsgn as [Hsgn|Hsgn]; subst sgn.
  - assert (Hpos : 0 < cents residual) by lia.
    apply cents_pos_iff in Hpos; [|lia]. destruct Hpos as [Hc Hsg].
    apply is_zero_false in Hc. rewrite Hc, Hsg. cbn [negb andb].
    destruct (add_cents (nth i shares zero_00) cent Fs cent_fits) as [s' [A1 [A2 A3]]].
    { rewrite Es. reflexivity. }
    { rewrite cent_cents. lia. }
    destruct (sub_cents residual cent Fr cent_fits) as [r' [S1 [S2 S3]]].
    { change (d_exp cent) with (-2). lia. }
    { rewrite cent_cents. lia. }
    rewrite A1, S1, Hmod. cbn [bind].
    exists (setitem shares i s'), r'. rewrite cent_cents in *.
    split; [reflexivity|]. split; [|split; [|split; [|split]]].
    + apply setitem_Forall; assumption.
    + rewrite setitem_length. lia.
    + rewrite setitem_map, nth_map_cents. f_equal. lia.
    + assumption.
    + lia.
  - assert (Hneg : cents residual < 0) by lia.
    assert (Hz : is_zero residual = false).
    { apply is_zero_false. pose proof (cents_zero_iff residual ltac:(lia)).
      pose proof (coef_nonneg residual). lia. }
    assert (Hsg : d_sign residual = true).
    { destruct (d_sign residual) eqn:E; [reflexivity|].
      pose proof (proj2 (cents_pos_iff residual ltac:(lia))
                        (conj (proj1 (is_zero_false _) Hz) E)). lia. }
    rewrite Hz, Hsg. cbn [negb andb].
    destruct (sub_cents (nth i shares zero_00) cent Fs cent_fits) as [s' [A1 [A2 A3]]].
    { rewrite Es. reflexivity. }
    { rewrite cent_cents. lia. }
    destruct (add_cents residual cent Fr cent_fits) as [r' [S1 [S2 S3]]].
    { change (d_exp cent) with (-2). lia. }
    { rewrite cent_cents. lia. }
    rewrite A1, S1, Hmod. cbn [bind].
    exists (setitem shares i s'), r'. rewrite cent_cents in *.
    split; [reflexivity|]. split; [|split; [|split; [|split]]].
    + apply setitem_Forall; assumption.
    + rewrite setitem_length. lia.
    + rewrite setitem_map, nth_map_cents. f_equal. lia.
    + assumption.
    + lia.
Qed.

Lemma in_range_nth (cs : list Z) (i : nat) :
  Forall (fun c => Z.abs c < 10 ^ 28) cs -> (i < List.length cs)%nat ->
  Z.abs (nth i cs 0) < 10 ^ 28.
Proof. intros H Hi. apply (Forall_nth (fun c => Z.abs c < 10 ^ 28)); assumption. Qed.

(** The facts about the share at [i] one iteration needs. *)
Lemma run_in_range_step (m : nat) (shares : list Decimal.t) (sgn : Z) (i n : nat) :
  run_in_range (S m) (map cents shares) sgn i n ->
  (i < List.length shares)%nat ->
  Z.abs (cents (nth i shares zero_00)) < 10 ^ 28 /\
  Z.abs (cents (nth i shares zero_00) + sgn) < 10 ^ 28.
Proof.
  intros [Hnow Hnext] Hi. apply run_in_range_now in Hnext. split.
  - rewrite <- nth_map_cents. apply in_range_nth; [exact Hnow|rewrite length_map; exact Hi].
  - rewrite <- nth_map_cents.
    pose proof (in_range_nth _ i Hnext) as H.
    rewrite setitem_length, length_map in H. specialize (H Hi).
    rewrite setitem_nth_same in H by (rewrite length_map; exact Hi). exact H.
Qed.

Lemma residual_loop_tight (sgn : Z) (n : nat) :
  sgn = 1 \/ sgn = -1 ->
  forall (m : nat) (shares : list Decimal.t) (residual : Decimal.t) (i : nat),
    Z.of_nat m < 10 ^ 28 ->
    Forall (fun s => d_exp s = -2) shares ->
    run_in_range m (map cents shares) sgn i n ->
    (i < n)%nat -> n = List.length shares ->
    -2 <= d_exp residual -> cents residual = sgn * Z.of_nat m ->
    exists shares',
      residual_loop (S m) shares residual i n = Ok shares' /\
      Forall (fun s => d_exp s = -2) shares' /\
      List.length shares' = n /\
      map cents shares' = distribute m (map cents shares) sgn i n.
Proof.
  intros Hsgn. induction m as [|m IH]; intros shares residual i Hm Hall Hrun Hi Hn Er Cr.
  - exists shares. cbn [residual_loop]. rewrite ne_zero_00.
    assert (Hz : is_zero residual = true).
    { apply is_zero_true. apply cents_zero_iff; lia. }
    rewrite Hz. cbn [negb]. split; [reflexivity|]. split; [exact Hall|]. split; [lia|reflexivity].
  - cbn [residual_loop]. rewrite ne_zero_00.
    assert (Hz : is_zero residual = false).
    { apply is_zero_false. pose proof (cents_zero_iff residual ltac:(lia)).
      pose proof (coef_nonneg residual). destruct Hsgn; subst sgn; lia. }
    rewrite Hz. cbn [negb].
    destruct (run_in_range_step m shares sgn i n Hrun ltac:(lia)) as [C1 C2].
    replace (Z.of_nat (S m)) with (Z.of_nat m + 1) in * by lia.
    destruct (loop_body_tight shares residual i n sgn (Z.of_nat m))
      as [shares' [residual' [B1 [B2 [B3 [B4 [B5 B6]]]]]]]; try assumption; try lia.
    rewrite B1. cbn [bind].
    destruct (IH shares' residual' ((i + 1) mod n)%nat) as [out [O1 [O2 [O3 O4]]]];
      try assumption; try lia.
    { rewrite B4. destruct Hrun as [_ Hnext]. exact Hnext. }
    { apply mod_lt_length. lia. }
    exists out. split; [exact O1|]. split; [exact O2|]. split; [exact O3|].
    rewrite O4, B4. reflexivity.
Qed.

Lemma iterate_body_tight (sgn : Z) (n : nat) :
  sgn = 1 \/ sgn = -1 ->
  forall (k m : nat) (shares : list Decimal.t) (residual : Decimal.t) (i : nat),
    (k <= m)%nat -> Z.of_nat m < 10 ^ 28 ->
    Forall (fun s => d_exp s = -2) shares ->
    run_in_range m (map cents shares) sgn i n ->
    (i < n)%nat -> n = List.length shares ->
    -2 <= d_exp residual -> cents residual = sgn * Z.of_nat m ->
    exists shares' residual' i',
      iterate_body k shares residual i n = Ok (shares', residual', i') /\
      -2 <= d_exp residual' /\ cents residual' = sgn * (Z.of_nat m - Z.of_nat k).
Proof.
  intros Hsgn. induction k as [|k IH]; intros m shares residual i Hk Hm Hall Hrun Hi Hn Er Cr.
  - exists shares, residual, i. cbn [iterate_body]. repeat split; [assumption|].
    rewrite Cr. f_equal. lia.
  - destruct m as [|m]; [lia|]. cbn [iterate_body].
    destruct (run_in_range_step m shares sgn i n Hrun ltac:(lia)) as [C1 C2].
    replace (Z.of_nat (S m)) with (Z.of_nat m + 1) in * by lia.
    destruct (loop_body_tight shares residual i n sgn (Z.of_nat m))
      as [shares' [residual' [B1 [B2 [B3 [B4 [B5 B6]]]]]]]; try assumption; try lia.
    rewrite B1. cbn [bind].
    destruct (IH m shares' residual' ((i + 1) mod n)%nat) as [s2 [r2 [i2 [O1 [O2 O3]]]]];
      try assumption; try lia.
    { rewrite B4. destruct Hrun as [_ Hnext]. exact Hnext. }
    { apply mod_lt_length. lia. }
    exists s2, r2, i2. repeat split; try assumption. rewrite O3. f_equal. lia.
Qed.

(** What the round robin has added to an entry is the step times a count
    between 0 and the number of iterations. *)
Lemma distribute_monotone (m : nat) :
  forall (cs : list Z) (sgn : Z) (i n j : nat),
    (i < n)%nat -> n = List.length cs ->
    exists h, 0 <= h <= Z.of_nat m /\
              nth j (distribute m cs sgn i n) 0 = nth j cs 0 + sgn * h.
Proof.
  induction m as [|m IH]; intros cs sgn i n j Hi Hn.
  - exists 0. split; [lia|]. cbn [distribute]. lia.
  - cbn [distribute].
    destruct (IH (setitem cs i (nth i cs 0 + sgn)) sgn ((i + 1) mod n)%nat n j)
      as [h [Hh E]].
    { apply mod_lt_length. lia. }
    { rewrite setitem_length. exact Hn. }
    rewrite E. destruct (Nat.eq_dec i j) as [Eij|Eij].
    + subst j. rewrite setitem_nth_same by lia. exists (h + 1). split; lia.
    + rewrite setitem_nth_other by exact Eij. exists h. split; lia.
Qed.

Lemma Forall_in_range_nth (cs : list Z) :
  (forall j, (j < List.length cs)%nat -> Z.abs (nth j cs 0) < 10 ^ 28) ->
  Forall (fun c => Z.abs c < 10 ^ 28) cs.
Proof.
  intros H. apply Forall_nth. intros j d Hj.
  rewrite (nth_indep cs d 0 Hj). apply H. exact Hj.
Qed.

(** When the amounts at the start and at the end have fewer than [10^28]
    units, so has every amount in between. *)
Lemma run_in_range_ends (m : nat) :
  forall (cs : list Z) (sgn : Z) (i n : nat),
    sgn = 1 \/ sgn = -1 -> (i < n)%nat -> n = List.length cs ->
    Forall (fun c => Z.abs c < 10 ^ 28) cs ->
    Forall (fun c => Z.abs c < 10 ^ 28) (distribute m cs sgn i n) ->
    run_in_range m cs sgn i n.
Proof.
  induction m as [|m IH]; intros cs sgn i n Hsgn Hi Hn Hcs Hend.
  - split; [exact Hcs|exact I].
  - split; [exact Hcs|]. cbn [distribute] in Hend.
    apply IH; try assumption.
    + apply mod_lt_length. lia.
    + rewrite setitem_length. exact Hn.
    + apply Forall_in_range_nth. intros j Hj. rewrite setitem_length in Hj.
      destruct (Nat.eq_dec i j) as [Eij|Eij].
      * subst j. rewrite setitem_nth_same by lia.
        destruct (distribute_monotone m (setitem cs i (nth i cs 0 + sgn)) sgn
                    ((i + 1) mod n)%nat n i) as [h [Hh E]].
        { apply mod_lt_length. lia. }
        { rewrite setitem_length. exact Hn. }
        rewrite setitem_nth_same in E by lia.
        pose proof (in_range_nth _ i Hend) as He.
        rewrite distribute_length, setitem_length in He. specialize (He Hj).
        rewrite E in He.
        pose proof (in_range_nth cs i Hcs Hj) as Hc.
        destruct Hsgn; subst sgn; nia.
      * rewrite setitem_nth_other by exact Eij. apply in_range_nth; assumption.
Qed.

Lemma nth_le_sum (cs : list Z) (j : nat) :
  Forall (fun c => 0 <= c) cs -> 0 <= nth j cs 0 <= sum_Z cs.
Proof.
  intros H. revert j. induction H as [|c cs Hc Hcs IH]; intros j.
  - destruct j; simpl; lia.
  - destruct j as [|j]; cbn [nth sum_Z fold_right].
    + fold (sum_Z cs). pose proof (IH O). destruct cs; simpl in *; lia.
    + fold (sum_Z cs). pose proof (IH j). lia.
Qed.

Lemma sum_Z_nonneg (cs : list Z) : Forall (fun c => 0 <= c) cs -> 0 <= sum_Z cs.
Proof. induction 1; simpl; [lia|]. fold (sum_Z l). lia. Qed.

(** Amounts that are not negative, reconciled to a total that is not
    negative: nothing met on the way has [10^28] units or more. *)
Lemma run_in_range_nonneg (cs : list Z) (total sgn : Z) (m n : nat) :
  Forall (fun c => 0 <= c < 10 ^ 28) cs -> 0 <= total < 10 ^ 28 ->
  sgn = 1 \/ sgn = -1 -> total - sum_Z cs = sgn * Z.of_nat m -> Z.of_nat m < 10 ^ 28 ->
  (0 < n)%nat -> n = List.length cs ->
  run_in_range m cs sgn 0 n.
Proof.
  intros Hnn Ht Hsgn Hm Hm28 Hn0 Hn.
  assert (Hnn0 : Forall (fun c => 0 <= c) cs)
    by (eapply Forall_impl; [|exact Hnn]; intros a H; cbv beta in H |- *; lia).
  assert (Hcs : Forall (fun c => Z.abs c < 10 ^ 28) cs)
    by (eapply Forall_impl; [|exact Hnn]; intros a H; cbv beta in H |- *; lia).
  apply run_in_range_ends; try assumption.
  apply Forall_in_range_nth. intros j Hj. rewrite distribute_length in Hj.
  destruct (distribute_monotone m cs sgn 0%nat n j Hn0 Hn) as [h [Hh E]].
  rewrite E. pose proof (nth_le_sum cs j Hnn0).
  pose proof (in_range_nth cs j Hcs Hj).
  destruct Hsgn; subst sgn; lia.
Qed.

(** ** The sum of the rounded shares *)

Lemma sum_fold_tight (rest : list Decimal.t) :
  forall acc : Decimal.t,
    d_exp acc = -2 -> 0 <= cents acc ->
    Forall (fun s => d_exp s = -2 /\ 0 <= cents s) rest ->
    cents acc + sum_Z (map cents rest) < 10 ^ 28 ->
    exists z,
      fold_left (fun acc0 y => a <- acc0 ;; Decimal.add a y) rest (Ok acc) = Ok z /\
      d_exp z = -2 /\ cents z = cents acc + sum_Z (map cents rest).
Proof.
  induction rest as [|y rest IH]; intros acc Ea Ca Hall Hsum.
  - exists acc. cbn. repeat split; [assumption|lia].
  - inversion Hall as [|y' rest' [Ey Cy] Hrest]; subst.
    cbn [map sum_Z fold_right] in Hsum. fold (sum_Z (map cents rest)) in Hsum.
    pose proof (sum_Z_nonneg (map cents rest)) as Hnn.
    assert (Hr : Forall (fun c => 0 <= c) (map cents rest)).
    { apply Forall_map. eapply Forall_impl; [|exact Hrest]. intros a [_ H]. exact H. }
    specialize (Hnn Hr).
    destruct (add_cents acc y) as [z [A1 [A2 A3]]].
    { split; lia. }
    { split; lia. }
    { rewrite Ea, Ey. reflexivity. }
    { lia. }
    cbn [fold_left bind]. rewrite A1.
    destruct (IH z A2 ltac:(lia) Hrest ltac:(lia)) as [w [W1 [W2 W3]]].
    exists w. split; [exact W1|]. split; [exact W2|].
    cbn [map sum_Z fold_right]. fold (sum_Z (map cents rest)). lia.
Qed.

Lemma py_sum_tight (xs : list Decimal.t) :
  Forall (fun s => d_exp s = -2 /\ 0 <= cents s) xs ->
  sum_Z (map cents xs) < 10 ^ 28 -> xs <> [] ->
  exists z, py_sum xs = Ok z /\ d_exp z = -2 /\ cents z = sum_Z (map cents xs).
Proof.
  intros Hall Hsum Hne. destruct xs as [|x rest]; [contradiction Hne; reflexivity|].
  inversion Hall as [|x' rest' [Ex Cx] Hrest]; subst.
  cbn [map sum_Z fold_right] in Hsum. fold (sum_Z (map cents rest)) in Hsum.
  assert (Hr : Forall (fun c => 0 <= c) (map cents rest)).
  { apply Forall_map. eapply Forall_impl; [|exact Hrest]. intros a [_ H]. exact H. }
  pose proof (sum_Z_nonneg _ Hr) as Hnn.
  unfold py_sum.
  destruct (add_cents x (Decimal.of_Z 0)) as [z [A1 [A2 A3]]].
  { split; lia. }
  { split; [simpl; lia|vm_compute; reflexivity]. }
  { rewrite Ex. reflexivity. }
  { change (cents (Decimal.of_Z 0)) with 0. lia. }
  rewrite A1. change (cents (Decimal.of_Z 0)) with 0 in A3.
  destruct (sum_fold_tight rest z A2 ltac:(lia) Hrest ltac:(lia)) as [w [W1 [W2 W3]]].
  exists w. split; [exact W1|]. split; [exact W2|].
  cbn [map sum_Z fold_right]. fold (sum_Z (map cents rest)). lia.
Qed.

(** ** The rounded shares are not negative *)

Lemma fix_sign (d y : Decimal.t) :
  _fix d = Ok y -> d_sign y = d_sign d /\ (coef d = 0 -> coef y = 0).
Proof.
  intros H. unfold _fix in H. destruct (is_zero d) eqn:Hz.
  - inversion H. split; reflexivity.
  - apply is_zero_false in Hz.
    repeat match type of H with
           | context [if ?b then _ else _] => destruct b
           end; try discriminate H; inversion H; subst; (split; [reflexivity|lia]).
Qed.

Lemma div_sign (x y b : Decimal.t) :
  Decimal.div x y = Ok b ->
  d_sign b = xorb (d_sign x) (d_sign y) /\ (coef x = 0 -> coef b = 0).
Proof.
  intros H. unfold Decimal.div in H.
  destruct (is_zero y); [destruct (is_zero x); discriminate H|].
  destruct (is_zero x) eqn:Hx.
  - apply fix_sign in H. destruct H as [H1 H2]. split; [exact H1|]. intros _. apply H2. reflexivity.
  - apply is_zero_false in Hx.
    match type of H with
    | (let '(_, _) := ?p in _) = _ => destruct p as [coeff remainder]
    end.
    match type of H with
    | (let '(_, _) := ?p in _) = _ => destruct p as [coeff' exp']
    end.
    apply fix_sign in H. destruct H as [H1 _]. split; [exact H1|lia].
Qed.

Lemma mul_sign (x y z : Decimal.t) :
  Decimal.mul x y = Ok z ->
  d_sign z = xorb (d_sign x) (d_sign y) /\ (coef x = 0 \/ coef y = 0 -> coef z = 0).
Proof.
  intros H. unfold Decimal.mul in H.
  destruct (is_zero x) eqn:Hx; [|destruct (is_zero y) eqn:Hy]; cbn [orb] in H.
  - apply fix_sign in H. destruct H as [H1 H2]. split; [exact H1|]. intros _. apply H2. reflexivity.
  - apply fix_sign in H. destruct H as [H1 H2]. split; [exact H1|]. intros _. apply H2. reflexivity.
  - apply is_zero_false in Hx, Hy.
    apply fix_sign in H. destruct H as [H1 _]. split; [exact H1|lia].
Qed.

Lemma round_money_range (d r : Decimal.t) :
  round_money d = Ok r ->
  d_exp r = -2 /\ Z.abs (cents r) < 10 ^ 28 /\
  (d_sign d = false \/ coef d = 0 -> 0 <= cents r).
Proof.
  intros H. rewrite round_money_char in H.
  pose proof (half_up_coef_nonneg d) as Hn.
  destruct (Z.ltb_spec (half_up_coef d) (10 ^ 28)) as [Hlt|]; [|discriminate H].
  inversion H. split; [reflexivity|]. rewrite cents_mkd by exact Hn.
  split; [destruct (d_sign d); lia|].
  intros [Hs|Hc]; [rewrite Hs; exact Hn|].
  rewrite (half_up_coef_zero d Hc). destruct (d_sign d); lia.
Qed.

Lemma sequence_inv {A B : Type} (f : A -> outcome B) (l : list A) :
  forall bs, sequence (map f l) = Ok bs ->
    List.length bs = List.length l /\
    forall b, In b bs -> exists a, In a l /\ f a = Ok b.
Proof.
  induction l as [|a l IH]; intros bs H; cbn [map sequence] in H.
  - inversion H. split; [reflexivity|intros b []].
  - destruct (f a) as [b0| |] eqn:Ea; cbn [bind] in H; try discriminate H.
    destruct (sequence (map f l)) as [rest| |]; cbn [bind] in H; try discriminate H.
    inversion H. destruct (IH rest eq_refl) as [Hl Hin].
    split; [cbn [List.length]; lia|].
    intros b [E|Hb].
    + subst b. exists a. split; [left; reflexivity|exact Ea].
    + destruct (Hin b Hb) as [a' [Ha' Ea']]. exists a'. split; [right; exact Ha'|exact Ea'].
Qed.

(** The rounded shares of an even split of a total that is not negative:
    [n] shares of two decimal places, none negative. *)
Lemma even_rounded_spec (total : Decimal.t) (n : nat) (rounded : list Decimal.t) :
  nonneg total -> even_rounded total n = Ok rounded ->
  List.length rounded = n /\
  Forall (fun s => d_exp s = -2 /\ 0 <= cents s < 10 ^ 28) rounded.
Proof.
  intros Hnn H. unfold even_rounded in H.
  destruct (Decimal.div total (Decimal.of_Z (Z.of_nat n))) as [base| |] eqn:Ed;
    cbn [bind] in H; try discriminate H.
  destruct (sequence_inv (fun _ : nat => round_money base) (seq 0 n) rounded H) as [Hl Hin].
  split; [rewrite Hl; apply length_seq|].
  apply Forall_forall. intros s Hs. destruct (Hin s Hs) as [_ [_ Er]].
  destruct (round_money_range base s Er) as [R1 [R2 R3]]. split; [exact R1|].
  cut (0 <= cents s); [lia|].
  apply R3. destruct (div_sign _ _ _ Ed) as [S1 S2].
  apply nonneg_iff in Hnn. destruct Hnn as [Hs0|Hc0].
  - left. rewrite S1, Hs0. unfold Decimal.of_Z. cbn [d_sign].
    destruct (Z.ltb_spec (Z.of_nat n) 0); [lia|reflexivity].
  - right. apply S2. exact Hc0.
Qed.

(** The rounded shares by percentages that are not negative. *)
Lemma percentage_rounded_spec (total : Decimal.t) (percentages rounded : list Decimal.t) :
  nonneg total -> Forall nonneg percentages ->
  percentage_rounded total percentages = Ok rounded ->
  List.length rounded = List.length percentages /\
  Forall (fun s => d_exp s = -2 /\ 0 <= cents s < 10 ^ 28) rounded.
Proof.
  intros Hnn Hps H. unfold percentage_rounded in H.
  destruct (sequence_inv _ percentages rounded H) as [Hl Hin].
  split; [exact Hl|].
  apply Forall_forall. intros s Hs. destruct (Hin s Hs) as [p [Hp Ep]].
  destruct (Decimal.div p (Decimal.of_Z 100)) as [q| |] eqn:Eq; cbn [bind] in Ep;
    try discriminate Ep.
  destruct (Decimal.mul q total) as [share| |] eqn:Em; cbn [bind] in Ep;
    try discriminate Ep.
  destruct (round_money_range share s Ep) as [R1 [R2 R3]]. split; [exact R1|].
  cut (0 <= cents s); [lia|].
  apply R3. destruct (div_sign _ _ _ Eq) as [Q1 Q2]. destruct (mul_sign _ _ _ Em) as [M1 M2].
  rewrite Forall_forall in Hps. pose proof (Hps p Hp) as Hpn.
  apply nonneg_iff in Hnn. apply nonneg_iff in Hpn.
  destruct Hnn as [Hs0|Hc0]; [|right; apply M2; right; exact Hc0].
  destruct Hpn as [Hp0|Hp0]; [|right; apply M2; left; apply Q2; exact Hp0].
  left. rewrite M1, Q1, Hs0, Hp0. reflexivity.
Qed.

(** ** Reconciling rounded shares within the precision *)

Lemma pow10_28_29 : 10 ^ 29 = 10 * 10 ^ 28.
Proof. reflexivity. Qed.

(** When [sum] is exact, what it returns counts the minor units of the
    rounded shares. *)
Lemma sum_is_exact_cents (rounded : list Decimal.t) (s : Decimal.t) :
  Forall (fun x => -2 <= d_exp x) rounded ->
  py_sum rounded = Ok s -> (dval s == sum_Q (map dval rounded))%Q ->
  -2 <= d_exp s /\ cents s = sum_Z (map cents rounded).
Proof.
  intros Hpl P1 Pv. pose proof (py_sum_places rounded s Hpl P1) as Es.
  split; [exact Es|].
  rewrite (dval_cents s Es), (sum_Q_cents rounded Hpl) in Pv.
  unfold Qeq in Pv. simpl in Pv. lia.
Qed.

Lemma reconcile_tight (total : Decimal.t) (rounded : list Decimal.t) (n : nat) :
  Forall (fun s => d_exp s = -2 /\ 0 <= cents s < 10 ^ 28) rounded ->
  within_precision total rounded ->
  n = List.length rounded -> (0 < n)%nat ->
  exists sum residual out,
    py_sum rounded = Ok sum /\
    Decimal.sub total sum = Ok residual /\
    -2 <= d_exp residual /\
    cents residual = cents total - sum_Z (map cents rounded) /\
    residual_loop (S (steps residual)) rounded residual 0 n = Ok out /\
    Forall (fun s => d_exp s = -2) out /\
    List.length out = n /\
    map cents out
      = distribute (steps residual) (map cents rounded) (direction residual) 0 n /\
    counts_down rounded residual n.
Proof.
  intros Hall [Hnn [Hfit [[sum [P1 Pv]] Hres]]] Hn Hn0.
  assert (Hpl : Forall (fun x => -2 <= d_exp x) rounded).
  { eapply Forall_impl; [|exact Hall]. intros a [H _]. lia. }
  destruct (sum_is_exact_cents rounded sum Hpl P1 Pv) as [Es P3].
  assert (Hcs : Forall (fun c => 0 <= c < 10 ^ 28) (map cents rounded)).
  { apply Forall_map. eapply Forall_impl; [|exact Hall]. intros a [_ H]. exact H. }
  assert (Hcs0 : Forall (fun c => 0 <= c) (map cents rounded)).
  { eapply Forall_impl; [|exact Hcs]. intros a H. cbv beta in H |- *. lia. }
  pose proof (sum_Z_nonneg _ Hcs0) as Hs0.
  pose proof (pow10_pos 28 ltac:(lia)) as P28.
  assert (Hct : 0 <= cents total < 10 ^ 28).
  { destruct Hfit as [He Hc]. rewrite (nonneg_cents total Hnn) in *.
    pose proof (coef_nonneg total). pose proof (pow10_pos (d_exp total + 2) ltac:(lia)).
    split; [nia|lia]. }
  destruct (sub_wide total sum) as [residual [S1 [S2 S3]]].
  { apply Hfit. }
  { exact Es. }
  { rewrite pow10_28_29. lia. }
  { rewrite P3, pow10_28_29. lia. }
  { rewrite P3. exact Hres. }
  rewrite P3 in S3.
  destruct (direction_cents residual S2) as [Hd Hc].
  assert (Hst : Z.of_nat (steps residual) < 10 ^ 28).
  { unfold steps. rewrite Zabs2Nat.id_abs. lia. }
  assert (Hexp : Forall (fun s => d_exp s = -2) rounded).
  { eapply Forall_impl; [|exact Hall]. intros a [H _]. exact H. }
  assert (Hrun : run_in_range (steps residual) (map cents rounded) (direction residual) 0 n).
  { apply (run_in_range_nonneg _ (cents total)); try assumption; try lia.
    rewrite length_map. exact Hn. }
  destruct (residual_loop_tight (direction residual) n Hd (steps residual)
              rounded residual 0%nat) as [out [L1 [L2 [L3 L4]]]]; try assumption.
  exists sum, residual, out.
  split; [exact P1|]. split; [exact S1|]. split; [exact S2|]. split; [exact S3|].
  split; [exact L1|]. split; [exact L2|]. split; [exact L3|]. split; [exact L4|].
  split.
  - intros k Hk.
    destruct (iterate_body_tight (direction residual) n Hd k (steps residual)
                rounded residual 0%nat) as [sk [rk [ik [I1 [I2 I3]]]]]; try assumption.
    exists sk, rk, ik. split; [exact I1|].
    exists (cents rk). split.
    + rewrite (dval_cents rk) by lia.
      unfold dval, cent, pow10Q, signed, coef. simpl.
      unfold Qeq, Qmult, Qinv, inject_Z. simpl. lia.
    + rewrite I3. destruct Hd as [Hd|Hd]; rewrite Hd; lia.
  - exists out. exact L1.
Qed.

(** Rounded shares that sum to fewer than [10^28] minor units are within
    the precision. *)
Lemma small_sum_within_precision (total : Decimal.t) (rounded : list Decimal.t) :
  nonneg total -> fits total -> rounded <> [] ->
  Forall (fun s => d_exp s = -2 /\ 0 <= cents s < 10 ^ 28) rounded ->
  sum_Z (map cents rounded) < 10 ^ 28 ->
  within_precision total rounded.
Proof.
  intros Hnn Hfit Hne Hall Hsum.
  assert (Hall' : Forall (fun s => d_exp s = -2 /\ 0 <= cents s) rounded).
  { eapply Forall_impl; [|exact Hall]. intros a [H1 H2]. split; [exact H1|lia]. }
  assert (Hpl : Forall (fun x => -2 <= d_exp x) rounded).
  { eapply Forall_impl; [|exact Hall]. intros a [H _]. lia. }
  destruct (py_sum_tight rounded Hall' Hsum Hne) as [sum [P1 [P2 P3]]].
  assert (Hcs0 : Forall (fun c => 0 <= c) (map cents rounded)).
  { apply Forall_map. eapply Forall_impl; [|exact Hall]. intros a [_ H]. lia. }
  pose proof (sum_Z_nonneg _ Hcs0) as Hs0.
  assert (Hct : 0 <= cents total < 10 ^ 28).
  { destruct Hfit as [He Hc]. rewrite (nonneg_cents total Hnn) in *.
    pose proof (coef_nonneg total). pose proof (pow10_pos (d_exp total + 2) ltac:(lia)).
    split; [nia|lia]. }
  split; [exact Hnn|]. split; [exact Hfit|]. split; [|lia].
  exists sum. split; [exact P1|].
  rewrite (dval_cents sum) by lia. rewrite (sum_Q_cents rounded Hpl), P3. reflexivity.
Qed.

Lemma even_shares_rounded (total : Decimal.t) (n : nat) :
  even_shares total n =
  (rounded <- even_rounded total n ;;
   sum_rounded <- py_sum rounded ;;
   residual <- Decimal.sub total sum_rounded ;;
   Ok (rounded, residual)).
Proof.
  unfold even_shares, even_rounded.
  destruct (Decimal.div total (Decimal.of_Z (Z.of_nat n))); reflexivity.
Qed.

Lemma percentage_shares_rounded (total : Decimal.t) (percentages : list Decimal.t) :
  percentage_shares total percentages =
  (rounded <- percentage_rounded total percentages ;;
   sum_shares <- py_sum rounded ;;
   residual <- Decimal.sub total sum_shares ;;
   Ok (rounded, residual)).
Proof. reflexivity. Qed.

(** [split_evenly] within the precision. *)
Lemma split_evenly_tight (total : Decimal.t) (n : nat) (names : option (list string))
      (rounded : list Decimal.t) :
  (0 < n)%nat -> even_rounded total n = Ok rounded -> within_precision total rounded ->
  exists residual out,
    even_shares total n = Ok (rounded, residual) /\
    -2 <= d_exp residual /\
    cents residual = cents total - sum_Z (map cents rounded) /\
    split_evenly (S (steps residual)) total n names
      = Ok (combine (names_or_default names n) out) /\
    Forall (fun s => d_exp s = -2) out /\
    List.length out = n /\
    map cents out
      = distribute (steps residual) (map cents rounded) (direction residual) 0 n /\
    counts_down rounded residual n.
Proof.
  intros Hn0 Hr Hw.
  destruct (even_rounded_spec total n rounded (proj1 Hw) Hr) as [Hl Hall].
  destruct (reconcile_tight total rounded n Hall Hw (eq_sym Hl) Hn0)
    as [sum [residual [out [P1 [S1 [E1 [E2 [L1 [L2 [L3 [L4 L5]]]]]]]]]]].
  assert (Hes : even_shares total n = Ok (rounded, residual)).
  { rewrite even_shares_rounded, Hr. cbn [bind]. rewrite P1. cbn [bind]. rewrite S1. reflexivity. }
  exists residual, out.
  split; [exact Hes|]. split; [exact E1|]. split; [exact E2|].
  split; [unfold split_evenly; rewrite Hes; cbn [bind]; rewrite L1; reflexivity|].
  split; [exact L2|]. split; [exact L3|]. split; [exact L4|exact L5].
Qed.

(** [split_by_percentage] within the precision. *)
Lemma split_by_percentage_tight (total : Decimal.t) (percentages : list Decimal.t)
      (names : option (list string)) (rounded : list Decimal.t) :
  percentages <> [] -> Forall nonneg percentages ->
  percentage_rounded total percentages = Ok rounded -> within_precision total rounded ->
  exists residual out,
    percentage_shares total percentages = Ok (rounded, residual) /\
    List.length rounded = List.length percentages /\
    -2 <= d_exp residual /\
    cents residual = cents total - sum_Z (map cents rounded) /\
    split_by_percentage (S (steps residual)) total percentages names
      = Ok (combine (names_or_default names (List.length percentages)) out) /\
    Forall (fun s => d_exp s = -2) out /\
    List.length out = List.length percentages /\
    map cents out
      = distribute (steps residual) (map cents rounded) (direction residual) 0
                   (List.length percentages) /\
    counts_down rounded residual (List.length rounded).
Proof.
  intros Hne Hps Hr Hw.
  destruct (percentage_rounded_spec total percentages rounded (proj1 Hw) Hps Hr) as [Hl Hall].
  assert (Hn0 : (0 < List.length percentages)%nat).
  { destruct percentages; [contradiction Hne; reflexivity|cbn [List.length]; lia]. }
  destruct (reconcile_tight total rounded (List.length percentages) Hall Hw (eq_sym Hl) Hn0)
    as [sum [residual [out [P1 [S1 [E1 [E2 [L1 [L2 [L3 [L4 L5]]]]]]]]]]].
  assert (Hes : percentage_shares total percentages = Ok (rounded, residual)).
  { rewrite percentage_shares_rounded, Hr. cbn [bind]. rewrite P1. cbn [bind].
    rewrite S1. reflexivity. }
  exists residual, out.
  split; [exact Hes|]. split; [exact Hl|]. split; [exact E1|]. split; [exact E2|].
  split; [unfold split_by_percentage; rewrite Hes; cbn [bind]; rewrite Hl, L1; reflexivity|].
  split; [exact L2|]. split; [exact L3|]. split; [exact L4|]. rewrite Hl. exact L5.
Qed.

(** The requests bounded by a number of digits are within the precision. *)
Lemma even_rounded_bounded (total : Decimal.t) (n : nat) (K M : Z) :
  valid_total K total -> valid_count M n -> 0 <= K -> 0 <= M -> K + M <= 24 ->
  exists rounded,
    even_rounded total n = Ok rounded /\ sum_Z (map cents rounded) < 10 ^ 28.
Proof.
  intros Ht Hn HK HM HKM.
  destruct (even_shares_spec total n K M Ht Hn HK HM HKM)
    as [r [residual [E1 [E2 [E3 [E4 [E5 E6]]]]]]].
  pose proof Ht as [Hnn Hpl Hbl].
  pose proof (below_cents K total Hbl Hpl ltac:(lia)) as Habs.
  pose proof (pow10_le (K + 2) 27 ltac:(lia)) as H27.
  pose proof (pow10_pos 27 ltac:(lia)) as P27.
  rewrite even_shares_rounded in E1.
  destruct (even_rounded total n) as [rounded| |]; cbn [bind] in E1; try discriminate E1.
  destruct (py_sum rounded) as [sm| |]; cbn [bind] in E1; try discriminate E1.
  destruct (Decimal.sub total sm) as [res| |]; cbn [bind] in E1; try discriminate E1.
  inversion E1. exists (repeat r n). split; [reflexivity|].
  rewrite map_repeat, sum_Z_repeat. destruct E2 as [_ [_ Hr]].
  rewrite pow10_27_28. destruct Hn as [Hn1 _]. nia.
Qed.

Lemma percentage_rounded_bounded (total : Decimal.t) (percentages : list Decimal.t)
      (K M : Z) :
  valid_total K total -> Forall valid_percentage percentages ->
  valid_count M (List.length percentages) -> 0 <= K -> 0 <= M -> K + M <= 22 ->
  exists rounded,
    percentage_rounded total percentages = Ok rounded /\
    sum_Z (map cents rounded) < 10 ^ 28.
Proof.
  intros Ht Hps Hn HK HM HKM.
  destruct (percentage_shares_spec total percentages K M Ht Hps Hn HK HM HKM)
    as [shares [residual [E1 [E2 [E3 [E4 [E5 [E6 E7]]]]]]]].
  pose proof Ht as [Hnn Hpl Hbl].
  pose proof (below_cents K total Hbl Hpl ltac:(lia)) as Habs.
  pose proof (pow10_le (K + 2) 27 ltac:(lia)) as H27.
  pose proof (pow10_pos 27 ltac:(lia)) as P27.
  rewrite percentage_shares_rounded in E1.
  destruct (percentage_rounded total percentages) as [rounded| |]; cbn [bind] in E1;
    try discriminate E1.
  destruct (py_sum rounded) as [sm| |]; cbn [bind] in E1; try discriminate E1.
  destruct (Decimal.sub total sm) as [res| |]; cbn [bind] in E1; try discriminate E1.
  inversion E1. exists shares. split; [reflexivity|].
  pose proof (sum_Z_bound _ _ E2) as Hsb. rewrite E3 in Hsb.
  rewrite pow10_27_28. lia.
Qed.

(* ================================================================= *)
(** * The properties of the specification *)

(** ** C1: the exact-sum invariant *)

(** C1, as amended.  Take a total that is not negative, has at most two
    decimal places and fewer than [10^28] minor units, at least one
    participant (at least one percentage, none of them negative), and names
    that are omitted or as many as the participants.  Whenever [sum] adds
    the shares as first rounded, before the residual loop, without
    rounding, and the residual has fewer than [10^28] minor units,
    [split_evenly] and [split_by_percentage] return, and the shares they
    return sum, as rational numbers, to [round_money(total)].  That is so
    whenever the rounded shares sum to fewer than [10^28] minor units, and
    so for every request of at most [10^M] participants with a total below
    [10^K], [K + M <= 24] in even mode and [K + M <= 22] with percentages
    below 1000 in percentage mode.  The sum of the percentages plays no
    part in it. *)
Theorem exact_sum_within_precision (total : Decimal.t) :
  (forall n names rounded,
      (1 <= n)%nat -> List.length (names_or_default names n) = n ->
      even_rounded total n = Ok rounded -> within_precision total rounded ->
      exists fuel result t,
        split_evenly fuel total n names = Ok result /\
        round_money total = Ok t /\
        (total_of result == dval t)%Q) /\
  (forall percentages names rounded,
      percentages <> [] -> Forall nonneg percentages ->
      List.length (names_or_default names (List.length percentages))
        = List.length percentages ->
      percentage_rounded total percentages = Ok rounded ->
      within_precision total rounded ->
      exists fuel result t,
        split_by_percentage fuel total percentages names = Ok result /\
        round_money total = Ok t /\
        (total_of result == dval t)%Q) /\
  (forall n rounded,
      nonneg total -> fits total -> (1 <= n)%nat ->
      even_rounded total n = Ok rounded -> sum_Z (map cents rounded) < 10 ^ 28 ->
      within_precision total rounded) /\
  (forall percentages rounded,
      nonneg total -> fits total -> percentages <> [] -> Forall nonneg percentages ->
      percentage_rounded total percentages = Ok rounded ->
      sum_Z (map cents rounded) < 10 ^ 28 ->
      within_precision total rounded) /\
  (forall K M n,
      valid_total K total -> valid_count M n -> 0 <= K -> 0 <= M -> K + M <= 24 ->
      exists rounded,
        even_rounded total n = Ok rounded /\ sum_Z (map cents rounded) < 10 ^ 28) /\
  (forall K M percentages,
      valid_total K total -> Forall valid_percentage percentages ->
      valid_count M (List.length percentages) -> 0 <= K -> 0 <= M -> K + M <= 22 ->
      exists rounded,
        percentage_rounded total percentages = Ok rounded /\
        sum_Z (map cents rounded) < 10 ^ 28).
Proof.
  split; [|split; [|split; [|split; [|split]]]].
  - intros n names rounded Hn Hlen Hr Hw.
    pose proof Hw as [Hnn [Hfit _]].
    destruct (round_money_two_places total (proj1 Hfit) (proj2 Hfit)) as [t [T1 [T2 T3]]].
    destruct (split_evenly_tight total n names rounded ltac:(lia) Hr Hw)
      as [residual [out [E1 [E2 [E3 [E4 [E5 [E6 [E7 E8]]]]]]]]].
    destruct (even_rounded_spec total n rounded Hnn Hr) as [Hl _].
    exists (S (steps residual)), (combine (names_or_default names n) out), t.
    split; [exact E4|]. split; [exact T1|].
    rewrite total_of_combine by (try assumption; lia).
    rewrite (dval_cents t) by lia.
    destruct (direction_cents residual E2) as [_ Hd].
    rewrite E7, distribute_sum; [|lia|rewrite length_map; lia].
    rewrite T3, <- Hd, E3. unfold Qeq. simpl. lia.
  - intros percentages names rounded Hne Hps Hlen Hr Hw.
    pose proof Hw as [Hnn [Hfit _]].
    destruct (round_money_two_places total (proj1 Hfit) (proj2 Hfit)) as [t [T1 [T2 T3]]].
    destruct (split_by_percentage_tight total percentages names rounded Hne Hps Hr Hw)
      as [residual [out [E1 [E2 [E3 [E4 [E5 [E6 [E7 [E8 E9]]]]]]]]]].
    exists (S (steps residual)),
           (combine (names_or_default names (List.length percentages)) out), t.
    split; [exact E5|]. split; [exact T1|].
    rewrite total_of_combine by (try assumption; lia).
    rewrite (dval_cents t) by lia.
    destruct (direction_cents residual E3) as [_ Hd].
    assert (Hn0 : (0 < List.length percentages)%nat).
    { destruct percentages; [contradiction Hne; reflexivity|cbn [List.length]; lia]. }
    rewrite E8, distribute_sum; [|lia|rewrite length_map; lia].
    rewrite T3, <- Hd, E4. unfold Qeq. simpl. lia.
  - intros n rounded Hnn Hfit Hn Hr Hsum.
    destruct (even_rounded_spec total n rounded Hnn Hr) as [Hl Hall].
    apply small_sum_within_precision; try assumption.
    intros E. subst rounded. cbn in Hl. lia.
  - intros percentages rounded Hnn Hfit Hne Hps Hr Hsum.
    destruct (percentage_rounded_spec total percentages rounded Hnn Hps Hr) as [Hl Hall].
    apply small_sum_within_precision; try assumption.
    intros E. subst rounded. destruct percentages; [contradiction Hne; reflexivity|].
    discriminate Hl.
  - intros K M n Ht Hn HK HM HKM. apply (even_rounded_bounded total n K M); assumption.
  - intros K M percentages Ht Hps Hn HK HM HKM.
    apply (percentage_rounded_bounded total percentages K M); assumption.
Qed.

(** A total of 28 digits, 12345678901234567890123456.78, among seven and
    by the percentages 33.33, 33.33 and 33.34; and the largest total of 28
    digits among two, where the rounded shares sum to [10^28] minor units,
    which [sum] still holds without rounding. *)
Lemma exact_sum_within_precision_witness :
  (exists fuel result t,
      split_evenly fuel (Decimal.mk false 1234567890123456789012345678 (-2)) 7 None
        = Ok result /\
      round_money (Decimal.mk false 1234567890123456789012345678 (-2)) = Ok t /\
      (total_of result == dval t)%Q) /\
  (exists fuel result t,
      split_evenly fuel total_28_digits 2 None = Ok result /\
      round_money total_28_digits = Ok t /\
      (total_of result == dval t)%Q) /\
  (exists fuel result t,
      split_by_percentage fuel (Decimal.mk false 1234567890123456789012345678 (-2))
        [Decimal.mk false 3333 (-2); Decimal.mk false 3333 (-2); Decimal.mk false 3334 (-2)]
        None
        = Ok result /\
      round_money (Decimal.mk false 1234567890123456789012345678 (-2)) = Ok t /\
      (total_of result == dval t)%Q).
Proof.
  assert (Hw : forall total rounded s,
             nonneg total -> -2 <= d_exp total ->
             (Z.abs (cents total) <? 10 ^ 28) = true ->
             py_sum rounded = Ok s ->
             Qeq_bool (dval s) (sum_Q (map dval rounded)) = true ->
             (Z.abs (cents total - sum_Z (map cents rounded)) <? 10 ^ 28) = true ->
             within_precision total rounded).
  { intros total rounded s H1 H2 H3 H4 H5 H6.
    split; [exact H1|]. split; [split; [exact H2|apply Z.ltb_lt; exact H3]|].
    split; [exists s; split; [exact H4|apply Qeq_bool_iff; exact H5]|].
    apply Z.ltb_lt. exact H6. }
  split; [|split].
  - apply (proj1 (exact_sum_within_precision (Decimal.mk false 1234567890123456789012345678 (-2))) 7%nat None
              (repeat (Decimal.mk false 176366841446208112716049383 (-2)) 7));
      [lia|reflexivity|vm_compute; reflexivity|].
    eapply Hw; [reflexivity|simpl; lia|vm_compute; reflexivity|vm_compute; reflexivity
               |vm_compute; reflexivity|vm_compute; reflexivity].
  - apply (proj1 (exact_sum_within_precision total_28_digits) 2%nat None
              (repeat (Decimal.mk false 5000000000000000000000000000 (-2)) 2));
      [lia|reflexivity|vm_compute; reflexivity|].
    eapply Hw; [reflexivity|simpl; lia|vm_compute; reflexivity|vm_compute; reflexivity
               |vm_compute; reflexivity|vm_compute; reflexivity].
  - apply (proj1 (proj2 (exact_sum_within_precision (Decimal.mk false 1234567890123456789012345678 (-2))))
              [Decimal.mk false 3333 (-2); Decimal.mk false 3333 (-2);
               Decimal.mk false 3334 (-2)] None
              [Decimal.mk false 411481477778148147777814815 (-2);
               Decimal.mk false 411481477778148147777814815 (-2);
               Decimal.mk false 411604934567160493456716049 (-2)]);
      [discriminate| |reflexivity|vm_compute; reflexivity|].
    + repeat (apply Forall_cons; [reflexivity|]). apply Forall_nil.
    + eapply Hw; [reflexivity|simpl; lia|vm_compute; reflexivity|vm_compute; reflexivity
                 |vm_compute; reflexivity|vm_compute; reflexivity].
Defined.

(** C1 as stated fails: for the total 99999999999999999999999999.99, not
    negative and with two decimal places, and 17 participants,
    [split_evenly] returns a list whose shares sum to
    100000000000000000000000000.03, not to the rounded total. *)
Lemma exact_sum_fails_at_28_digits :
  nonneg total_28_digits /\ d_exp total_28_digits = -2 /\
  exists result t,
    (forall fuel, split_evenly (S (S fuel)) total_28_digits 17 None = Ok result) /\
    round_money total_28_digits = Ok t /\
    (total_of result == 10000000000000000000000000003 # 100)%Q /\
    ~ (total_of result == dval t)%Q.
Proof.
  split; [reflexivity|]. split; [reflexivity|].
  eexists. exists total_28_digits.
  split; [intros fuel; vm_compute; reflexivity|].
  split; [vm_compute; reflexivity|].
  split.
  - apply Qeq_bool_iff. vm_compute. reflexivity.
  - intros H. apply Qeq_bool_iff in H. vm_compute in H. discriminate.
Qed.

(** ** C6: the single participant *)

Lemma single_share_cycle (fuel : nat) :
  residual_loop fuel [Decimal.mk false 1001 (-2)] (Decimal.mk true 5 (-3)) 0 1 = OutOfFuel /\
  residual_loop fuel [Decimal.mk false 1000 (-2)] (Decimal.mk false 5 (-3)) 0 1 = OutOfFuel.
Proof.
  induction fuel as [|fuel [IH1 IH2]]; [split; reflexivity|].
  split.
  - change (residual_loop (S fuel) [Decimal.mk false 1001 (-2)] (Decimal.mk true 5 (-3)) 0 1)
      with (residual_loop fuel [Decimal.mk false 1000 (-2)] (Decimal.mk false 5 (-3)) 0 1).
    exact IH2.
  - change (residual_loop (S fuel) [Decimal.mk false 1000 (-2)] (Decimal.mk false 5 (-3)) 0 1)
      with (residual_loop fuel [Decimal.mk false 1001 (-2)] (Decimal.mk true 5 (-3)) 0 1).
    exact IH1.
Qed.

(** With a total of at most two decimal places the single share is the
    rounded total. *)
Lemma single_share_two_places (K : Z) (total : Decimal.t) (names : option (list string)) :
  valid_total K total -> 0 <= K <= 24 ->
  exists t s fuel,
    round_money total = Ok t /\
    split_evenly fuel total 1 names = Ok (combine (names_or_default names 1) [s]) /\
    d_exp t = -2 /\ d_exp s = -2 /\ cents s = cents t.
Proof.
  intros Ht HK.
  assert (Hn : valid_count 0 1) by (split; [lia|simpl; lia]).
  destruct (split_evenly_spec total 1 names K 0 Ht Hn ltac:(lia) ltac:(lia) ltac:(lia))
    as [r [residual [out [E1 [E2 [E3 [E4 [E5 [E6 [E7 [E8 E9]]]]]]]]]]].
  destruct out as [|s [|s' out]]; try discriminate E7.
  destruct (round_money_two_places total) as [t [T1 [T2 T3]]].
  { apply Ht. }
  { pose proof (below_cents K total (vt_below _ _ Ht) (vt_places _ _ Ht) ltac:(lia)) as Hb.
    pose proof (pow10_lt (K + 2) 28 ltac:(lia)). lia. }
  exists t, s, (S (steps residual)).
  split; [exact T1|]. split; [exact E2|]. split; [exact T2|].
  split; [inversion E6; assumption|].
  assert (Hs : nth 0 (map cents [s]) 0
               = nth 0 (repeat (cents r) 1) 0
                 + direction residual * share_of (steps residual) 1 0).
  { rewrite E8. apply distribute_round_robin; [lia|reflexivity]. }
  cbn [map nth repeat] in Hs.
  assert (Hm : share_of (steps residual) 1 0 = Z.of_nat (steps residual)).
  { unfold share_of. rewrite Nat.div_1_r, Nat.mod_1_r. simpl. lia. }
  destruct (direction_cents residual ltac:(lia)) as [_ Hd].
  rewrite Hm, <- Hd, E5 in Hs. rewrite T3. lia.
Qed.

(** C6 at the failing input: for the total 10.005 and one participant the
    rounded share is 10.01, the residual is -0.005 and not zero, and the
    loop moves the share between 10.01 and 10.00 for ever: no fuel makes
    [split_evenly] return. *)
Theorem single_share_three_places_never_returns :
  nonneg total_three_places /\
  round_money total_three_places = Ok (Decimal.mk false 1001 (-2)) /\
  even_shares total_three_places 1 =
    Ok ([Decimal.mk false 1001 (-2)], Decimal.mk true 5 (-3)) /\
  forall fuel names, split_evenly fuel total_three_places 1 names = OutOfFuel.
Proof.
  split; [reflexivity|]. split; [reflexivity|]. split; [reflexivity|].
  intros fuel names. unfold split_evenly.
  change (even_shares total_three_places 1)
    with (Ok ([Decimal.mk false 1001 (-2)], Decimal.mk true 5 (-3))).
  cbn [bind]. rewrite (proj1 (single_share_cycle fuel)). reflexivity.
Qed.

(** ** C7 and C9: the length of the result *)

Lemma sequence_length {A : Type} (l : list (outcome A)) :
  forall bs, sequence l = Ok bs -> List.length bs = List.length l.
Proof.
  induction l as [|m l IH]; intros bs H; simpl in H.
  - inversion H. reflexivity.
  - destruct m as [a| |]; simpl in H; try discriminate.
    destruct (sequence l) as [rest| |]; simpl in H; try discriminate.
    inversion H. simpl. f_equal. apply IH. reflexivity.
Qed.

Lemma loop_body_length (shares : list Decimal.t) (residual : Decimal.t) (i n : nat) :
  forall shares' residual' i',
    loop_body shares residual i n = Ok (shares', residual', i') ->
    List.length shares' = List.length shares.
Proof.
  intros shares' residual' i' H. unfold loop_body in H.
  destruct (Decimal.gt residual zero_00);
    destruct (getitem shares i) as [s| |]; simpl in H; try discriminate;
    [destruct (Decimal.add s cent) as [s1| |]|destruct (Decimal.sub s cent) as [s1| |]];
    simpl in H; try discriminate;
    [destruct (Decimal.sub residual cent) as [r1| |]
    |destruct (Decimal.add residual cent) as [r1| |]];
    simpl in H; try discriminate;
    destruct (py_mod (i + 1) n) as [i1| |]; simpl in H; try discriminate;
    inversion H; apply setitem_length.
Qed.

Lemma residual_loop_length (fuel : nat) :
  forall shares residual i n out,
    residual_loop fuel shares residual i n = Ok out ->
    List.length out = List.length shares.
Proof.
  induction fuel as [|fuel IH]; intros shares residual i n out H; simpl in H; [discriminate|].
  destruct (Decimal.ne residual zero_00).
  - destruct (loop_body shares residual i n) as [[[s1 r1] i1]| |] eqn:E;
      simpl in H; try discriminate.
    apply IH in H. rewrite H. eapply loop_body_length; eassumption.
  - inversion H. reflexivity.
Qed.

Lemma even_shares_length (total : Decimal.t) (n : nat) :
  forall shares residual,
    even_shares total n = Ok (shares, residual) -> List.length shares = n.
Proof.
  intros shares residual H. unfold even_shares in H.
  destruct (Decimal.div total _) as [base| |]; simpl in H; try discriminate.
  destruct (sequence _) as [rs| |] eqn:E; simpl in H; try discriminate.
  destruct (py_sum rs) as [sm| |]; simpl in H; try discriminate.
  destruct (Decimal.sub total sm) as [r| |]; simpl in H; try discriminate.
  inversion H; subst. apply sequence_length in E.
  rewrite length_map, length_seq in E. exact E.
Qed.

Lemma percentage_shares_length (total : Decimal.t) (percentages : list Decimal.t) :
  forall shares residual,
    percentage_shares total percentages = Ok (shares, residual) ->
    List.length shares = List.length percentages.
Proof.
  intros shares residual H. unfold percentage_shares in H.
  destruct (sequence _) as [rs| |] eqn:E; simpl in H; try discriminate.
  destruct (py_sum rs) as [sm| |]; simpl in H; try discriminate.
  destruct (Decimal.sub total sm) as [r| |]; simpl in H; try discriminate.
  inversion H; subst. apply sequence_length in E.
  rewrite length_map in E. exact E.
Qed.

(** The shares the allocators pair with the names: the result for the
    default names, without the names. *)
Lemma split_evenly_names (fuel : nat) (total : Decimal.t) (n : nat)
      (names : option (list string)) :
  match split_evenly fuel total n None with
  | Ok full =>
      List.length full = n /\
      split_evenly fuel total n names =
        Ok (combine (names_or_default names n) (map snd full))
  | Raise e => split_evenly fuel total n names = Raise e
  | OutOfFuel => split_evenly fuel total n names = OutOfFuel
  end.
Proof.
  unfold split_evenly.
  destruct (even_shares total n) as [[shares residual]| |] eqn:E; cbn [bind]; try reflexivity.
  destruct (residual_loop fuel shares residual 0 n) as [out| |] eqn:L; cbn [bind];
    try reflexivity.
  apply even_shares_length in E. apply residual_loop_length in L.
  assert (Hl : List.length (names_or_default None n) = List.length out).
  { simpl. rewrite default_names_length. lia. }
  rewrite map_snd_combine by exact Hl.
  split; [|reflexivity].
  rewrite length_combine. lia.
Qed.

Lemma split_by_percentage_names (fuel : nat) (total : Decimal.t)
      (percentages : list Decimal.t) (names : option (list string)) :
  match split_by_percentage fuel total percentages None with
  | Ok full =>
      List.length full = List.length percentages /\
      split_by_percentage fuel total percentages names =
        Ok (combine (names_or_default names (List.length percentages)) (map snd full))
  | Raise e => split_by_percentage fuel total percentages names = Raise e
  | OutOfFuel => split_by_percentage fuel total percentages names = OutOfFuel
  end.
Proof.
  unfold split_by_percentage.
  destruct (percentage_shares total percentages) as [[shares residual]| |] eqn:E;
    cbn [bind]; try reflexivity.
  destruct (residual_loop fuel shares residual 0 (List.length shares)) as [out| |] eqn:L;
    cbn [bind]; try reflexivity.
  apply percentage_shares_length in E. apply residual_loop_length in L.
  assert (Hl : List.length (names_or_default None (List.length percentages))
               = List.length out).
  { simpl. rewrite default_names_length. lia. }
  rewrite map_snd_combine by exact Hl.
  split; [|reflexivity].
  rewrite length_combine. lia.
Qed.

(** C7.  Whenever an allocator returns for a names list as long as the
    participant count (the number of percentages), the result has exactly
    that many pairs; and it does return for the requests of
    [valid_total], [valid_count] and [valid_percentage]. *)
Theorem share_count :
  (forall fuel total n names result,
      List.length names = n ->
      split_evenly fuel total n (Some names) = Ok result ->
      List.length result = n) /\
  (forall fuel total percentages names result,
      List.length names = List.length percentages ->
      split_by_percentage fuel total percentages (Some names) = Ok result ->
      List.length result = List.length percentages) /\
  (forall K M total n names,
      valid_total K total -> valid_count M n -> 0 <= K -> 0 <= M -> K + M <= 24 ->
      List.length names = n ->
      exists fuel result,
        split_evenly fuel total n (Some names) = Ok result /\ List.length result = n) /\
  (forall K M total percentages names,
      valid_total K total -> Forall valid_percentage percentages ->
      valid_count M (List.length percentages) -> 0 <= K -> 0 <= M -> K + M <= 22 ->
      List.length names = List.length percentages ->
      exists fuel result,
        split_by_percentage fuel total percentages (Some names) = Ok result /\
        List.length result = List.length percentages).
Proof.
  split; [|split; [|split]].
  - intros fuel total n names result Hl H.
    pose proof (split_evenly_names fuel total n (Some names)) as S.
    destruct (split_evenly fuel total n None) as [full| |]; try congruence.
    destruct S as [Hf S]. rewrite S in H. inversion H.
    rewrite length_combine, length_map. simpl. lia.
  - intros fuel total percentages names result Hl H.
    pose proof (split_by_percentage_names fuel total percentages (Some names)) as S.
    destruct (split_by_percentage fuel total percentages None) as [full| |]; try congruence.
    destruct S as [Hf S]. rewrite S in H. inversion H.
    rewrite length_combine, length_map. simpl. lia.
  - intros K M total n names Ht Hn HK HM HKM Hl.
    destruct (split_evenly_spec total n (Some names) K M Ht Hn HK HM HKM)
      as [r [residual [out [_ [E2 [_ [_ [_ [_ [E7 _]]]]]]]]]].
    eexists. eexists. split; [exact E2|].
    rewrite length_combine. simpl. lia.
  - intros K M total percentages names Ht Hps Hn HK HM HKM Hl.
    destruct (split_by_percentage_spec total percentages (Some names) K M Ht Hps Hn HK HM HKM)
      as [shares [residual [out [_ [E2 [_ [_ [_ [_ [_ [E8 _]]]]]]]]]]].
    eexists. eexists. split; [exact E2|].
    rewrite length_combine. simpl. lia.
Qed.

(** Three names for three participants, 100.00 split evenly and by
    percentage. *)
Lemma share_count_witness :
  (exists fuel result,
      split_evenly fuel (Decimal.mk false 10000 (-2)) 3
                   (Some ["Ann"; "Bob"; "Cy"]%string) = Ok result /\
      List.length result = 3%nat) /\
  (exists fuel result,
      split_by_percentage fuel (Decimal.mk false 10000 (-2))
        [Decimal.mk false 50 0; Decimal.mk false 25 0; Decimal.mk false 25 0]
        (Some ["Ann"; "Bob"; "Cy"]%string) = Ok result /\
      List.length result = 3%nat) /\
  List.length [("Ann"%string, Decimal.mk false 3334 (-2));
               ("Bob"%string, Decimal.mk false 3333 (-2));
               ("Cy"%string, Decimal.mk false 3333 (-2))] = 3%nat.
Proof.
  assert (Ht : valid_total 3 (Decimal.mk false 10000 (-2))).
  { split; [reflexivity|simpl; lia|right; vm_compute; discriminate]. }
  destruct share_count as [A [_ [B C]]].
  split; [|split].
  - apply (B 3 1); [exact Ht|split; [lia|vm_compute; discriminate]|lia|lia|lia|reflexivity].
  - apply (C 3 1); [exact Ht| |split; [simpl; lia|vm_compute; discriminate]
                   |lia|lia|lia|reflexivity].
    repeat (apply Forall_cons; [split; [reflexivity|right; vm_compute; discriminate]|]).
    apply Forall_nil.
  - apply (A 2%nat (Decimal.mk false 10000 (-2)) 3%nat ["Ann"; "Bob"; "Cy"]%string);
      reflexivity.
Defined.

(** C9.  A names list of any length never makes an allocator fail: the
    call returns, raises or runs on exactly as it does with the default
    names, and when it returns the result pairs the names with the shares
    up to the shorter of the two lengths.  One name for three participants
    gives one pair, four names give three. *)
Theorem names_of_another_length :
  (forall fuel total n names,
      match split_evenly fuel total n None with
      | Ok full =>
          split_evenly fuel total n (Some names) = Ok (combine names (map snd full)) /\
          List.length (combine names (map snd full)) = Nat.min (List.length names) n
      | Raise e => split_evenly fuel total n (Some names) = Raise e
      | OutOfFuel => split_evenly fuel total n (Some names) = OutOfFuel
      end) /\
  (forall fuel total percentages names,
      match split_by_percentage fuel total percentages None with
      | Ok full =>
          split_by_percentage fuel total percentages (Some names)
            = Ok (combine names (map snd full)) /\
          List.length (combine names (map snd full))
            = Nat.min (List.length names) (List.length percentages)
      | Raise e => split_by_percentage fuel total percentages (Some names) = Raise e
      | OutOfFuel => split_by_percentage fuel total percentages (Some names) = OutOfFuel
      end) /\
  split_evenly 2 (Decimal.mk false 10000 (-2)) 3 (Some ["Ann"]%string)
    = Ok [("Ann"%string, Decimal.mk false 3334 (-2))] /\
  split_evenly 2 (Decimal.mk false 10000 (-2)) 3 (Some ["Ann"; "Bob"; "Cy"; "Di"]%string)
    = Ok [("Ann"%string, Decimal.mk false 3334 (-2));
          ("Bob"%string, Decimal.mk false 3333 (-2));
          ("Cy"%string, Decimal.mk false 3333 (-2))] /\
  split_by_percentage 1 (Decimal.mk false 5000 (-2))
    [Decimal.mk false 50 0; Decimal.mk false 50 0] (Some ["Ann"]%string)
    = Ok [("Ann"%string, Decimal.mk false 2500 (-2))].
Proof.
  split; [|split; [|split; [|split]]]; try reflexivity.
  - intros fuel total n names.
    pose proof (split_evenly_names fuel total n (Some names)) as S.
    destruct (split_evenly fuel total n None) as [full| |]; try exact S.
    destruct S as [Hf S]. split; [exact S|].
    rewrite length_combine, length_map. lia.
  - intros fuel total percentages names.
    pose proof (split_by_percentage_names fuel total percentages (Some names)) as S.
    destruct (split_by_percentage fuel total percentages None) as [full| |]; try exact S.
    destruct S as [Hf S]. split; [exact S|].
    rewrite length_combine, length_map. lia.
Qed.

(** ** C3: the round robin *)

Lemma nth_repeat_Z (c : Z) (n j : nat) : (j < n)%nat -> nth j (repeat c n) 0 = c.
Proof.
  revert j. induction n as [|n IH]; intros [|j] H; simpl; try lia; try reflexivity.
  apply IH. lia.
Qed.

Lemma share_of_order (m n j j' : nat) :
  (j <= j')%nat -> share_of m n j' <= share_of m n j <= share_of m n j' + 1.
Proof.
  intros H. unfold share_of.
  destruct (Nat.ltb_spec j (m mod n)); destruct (Nat.ltb_spec j' (m mod n)); lia.
Qed.

(** C3.  For the requests of [valid_total] and [valid_count], the share of
    participant [j] in the result of [split_evenly] is the rounded base
    share plus or minus one cent for each of the [share_of m n j] times
    the round robin, started at index 0 and advanced by [(i + 1) mod n],
    reaches [j] in the [m] iterations of the loop, [m] being the residual
    in cents; an earlier participant never gets fewer of these cents than
    a later one, and at most one more.  For 100.00 among three the result
    is 33.34, 33.33, 33.33. *)
Theorem residual_round_robin :
  (forall K M total n names,
      valid_total K total -> valid_count M n -> 0 <= K -> 0 <= M -> K + M <= 24 ->
      exists r residual out,
        even_shares total n = Ok (repeat r n, residual) /\
        split_evenly (S (steps residual)) total n names
          = Ok (combine (names_or_default names n) out) /\
        List.length out = n /\
        forall j, (j < n)%nat ->
          d_exp (nth j out zero_00) = -2 /\
          cents (nth j out zero_00)
            = cents r + direction residual * share_of (steps residual) n j) /\
  (forall m n j j', (j <= j')%nat ->
      share_of m n j' <= share_of m n j <= share_of m n j' + 1) /\
  split_evenly 2 (Decimal.mk false 10000 (-2)) 3 None
    = Ok [("Person 1"%string, Decimal.mk false 3334 (-2));
          ("Person 2"%string, Decimal.mk false 3333 (-2));
          ("Person 3"%string, Decimal.mk false 3333 (-2))].
Proof.
  split; [|split; [exact share_of_order|reflexivity]].
  intros K M total n names Ht Hn HK HM HKM.
  destruct (split_evenly_spec total n names K M Ht Hn HK HM HKM)
    as [r [residual [out [E1 [E2 [E3 [E4 [E5 [E6 [E7 [E8 E9]]]]]]]]]]].
  exists r, residual, out. split; [exact E1|]. split; [exact E2|]. split; [exact E7|].
  intros j Hj. split.
  - apply Forall_nth; [exact E6|lia].
  - rewrite <- nth_map_cents, E8.
    rewrite distribute_round_robin by (try rewrite repeat_length; lia).
    rewrite nth_repeat_Z by exact Hj. reflexivity.
Qed.

(** 100.00 among three: the first participant gets the extra cent. *)
Lemma residual_round_robin_witness :
  exists r residual out,
    even_shares (Decimal.mk false 10000 (-2)) 3 = Ok (repeat r 3, residual) /\
    split_evenly (S (steps residual)) (Decimal.mk false 10000 (-2)) 3 None
      = Ok (combine (names_or_default None 3) out) /\
    List.length out = 3%nat /\
    forall j, (j < 3)%nat ->
      d_exp (nth j out zero_00) = -2 /\
      cents (nth j out zero_00)
        = cents r + direction residual * share_of (steps residual) 3 j.
Proof.
  apply (proj1 residual_round_robin 3 1).
  - split; [reflexivity|simpl; lia|right; vm_compute; discriminate].
  - split; [lia|vm_compute; discriminate].
  - lia.
  - lia.
  - lia.
Defined.

(** ** C2: the residual is a number of cents, and the loop counts it down *)

Lemma dval_multiple (d : Decimal.t) :
  d_exp d = -2 -> (dval d == inject_Z (cents d) * dval cent)%Q.
Proof.
  intros He. rewrite (dval_cents d) by lia.
  unfold dval, cent, pow10Q, signed, coef. simpl.
  unfold Qeq, Qmult, Qinv, inject_Z. simpl. lia.
Qed.

Lemma counts_down_spec (B : Z) (n : nat) (shares : list Decimal.t) (residual : Decimal.t) :
  Forall (cents_in B) shares -> B <= 10 ^ 27 ->
  n = List.length shares -> (0 < n)%nat ->
  d_exp residual = -2 -> Z.abs (cents residual) <= 10 ^ 27 ->
  counts_down shares residual n.
Proof.
  intros Hall HB Hn Hn0 Er Hr.
  destruct (direction_cents residual ltac:(lia)) as [Hd Hc].
  pose proof (pow10_pos 27 ltac:(lia)) as P27.
  assert (Hst : Z.of_nat (steps residual) <= 10 ^ 27).
  { unfold steps. rewrite Zabs2Nat.id_abs. assumption. }
  assert (Hok : Forall (share_ok (Z.of_nat (steps residual))) shares).
  { eapply Forall_impl; [|exact Hall]. intros s [Es Cs]. split; [assumption|].
    rewrite pow10_27_28. lia. }
  split.
  - intros k Hk.
    destruct (iterate_body_spec (direction residual) n Hd k (steps residual)
                shares residual 0%nat) as [sk [rk [ik [I1 [I2 I3]]]]];
      try assumption; try lia.
    exists sk, rk, ik. split; [exact I1|].
    exists (cents rk). split; [apply dval_multiple; exact I2|].
    rewrite I3. destruct Hd as [Hd|Hd]; rewrite Hd; lia.
  - destruct (reconcile B n shares residual) as [out [L1 _]]; try assumption.
    exists out. exact L1.
Qed.



(** *** Beyond the precision: sums of many equal shares *)














(** ** C5: round half up *)

Lemma pow10Q_pos (e : Z) : (0 < pow10Q e)%Q.
Proof.
  unfold pow10Q. destruct (Z.leb_spec 0 e).
  - pose proof (pow10_pos e ltac:(lia)). unfold Qlt, inject_Z. simpl. lia.
  - pose proof (pow10_pos (- e) ltac:(lia)). apply Qinv_lt_0_compat.
    unfold Qlt, inject_Z. simpl. lia.
Qed.

Lemma Qabs_dval (d : Decimal.t) :
  (Qabs (dval d) == inject_Z (coef d) * pow10Q (d_exp d))%Q.
Proof.
  unfold dval. rewrite Qabs_Qmult.
  rewrite (Qabs_pos (pow10Q _)) by (apply Qlt_le_weak, pow10Q_pos).
  change (Qabs (inject_Z (signed d))) with (inject_Z (Z.abs (signed d))).
  rewrite signed_abs. reflexivity.
Qed.

Lemma inject_Z_nonzero (z : Z) : 0 < z -> ~ (inject_Z z == 0)%Q.
Proof. intros H E. unfold Qeq, inject_Z in E. simpl in E. lia. Qed.

Lemma Qfloor_half (z : Z) : Qfloor (inject_Z (2 * z + 1) / inject_Z 2) = z.
Proof.
  rewrite <- Zdiv_Qdiv. symmetry. apply Z.div_unique with (r := 1); lia.
Qed.

(** The coefficient [round_money] computes is the one the specification
    words: the nearest whole number of minor units, a tie going away from
    zero. *)
Lemma round_half_up_spec_coef (d : Decimal.t) :
  round_half_up_spec (dval d) = half_up_coef d.
Proof.
  unfold round_half_up_spec, half_up_coef.
  rewrite (Qfloor_comp _ _ (Qplus_comp _ _ (Qmult_comp _ _ (Qabs_dval d) _ _ (Qeq_refl 100))
                                       _ _ (Qeq_refl (1 # 2)))).
  pose proof (coef_nonneg d) as Hc.
  unfold pow10Q.
  destruct (Z.leb_spec (-2) (d_exp d)) as [He|He].
  - set (z := coef d * 10 ^ (d_exp d + 2)).
    rewrite <- (Qfloor_half z). apply Qfloor_comp.
    destruct (Z.leb_spec 0 (d_exp d)) as [H0|H0].
    + unfold z. rewrite Z.pow_add_r by lia. change (10 ^ 2) with 100.
      rewrite inject_Z_plus, !inject_Z_mult. field.
    + assert (Hc2 : d_exp d = -1 \/ d_exp d = -2) by lia.
      destruct Hc2 as [E|E]; unfold z; rewrite E.
      * change (10 ^ (- (-1))) with 10. change (10 ^ (-1 + 2)) with 10.
        rewrite inject_Z_plus, !inject_Z_mult. field.
      * change (10 ^ (- (-2))) with 100. change (10 ^ (-2 + 2)) with 1.
        rewrite inject_Z_plus, !inject_Z_mult. field.
  - destruct (Z.leb_spec 0 (d_exp d)); [lia|].
    set (k := -2 - d_exp d). assert (Hk : 0 < k) by (unfold k; lia).
    replace (- d_exp d) with (k + 2) by (unfold k; lia).
    replace (-3 - d_exp d) with (k - 1) by (unfold k; lia).
    pose proof (pow10_pos k ltac:(lia)) as Pk.
    pose proof (pow10_pos (k - 1) ltac:(lia)) as Pk1.
    assert (Hk10 : 10 ^ k = 10 * 10 ^ (k - 1)).
    { replace k with (k - 1 + 1) at 1 by lia. apply pow10_S; lia. }
    rewrite Z.pow_add_r by lia. change (10 ^ 2) with 100.
    transitivity (Qfloor (inject_Z (2 * (coef d + 5 * 10 ^ (k - 1)))
                          / inject_Z (2 * 10 ^ k))).
    + apply Qfloor_comp.
      rewrite Hk10. rewrite !inject_Z_mult, !inject_Z_plus, !inject_Z_mult.
      field. apply inject_Z_nonzero. assumption.
    + rewrite <- Zdiv_Qdiv. apply Z.div_mul_cancel_l; lia.
Qed.

(** C5, as amended.  [round_money] returns the amount rounded to the
    nearest multiple of 0.01 with a tie going away from zero, whenever the
    rounded magnitude has at most 28 digits (fewer than [10^28] minor
    units); beyond that it raises InvalidOperation.  At a tie
    [|amount| * 100 = m + 1/2] the result has [m + 1] minor units and the
    sign of the amount.  0.125 gives 0.13, where ROUND_HALF_EVEN gives
    0.12. *)
Theorem round_money_half_up :
  (forall d,
      round_money d =
      if round_half_up_spec (dval d) <? 10 ^ 28
      then Ok (mkd (d_sign d) (round_half_up_spec (dval d)) (-2))
      else Raise InvalidOperation) /\
  (forall d r m,
      round_money d = Ok r ->
      (Qabs (dval d) * 100 == inject_Z m + (1 # 2))%Q ->
      d_sign r = d_sign d /\ d_exp r = -2 /\ coef r = m + 1) /\
  round_money (Decimal.mk false 125 (-3)) = Ok (Decimal.mk false 13 (-2)) /\
  round_money (Decimal.mk true 125 (-3)) = Ok (Decimal.mk true 13 (-2)) /\
  Decimal.quantize (Decimal.mk false 125 (-3)) cent ROUND_HALF_EVEN
    = Ok (Decimal.mk false 12 (-2)).
Proof.
  split; [|split; [|repeat split; reflexivity]].
  - intros d. rewrite round_half_up_spec_coef. apply round_money_char.
  - intros d r m Hr Htie.
    rewrite round_money_char in Hr.
    assert (Hm : half_up_coef d = m + 1).
    { rewrite <- round_half_up_spec_coef. unfold round_half_up_spec.
      rewrite (Qfloor_comp _ (inject_Z (m + 1))).
      - apply Qfloor_Z.
      - rewrite Htie, inject_Z_plus. unfold Qeq, Qplus, inject_Z. simpl. lia. }
    pose proof (half_up_coef_nonneg d) as Hn.
    destruct (Z.ltb_spec (half_up_coef d) (10 ^ 28)); [|discriminate].
    inversion Hr; subst r. simpl d_sign. simpl d_exp.
    rewrite coef_mkd by assumption. auto.
Qed.

(** The tie 0.125. *)
Lemma round_money_half_up_witness :
  d_sign (Decimal.mk false 13 (-2)) = d_sign (Decimal.mk false 125 (-3)) /\
  d_exp (Decimal.mk false 13 (-2)) = -2 /\
  coef (Decimal.mk false 13 (-2)) = 12 + 1.
Proof.
  apply (proj1 (proj2 round_money_half_up) (Decimal.mk false 125 (-3))
               (Decimal.mk false 13 (-2)) 12).
  - reflexivity.
  - vm_compute. reflexivity.
Defined.

(** C5 as stated fails for amounts of 10^26 and more: the tie
    100000000000000000000000000.005 is not rounded to ....01;
    [round_money] raises InvalidOperation. *)
Lemma round_money_rejects_29_digits :
  (Qabs (dval (Decimal.mk false 100000000000000000000000000005 (-3))) * 100
     == inject_Z (10 ^ 28) + (1 # 2))%Q /\
  round_money (Decimal.mk false 100000000000000000000000000005 (-3))
    = Raise InvalidOperation /\
  forall r, round_money (Decimal.mk false 100000000000000000000000000005 (-3)) <> Ok r.
Proof.
  split; [vm_compute; reflexivity|]. split; [vm_compute; reflexivity|].
  intros r H. vm_compute in H. discriminate.
Qed.

(** ** C4: the tolerance on the sum of the percentages *)

Lemma pow10Q_add (a b : Z) :
  0 <= a -> (pow10Q (a + b) == inject_Z (10 ^ a) * pow10Q b)%Q.
Proof.
  intros Ha. unfold pow10Q.
  pose proof (pow10_pos a Ha) as Pa.
  destruct (Z.leb_spec 0 b) as [Hb|Hb]; destruct (Z.leb_spec 0 (a + b)) as [Hab|Hab];
    try lia.
  - rewrite Z.pow_add_r by lia. rewrite inject_Z_mult. reflexivity.
  - pose proof (pow10_pos (- b) ltac:(lia)) as Pb.
    assert (E : 10 ^ a = 10 ^ (a + b) * 10 ^ (- b)).
    { rewrite <- Z.pow_add_r by lia. f_equal. lia. }
    rewrite E, inject_Z_mult. field. apply inject_Z_nonzero. assumption.
  - pose proof (pow10_pos (- b) ltac:(lia)) as Pb.
    pose proof (pow10_pos (- (a + b)) ltac:(lia)) as Pab.
    assert (E : 10 ^ (- b) = 10 ^ a * 10 ^ (- (a + b))).
    { rewrite <- Z.pow_add_r by lia. f_equal. lia. }
    rewrite E, inject_Z_mult. field.
    split; apply inject_Z_nonzero; assumption.
Qed.

Lemma dval_scaled (m : Z) (d : Decimal.t) :
  m <= d_exp d -> (dval d == inject_Z (scaled m d) * pow10Q m)%Q.
Proof.
  intros Hm. unfold dval, scaled.
  replace (d_exp d) with ((d_exp d - m) + m) at 1 by lia.
  rewrite pow10Q_add by lia. rewrite inject_Z_mult. ring.
Qed.

Lemma scaled_magnitude (m : Z) (x y : Decimal.t) :
  m <= d_exp x -> m <= d_exp y -> 0 < coef x -> 0 < coef y ->
  adjusted y < adjusted x ->
  coef y * 10 ^ (d_exp y - m) < coef x * 10 ^ (d_exp x - m).
Proof.
  intros Hx Hy Zx Zy Ha. unfold adjusted in Ha.
  destruct (ndigits_spec (coef x) Zx) as [Lx _].
  destruct (ndigits_spec (coef y) Zy) as [_ Uy].
  pose proof (ndigits_pos (coef x)) as Px. pose proof (ndigits_pos (coef y)) as Py.
  pose proof (pow10_pos (d_exp x - m) ltac:(lia)) as P1.
  pose proof (pow10_pos (d_exp y - m) ltac:(lia)) as P2.
  assert (H1 : 10 ^ (ndigits (coef y) + (d_exp y - m))
               <= 10 ^ (ndigits (coef x) - 1 + (d_exp x - m)))
    by (apply pow10_le; lia).
  rewrite !Z.pow_add_r in H1 by lia. nia.
Qed.

(** [_cmp] compares values: it is the comparison of the coefficients
    brought to the smaller exponent. *)
Lemma cmp_scaled (x y : Decimal.t) :
  _cmp x y = (scaled (Z.min (d_exp x) (d_exp y)) x ?= scaled (Z.min (d_exp x) (d_exp y)) y).
Proof.
  set (m := Z.min (d_exp x) (d_exp y)).
  assert (Hx : m <= d_exp x) by (unfold m; lia).
  assert (Hy : m <= d_exp y) by (unfold m; lia).
  pose proof (pow10_pos (d_exp x - m) ltac:(lia)) as P1.
  pose proof (pow10_pos (d_exp y - m) ltac:(lia)) as P2.
  pose proof (coef_nonneg x) as Nx. pose proof (coef_nonneg y) as Ny.
  unfold _cmp, scaled, signed.
  destruct (is_zero x) eqn:Zx; destruct (is_zero y) eqn:Zy.
  - apply is_zero_true in Zx, Zy. rewrite Zx, Zy.
    destruct (d_sign x), (d_sign y); reflexivity.
  - apply is_zero_true in Zx. apply is_zero_false in Zy. rewrite Zx.
    replace ((if d_sign x then - 0 else 0) * 10 ^ (d_exp x - m)) with 0
      by (destruct (d_sign x); reflexivity).
    symmetry. destruct (d_sign y); cbn [sign_cmp CompOpp];
      [apply Z.compare_gt_iff|apply Z.compare_lt_iff]; nia.
  - apply is_zero_true in Zy. apply is_zero_false in Zx. rewrite Zy.
    replace ((if d_sign y then - 0 else 0) * 10 ^ (d_exp y - m)) with 0
      by (destruct (d_sign y); reflexivity).
    symmetry. destruct (d_sign x); cbn [sign_cmp];
      [apply Z.compare_lt_iff|apply Z.compare_gt_iff]; nia.
  - apply is_zero_false in Zx, Zy.
    assert (Hpx : Z.max 0 (d_exp x - d_exp y) = d_exp x - m) by (unfold m; lia).
    assert (Hpy : Z.max 0 (d_exp y - d_exp x) = d_exp y - m) by (unfold m; lia).
    rewrite Hpx, Hpy.
    set (Mx := coef x * 10 ^ (d_exp x - m)). set (My := coef y * 10 ^ (d_exp y - m)).
    assert (HMx : 0 < Mx) by (unfold Mx; nia).
    assert (HMy : 0 < My) by (unfold My; nia).
    assert (Hgt : adjusted y < adjusted x -> My < Mx)
      by (apply scaled_magnitude; assumption).
    assert (Hlt : adjusted x < adjusted y -> Mx < My)
      by (apply scaled_magnitude; assumption).
    replace (- coef x * 10 ^ (d_exp x - m)) with (- Mx) by (unfold Mx; lia).
    replace (- coef y * 10 ^ (d_exp y - m)) with (- My) by (unfold My; lia).
    fold Mx. fold My.
    destruct (d_sign x), (d_sign y); cbn [negb andb sign_cmp CompOpp];
      try (symmetry; apply Z.compare_lt_iff; lia);
      try (symmetry; apply Z.compare_gt_iff; lia).
    + destruct (Z.compare_spec (adjusted x) (adjusted y)) as [E|E|E].
      * destruct (Z.compare_spec Mx My); symmetry;
          [apply Z.compare_eq_iff|apply Z.compare_gt_iff|apply Z.compare_lt_iff]; lia.
      * specialize (Hlt E). symmetry. apply Z.compare_gt_iff. lia.
      * specialize (Hgt E). symmetry. apply Z.compare_lt_iff. lia.
    + destruct (Z.compare_spec (adjusted x) (adjusted y)) as [E|E|E].
      * destruct (Z.compare_spec Mx My); symmetry;
          [apply Z.compare_eq_iff|apply Z.compare_lt_iff|apply Z.compare_gt_iff]; lia.
      * specialize (Hlt E). symmetry. apply Z.compare_lt_iff. lia.
      * specialize (Hgt E). symmetry. apply Z.compare_gt_iff. lia.
Qed.

Lemma scaled_Qle (m : Z) (x y : Decimal.t) :
  m <= d_exp x -> m <= d_exp y ->
  ((dval x <= dval y)%Q <-> scaled m x <= scaled m y).
Proof.
  intros Hx Hy. rewrite (dval_scaled m x Hx), (dval_scaled m y Hy).
  rewrite Qmult_le_r by apply pow10Q_pos. rewrite <- Zle_Qle. reflexivity.
Qed.

(** [<=] on decimals is [<=] on their values. *)
Lemma le_spec (x y : Decimal.t) : Decimal.le x y = true <-> (dval x <= dval y)%Q.
Proof.
  unfold Decimal.le. rewrite cmp_scaled.
  rewrite (scaled_Qle (Z.min (d_exp x) (d_exp y))) by lia.
  destruct (Z.compare_spec (scaled (Z.min (d_exp x) (d_exp y)) x)
                           (scaled (Z.min (d_exp x) (d_exp y)) y));
    split; intros; try reflexivity; try lia; try discriminate.
Qed.

Lemma within_tolerance_spec (s : Decimal.t) :
  exists b, within_tolerance s = Ok b /\
            (b = true <-> (9999 # 100 <= dval s /\ dval s <= 10001 # 100)%Q).
Proof.
  exists (Decimal.le (Decimal.mk false 9999 (-2)) s && Decimal.le s (Decimal.mk false 10001 (-2))).
  split; [reflexivity|].
  rewrite andb_true_iff, !le_spec.
  assert (Hlo : (dval (Decimal.mk false 9999 (-2)) == 9999 # 100)%Q)
    by (apply Qeq_bool_iff; vm_compute; reflexivity).
  assert (Hhi : (dval (Decimal.mk false 10001 (-2)) == 10001 # 100)%Q)
    by (apply Qeq_bool_iff; vm_compute; reflexivity).
  rewrite Hlo, Hhi. reflexivity.
Qed.

(** ** Sums the context holds exactly, at any number of decimal places *)

Lemma scaled_split (m m' : Z) (d : Decimal.t) :
  m <= m' -> m' <= d_exp d -> scaled m d = scaled m' d * 10 ^ (m' - m).
Proof.
  intros H1 H2. unfold scaled.
  replace (d_exp d - m) with ((d_exp d - m') + (m' - m)) by lia.
  rewrite Z.pow_add_r by lia. ring.
Qed.

Lemma scaled_nonneg (m : Z) (d : Decimal.t) :
  nonneg d -> m <= d_exp d -> 0 <= scaled m d /\ scaled m d = coef d * 10 ^ (d_exp d - m).
Proof.
  intros Hn Hm. apply nonneg_iff in Hn. unfold scaled, signed.
  pose proof (coef_nonneg d). pose proof (pow10_pos (d_exp d - m) ltac:(lia)).
  destruct Hn as [Hs|Hz].
  - rewrite Hs. split; [nia|reflexivity].
  - rewrite Hz. destruct (d_sign d); split; reflexivity.
Qed.

Lemma sum_scaled_nonneg (m : Z) (xs : list Decimal.t) :
  Forall (fun p => nonneg p /\ m <= d_exp p) xs -> 0 <= sum_Z (map (scaled m) xs).
Proof.
  induction 1 as [|p xs [Hn Hm] _ IH]; [simpl; lia|].
  cbn [map sum_Z fold_right]. fold (sum_Z (map (scaled m) xs)).
  pose proof (proj1 (scaled_nonneg m p Hn Hm)). lia.
Qed.

Lemma sum_fold_exact (m : Z) (rest : list Decimal.t) :
  Etiny <= m ->
  forall acc : Decimal.t,
    m <= d_exp acc <= 0 -> 0 <= signed acc ->
    Forall (fun p => nonneg p /\ m <= d_exp p) rest ->
    scaled m acc + sum_Z (map (scaled m) rest) < 10 ^ 28 ->
    exists z,
      fold_left (fun acc0 y => a <- acc0 ;; Decimal.add a y) rest (Ok acc) = Ok z /\
      m <= d_exp z <= 0 /\
      scaled m z = scaled m acc + sum_Z (map (scaled m) rest).
Proof.
  intros Hm0. induction rest as [|y rest IH]; intros acc Ea Sa Hall Hsum.
  - exists acc. cbn. repeat split; lia.
  - inversion Hall as [|y' rest' [Ny Ey] Hrest]; subst.
    cbn [map sum_Z fold_right] in Hsum. fold (sum_Z (map (scaled m) rest)) in Hsum.
    pose proof (sum_scaled_nonneg m rest Hrest) as Hnn.
    destruct (scaled_nonneg m y Ny Ey) as [Sy0 Sy].
    set (m' := Z.min (d_exp acc) (d_exp y)).
    assert (Hm' : m <= m' <= 0) by (unfold m'; lia).
    pose proof (pow10_pos (m' - m) ltac:(lia)) as Pm.
    pose proof (scaled_split m m' acc ltac:(lia) ltac:(unfold m'; lia)) as Ha.
    pose proof (scaled_split m m' y ltac:(lia) ltac:(unfold m'; lia)) as Hy.
    assert (Sa' : 0 <= scaled m' acc).
    { unfold scaled. pose proof (pow10_pos (d_exp acc - m') ltac:(unfold m'; lia)). nia. }
    destruct (scaled_nonneg m' y Ny ltac:(unfold m'; lia)) as [Sy0' Sy'].
    assert (Sac : scaled m' acc = coef acc * 10 ^ (d_exp acc - m')).
    { unfold scaled. f_equal. unfold signed in *. pose proof (coef_nonneg acc).
      destruct (d_sign acc); lia. }
    destruct (add_exact acc y m') as [z [A1 [A2 A3]]].
    { reflexivity. }
    { ctx. lia. }
    { rewrite <- Sac. nia. }
    { rewrite <- Sy'. nia. }
    { nia. }
    cbn [fold_left bind]. rewrite A1.
    assert (Sz : scaled m z = scaled m acc + scaled m y).
    { unfold scaled at 1. rewrite A2, A3. fold m'. rewrite Ha, Hy. ring. }
    destruct (IH z ltac:(lia) ltac:(lia) Hrest ltac:(lia)) as [w [W1 [W2 W3]]].
    exists w. split; [exact W1|]. split; [exact W2|].
    cbn [map sum_Z fold_right]. fold (sum_Z (map (scaled m) rest)). lia.
Qed.

Lemma sum_Q_scaled (m : Z) (l : list Decimal.t) :
  Forall (fun p => m <= d_exp p) l ->
  (sum_Q (map dval l) == inject_Z (sum_Z (map (scaled m) l)) * pow10Q m)%Q.
Proof.
  induction 1 as [|d l Hd _ IH]; cbn [map sum_Q sum_Z fold_right].
  - ring.
  - fold (sum_Q (map dval l)). fold (sum_Z (map (scaled m) l)).
    rewrite IH, (dval_scaled m d Hd), inject_Z_plus. ring.
Qed.

(** [sum] over numbers that are not negative is exact when the sum,
    written with the decimal places of its longest term, has at most 28
    digits. *)
Lemma py_sum_exact (m : Z) (xs : list Decimal.t) :
  Etiny <= m <= 0 ->
  Forall (fun p => nonneg p /\ m <= d_exp p) xs ->
  sum_Z (map (scaled m) xs) < 10 ^ 28 ->
  exists s, py_sum xs = Ok s /\ (dval s == sum_Q (map dval xs))%Q.
Proof.
  intros Hm Hall Hsum.
  assert (Hexp : Forall (fun p => m <= d_exp p) xs).
  { eapply Forall_impl; [|exact Hall]. intros a [_ H]. exact H. }
  destruct xs as [|x rest].
  - exists (Decimal.of_Z 0). split; [reflexivity|]. reflexivity.
  - inversion Hall as [|x' rest' [Nx Ex] Hrest]; subst.
    cbn [map sum_Z fold_right] in Hsum. fold (sum_Z (map (scaled m) rest)) in Hsum.
    pose proof (sum_scaled_nonneg m rest Hrest) as Hnn.
    destruct (scaled_nonneg m x Nx Ex) as [Sx0 Sx].
    set (m' := Z.min (d_exp x) (d_exp (Decimal.of_Z 0))).
    assert (Hm' : m <= m' <= 0) by (unfold m'; simpl; lia).
    pose proof (pow10_pos (m' - m) ltac:(lia)) as Pm.
    pose proof (scaled_split m m' x ltac:(lia) ltac:(unfold m'; lia)) as Hx.
    destruct (scaled_nonneg m' x Nx ltac:(unfold m'; lia)) as [Sx0' Sx'].
    destruct (add_exact x (Decimal.of_Z 0) m') as [z [A1 [A2 A3]]].
    { reflexivity. }
    { ctx. lia. }
    { rewrite <- Sx'. nia. }
    { change (coef (Decimal.of_Z 0)) with 0. rewrite Z.mul_0_l. reflexivity. }
    { change (scaled m' (Decimal.of_Z 0)) with (0 * 10 ^ (0 - m')). nia. }
    change (scaled m' (Decimal.of_Z 0)) with (0 * 10 ^ (0 - m')) in A3.
    assert (Sz : scaled m z = scaled m x).
    { unfold scaled at 1. rewrite A2, A3. rewrite Hx. ring. }
    destruct (sum_fold_exact m rest (proj1 Hm) z ltac:(lia) ltac:(lia) Hrest ltac:(lia))
      as [w [W1 [W2 W3]]].
    exists w. unfold py_sum. rewrite A1. split; [exact W1|].
    rewrite (dval_scaled m w) by lia. rewrite (sum_Q_scaled m (x :: rest) Hexp).
    cbn [map sum_Z fold_right]. fold (sum_Z (map (scaled m) rest)).
    rewrite W3, Sz. reflexivity.
Qed.

(** ** The percentage branch *)

(** [split_by_percentage] with as many names as percentages, within the
    precision: every name keeps its place, and the shares sum to the
    total. *)
Lemma split_by_percentage_exact (total : Decimal.t) (percentages : list Decimal.t)
      (names : list string) (rounded : list Decimal.t) :
  percentages <> [] -> Forall nonneg percentages ->
  List.length names = List.length percentages ->
  percentage_rounded total percentages = Ok rounded -> within_precision total rounded ->
  exists fuel result,
    split_by_percentage fuel total percentages (Some names) = Ok result /\
    map fst result = names /\
    List.length result = List.length percentages /\
    (total_of result == dval total)%Q.
Proof.
  intros Hne Hps Hlen Hr Hw.
  destruct (split_by_percentage_tight total percentages (Some names) rounded Hne Hps Hr Hw)
    as [residual [out [E1 [E2 [E3 [E4 [E5 [E6 [E7 [E8 E9]]]]]]]]]].
  destruct Hw as [Hnn [Hfit _]].
  cbn [names_or_default] in E5.
  assert (Hn0 : (0 < List.length percentages)%nat).
  { destruct percentages; [contradiction Hne; reflexivity|cbn [List.length]; lia]. }
  exists (S (steps residual)), (combine names out).
  split; [exact E5|]. split; [apply map_fst_combine; lia|].
  split; [rewrite length_combine; lia|].
  rewrite total_of_combine by (try assumption; lia).
  rewrite (dval_cents total) by apply Hfit.
  destruct (direction_cents residual E3) as [_ Hd].
  rewrite E8, distribute_sum; [|lia|rewrite length_map; lia].
  rewrite <- Hd, E4. unfold Qeq. simpl. lia.
Qed.

Lemma py_sum_nil_outside (s : Decimal.t) :
  py_sum [] = Ok s -> ~ (9999 # 100 <= dval s)%Q.
Proof.
  intros H. inversion H. intros Hle. apply Qle_bool_iff in Hle.
  vm_compute in Hle. discriminate Hle.
Qed.

(** C4, as amended.  [run_single_split] tests the band on the sum of the
    percentages as [sum] computes it, in 28 significant digits; this is
    the exact sum whenever the exact sum, written with the decimal places
    of the longest percentage, has at most 28 digits.  When the computed
    sum [s] is below 99.99 or above 100.01 the percentage branch reports
    [s] (the message [Percentages sum to {total_percent}%...]) and makes
    no allocation.  When [s] is inside the band the branch is the call of
    [split_by_percentage], with its outcome; within the precision of the
    context (a total that is not negative, has at most two decimal places
    and fewer than [10^28] minor units, percentages that are not negative,
    as many names as percentages, rounded shares that [sum] adds without
    rounding, a residual of fewer than [10^28] minor units) the call
    returns an allocation that pairs every name with a share, in order,
    and whose shares sum to the total.  The percentages 40, 40, 19 are
    reported with their sum 99. *)
Theorem percentage_sum_tolerance :
  (forall fuel total percentages names s,
      py_sum percentages = Ok s ->
      (dval s < 9999 # 100 \/ 10001 # 100 < dval s)%Q ->
      percentage_branch fuel total percentages names = Ok (ReenterSplit s)) /\
  (forall fuel total percentages names s,
      py_sum percentages = Ok s ->
      (9999 # 100 <= dval s /\ dval s <= 10001 # 100)%Q ->
      percentage_branch fuel total percentages names =
        (result <- split_by_percentage fuel total percentages (Some names) ;;
         Ok (Allocation result))) /\
  (forall total percentages names s rounded,
      py_sum percentages = Ok s ->
      (9999 # 100 <= dval s /\ dval s <= 10001 # 100)%Q ->
      Forall nonneg percentages ->
      List.length names = List.length percentages ->
      percentage_rounded total percentages = Ok rounded ->
      within_precision total rounded ->
      exists fuel result,
        percentage_branch fuel total percentages names = Ok (Allocation result) /\
        split_by_percentage fuel total percentages (Some names) = Ok result /\
        map fst result = names /\
        List.length result = List.length percentages /\
        (total_of result == dval total)%Q) /\
  (forall m percentages,
      Etiny <= m <= 0 ->
      Forall (fun p => nonneg p /\ m <= d_exp p) percentages ->
      sum_Z (map (scaled m) percentages) < 10 ^ 28 ->
      exists s,
        py_sum percentages = Ok s /\ (dval s == sum_Q (map dval percentages))%Q) /\
  percentage_branch 1 (Decimal.mk false 10000 (-2))
    [Decimal.mk false 40 0; Decimal.mk false 40 0; Decimal.mk false 19 0]
    ["Ann"; "Bob"; "Cy"]%string
    = Ok (ReenterSplit (Decimal.mk false 99 0)).
Proof.
  split; [|split; [|split; [|split; [|reflexivity]]]].
  - intros fuel total percentages names s Hs Hout.
    unfold percentage_branch. rewrite Hs. cbn [bind].
    destruct (within_tolerance_spec s) as [b [Hb Hiff]]. rewrite Hb. cbn [bind].
    destruct b; [|reflexivity].
    exfalso. destruct (proj1 Hiff eq_refl) as [H1 H2].
    destruct Hout as [H|H].
    + apply (Qlt_not_le _ _ H). exact H1.
    + apply (Qlt_not_le _ _ H). exact H2.
  - intros fuel total percentages names s Hs Hin.
    unfold percentage_branch. rewrite Hs. cbn [bind].
    destruct (within_tolerance_spec s) as [b [Hb Hiff]]. rewrite Hb. cbn [bind].
    rewrite (proj2 Hiff Hin). reflexivity.
  - intros total percentages names s rounded Hs Hin Hps Hlen Hr Hw.
    assert (Hne : percentages <> []).
    { intros E. subst percentages. apply (py_sum_nil_outside s Hs). apply Hin. }
    destruct (split_by_percentage_exact total percentages names rounded Hne Hps Hlen Hr Hw)
      as [fuel [result [E1 [E2 [E3 E4]]]]].
    exists fuel, result. split; [|repeat split; assumption].
    unfold percentage_branch. rewrite Hs. cbn [bind].
    destruct (within_tolerance_spec s) as [b [Hb Hiff]]. rewrite Hb. cbn [bind].
    rewrite (proj2 Hiff Hin). cbn [negb]. rewrite E1. reflexivity.
  - intros m percentages Hm Hall Hsum. apply (py_sum_exact m); assumption.
Qed.

(** The percentages 40, 40, 19 sum to 99, outside the band; 33.33, 33.33
    and 33.33 sum to 99.99, inside, and 100.00 is allocated with a residual
    of one cent; the sum of 33.33, 33.33 and 33.335 is exact. *)
Lemma percentage_sum_tolerance_witness :
  percentage_branch 1 (Decimal.mk false 10000 (-2))
    [Decimal.mk false 40 0; Decimal.mk false 40 0; Decimal.mk false 19 0]
    ["Ann"; "Bob"; "Cy"]%string
    = Ok (ReenterSplit (Decimal.mk false 99 0)) /\
  (exists fuel result,
      percentage_branch fuel (Decimal.mk false 10000 (-2))
        [Decimal.mk false 3333 (-2); Decimal.mk false 3333 (-2); Decimal.mk false 3333 (-2)]
        ["Ann"; "Bob"; "Cy"]%string
        = Ok (Allocation result) /\
      split_by_percentage fuel (Decimal.mk false 10000 (-2))
        [Decimal.mk false 3333 (-2); Decimal.mk false 3333 (-2); Decimal.mk false 3333 (-2)]
        (Some ["Ann"; "Bob"; "Cy"]%string) = Ok result /\
      map fst result = ["Ann"; "Bob"; "Cy"]%string /\
      List.length result = 3%nat /\
      (total_of result == dval (Decimal.mk false 10000 (-2)))%Q) /\
  (exists s,
      py_sum [Decimal.mk false 3333 (-2); Decimal.mk false 3333 (-2);
              Decimal.mk false 33335 (-3)] = Ok s /\
      (dval s == sum_Q (map dval [Decimal.mk false 3333 (-2); Decimal.mk false 3333 (-2);
                                  Decimal.mk false 33335 (-3)]))%Q).
Proof.
  destruct percentage_sum_tolerance as [Hout [_ [Hin [Hex _]]]].
  split; [|split].
  - apply Hout; [reflexivity|]. left. vm_compute. reflexivity.
  - apply (Hin (Decimal.mk false 10000 (-2))
               [Decimal.mk false 3333 (-2); Decimal.mk false 3333 (-2);
                Decimal.mk false 3333 (-2)]
               ["Ann"; "Bob"; "Cy"]%string
               (Decimal.mk false 9999 (-2))
               [Decimal.mk false 3333 (-2); Decimal.mk false 3333 (-2);
                Decimal.mk false 3333 (-2)]).
    + reflexivity.
    + split; vm_compute; discriminate.
    + repeat (apply Forall_cons; [reflexivity|]). apply Forall_nil.
    + reflexivity.
    + vm_compute. reflexivity.
    + split; [reflexivity|]. split; [split; [simpl; lia|vm_compute; reflexivity]|].
      split; [|vm_compute; reflexivity].
      exists (Decimal.mk false 9999 (-2)). split; [reflexivity|].
      apply Qeq_bool_iff. vm_compute. reflexivity.
  - apply (Hex (-3)).
    + vm_compute. split; discriminate.
    + repeat (apply Forall_cons; [split; [reflexivity|simpl; lia]|]). apply Forall_nil.
    + vm_compute. reflexivity.
Defined.

(** C4 as stated fails, both ways.  The single percentage
    100.0100000000000000000000000004 is above the band, but its sum is
    computed as 100.0100000000000000000000000 and the total 100.00 is
    allocated.  The single percentage 100 is inside the band, but with the
    total 10.005 the call of [split_by_percentage] never returns: the
    residual is -0.005, which steps of one cent do not bring to zero. *)
Lemma percentage_band_on_the_rounded_sum :
  ((10001 # 100 < dval above_band)%Q /\
   forall fuel,
     percentage_branch (S (S fuel)) (Decimal.mk false 10000 (-2)) [above_band]
                       ["Ann"%string]
     = Ok (Allocation [("Ann"%string, Decimal.mk false 10000 (-2))])) /\
  (py_sum [Decimal.mk false 100 0] = Ok (Decimal.mk false 100 0) /\
   (9999 # 100 <= dval (Decimal.mk false 100 0)
    /\ dval (Decimal.mk false 100 0) <= 10001 # 100)%Q /\
   forall fuel,
     percentage_branch fuel total_three_places [Decimal.mk false 100 0] ["Ann"%string]
     = OutOfFuel).
Proof.
  split; [split|split; [|split]].
  - vm_compute. reflexivity.
  - intros fuel. vm_compute. reflexivity.
  - reflexivity.
  - split; vm_compute; discriminate.
  - intros fuel. unfold percentage_branch.
    change (py_sum [Decimal.mk false 100 0]) with (Ok (Decimal.mk false 100 0)).
    cbn [bind].
    change (within_tolerance (Decimal.mk false 100 0)) with (Ok true).
    cbn [bind negb]. unfold split_by_percentage.
    change (percentage_shares total_three_places [Decimal.mk false 100 0])
      with (Ok ([Decimal.mk false 1001 (-2)], Decimal.mk true 5 (-3))).
    cbn [bind List.length]. rewrite (proj1 (single_share_cycle fuel)). reflexivity.
Qed.

(** ** C10: commas and dollar signs anywhere *)

Lemma strip_rstrip_lstrip (s : list ascii) : strip s = rstrip (lstrip s).
Proof. reflexivity. Qed.

Lemma space_not_char (x c : ascii) :
  isspace x = true -> isspace c = false -> Ascii.eqb x c = false.
Proof.
  intros Hx Hc. destruct (Ascii.eqb_spec x c) as [E|E]; [|reflexivity].
  subst. congruence.
Qed.

Lemma lstrip_remove (c : ascii) (s : list ascii) :
  isspace c = false -> lstrip (remove_char c (lstrip s)) = lstrip (remove_char c s).
Proof.
  intros Hc. induction s as [|x r IH]; [reflexivity|].
  cbn [lstrip]. destruct (isspace x) eqn:Hx; [|reflexivity].
  rewrite IH. unfold remove_char. cbn [filter].
  rewrite (space_not_char x c Hx Hc). cbn [negb lstrip]. rewrite Hx. reflexivity.
Qed.

Lemma remove_char_rev (c : ascii) (s : list ascii) :
  remove_char c (rev s) = rev (remove_char c s).
Proof. apply filter_rev. Qed.

Lemma rstrip_remove (c : ascii) (s : list ascii) :
  isspace c = false -> rstrip (remove_char c (rstrip s)) = rstrip (remove_char c s).
Proof.
  intros Hc. unfold rstrip.
  rewrite <- remove_char_rev, rev_involutive, lstrip_remove by assumption.
  rewrite remove_char_rev. reflexivity.
Qed.

Lemma lstrip_all_space (s : list ascii) : all_space s = true -> lstrip s = [].
Proof.
  induction s as [|x r IH]; [reflexivity|]. cbn [all_space forallb lstrip].
  intros H. apply andb_true_iff in H. destruct H as [Hx Hr]. rewrite Hx. apply IH. exact Hr.
Qed.

Lemma lstrip_snoc (l : list ascii) (x : ascii) :
  lstrip (l ++ [x]) =
  if all_space l then (if isspace x then [] else [x]) else lstrip l ++ [x].
Proof.
  induction l as [|y l IH]; [reflexivity|].
  cbn [app lstrip all_space forallb]. destruct (isspace y) eqn:Hy; cbn [andb].
  - exact IH.
  - reflexivity.
Qed.

Lemma all_space_rev (s : list ascii) : all_space (rev s) = all_space s.
Proof.
  unfold all_space. induction s as [|x r IH]; [reflexivity|].
  cbn [rev forallb]. rewrite forallb_app, IH. cbn [forallb].
  rewrite andb_true_r. apply andb_comm.
Qed.

Lemma rstrip_cons (x : ascii) (r : list ascii) :
  rstrip (x :: r) =
  if all_space r then (if isspace x then [] else [x]) else x :: rstrip r.
Proof.
  unfold rstrip. cbn [rev]. rewrite lstrip_snoc, all_space_rev.
  destruct (all_space r).
  - destruct (isspace x); reflexivity.
  - rewrite rev_app_distr. reflexivity.
Qed.

Lemma rstrip_all_space (s : list ascii) : all_space s = true -> rstrip s = [].
Proof.
  intros H. unfold rstrip. rewrite lstrip_all_space; [reflexivity|].
  rewrite all_space_rev. exact H.
Qed.

Lemma strip_commute (s : list ascii) : rstrip (lstrip s) = lstrip (rstrip s).
Proof.
  induction s as [|x r IH]; [reflexivity|].
  cbn [lstrip]. rewrite rstrip_cons.
  destruct (isspace x) eqn:Hx.
  - rewrite IH. destruct (all_space r) eqn:Hr.
    + rewrite rstrip_all_space by exact Hr. reflexivity.
    + cbn [lstrip]. rewrite Hx. reflexivity.
  - rewrite rstrip_cons. destruct (all_space r).
    + cbn [lstrip]. rewrite Hx. reflexivity.
    + cbn [lstrip]. rewrite Hx. reflexivity.
Qed.

(** Stripping, removing a character that is no whitespace and stripping
    again is removing and stripping. *)
Lemma strip_remove (c : ascii) (s : list ascii) :
  isspace c = false -> strip (remove_char c (strip s)) = strip (remove_char c s).
Proof.
  intros Hc. rewrite !strip_rstrip_lstrip.
  rewrite (strip_commute (remove_char c (rstrip (lstrip s)))).
  rewrite rstrip_remove by assumption.
  rewrite <- strip_commute, lstrip_remove by assumption. reflexivity.
Qed.

Lemma strip_idempotent (s : list ascii) : strip (strip s) = strip s.
Proof.
  assert (Hl : forall u, lstrip (lstrip u) = lstrip u).
  { induction u as [|x r IH]; [reflexivity|]. cbn [lstrip].
    destruct (isspace x) eqn:Hx; [exact IH|]. cbn [lstrip]. rewrite Hx. reflexivity. }
  rewrite !strip_rstrip_lstrip.
  rewrite (strip_commute (rstrip (lstrip s))).
  unfold rstrip at 1 2. rewrite rev_involutive, Hl.
  fold (rstrip (lstrip s)). rewrite <- strip_commute, Hl. reflexivity.
Qed.

(** [Decimal(value)] only looks at the stripped text. *)
Lemma Decimal_of_str_strip (s : list ascii) : Decimal_of_str (strip s) = Decimal_of_str s.
Proof. unfold Decimal_of_str, Decimal_syntax. rewrite strip_idempotent. reflexivity. Qed.

(** [to_decimal] in normal form: the text without its commas and dollar
    signs, wherever they are. *)
Lemma to_decimal_normal (text : string) :
  to_decimal text =
  match Decimal_of_str (remove_char "$" (remove_char "," (list_ascii_of_string text))) with
  | Some d => Ok d
  | None => Raise ValueError
  end.
Proof.
  unfold to_decimal.
  set (s := list_ascii_of_string text).
  assert (E : Decimal_of_str (remove_char "$" (remove_char "," (strip s)))
              = Decimal_of_str (remove_char "$" (remove_char "," s))).
  { rewrite <- (Decimal_of_str_strip (remove_char "$" (remove_char "," (strip s)))).
    rewrite <- (strip_remove "$" (remove_char "," (strip s))) by reflexivity.
    rewrite (strip_remove "," s) by reflexivity.
    rewrite (strip_remove "$" (remove_char "," s)) by reflexivity.
    apply Decimal_of_str_strip. }
  rewrite E. reflexivity.
Qed.

Lemma list_ascii_of_string_app (s1 s2 : string) :
  list_ascii_of_string (s1 ++ s2) = list_ascii_of_string s1 ++ list_ascii_of_string s2.
Proof. induction s1 as [|c s1 IH]; simpl; [reflexivity|]. now rewrite IH. Qed.

(** C10.  A comma or a dollar sign put anywhere into the text does not
    change what [to_decimal] does, so every comma and dollar sign is
    removed, not only a leading symbol or a separator between groups of
    three digits; the text 1,2$3 parses as 123. *)
Theorem commas_and_dollars_anywhere :
  (forall s1 s2 : string,
      to_decimal (s1 ++ "," ++ s2) = to_decimal (s1 ++ s2) /\
      to_decimal (s1 ++ "$" ++ s2) = to_decimal (s1 ++ s2)) /\
  to_decimal "1,2$3" = Ok (Finite (Decimal.mk false 123 0)) /\
  to_decimal "12$" = Ok (Finite (Decimal.mk false 12 0)) /\
  to_decimal "$,1,,$$2,3" = Ok (Finite (Decimal.mk false 123 0)).
Proof.
  split; [|repeat split; reflexivity].
  intros s1 s2. rewrite !to_decimal_normal, !list_ascii_of_string_app.
  unfold remove_char. rewrite !filter_app. split; reflexivity.
Qed.

(** ** C8: what the parser accepts and what it rejects *)

(** A character outside the alphabet of [Decimal(value)] is no digit, no
    whitespace, none of the marks and none of the letters. *)
Lemma decimal_char_facts (x : ascii) :
  decimal_char x = false ->
  isdigit x = false /\ isspace x = false /\ one_of "._+-" x = false /\
  one_of "einftyas" (lower x) = false /\ isdigit (lower x) = false.
Proof.
  intros H.
  destruct x as [[] [] [] [] [] [] [] []]; vm_compute in H; try discriminate H;
    vm_compute; repeat split.
Qed.

Lemma one_of_false (cs : string) (x c : ascii) :
  one_of cs x = false -> In c (list_ascii_of_string cs) -> x <> c.
Proof.
  unfold one_of. intros H Hc E. subst c.
  assert (existsb (Ascii.eqb x) (list_ascii_of_string cs) = true); [|congruence].
  apply existsb_exists. exists x. split; [assumption|apply Ascii.eqb_refl].
Qed.

Lemma lstrip_keeps (x : ascii) (s : list ascii) :
  isspace x = false -> In x s -> In x (lstrip s).
Proof.
  intros Hx. induction s as [|c r IH]; [intros []|].
  cbn [lstrip]. destruct (isspace c) eqn:Hc; [|auto].
  intros [E|H]; [congruence|auto].
Qed.

Lemma strip_keeps (x : ascii) (s : list ascii) :
  isspace x = false -> In x s -> In x (strip s).
Proof.
  intros Hx H. unfold strip. apply in_rev. rewrite rev_involutive.
  apply lstrip_keeps; [assumption|]. apply -> in_rev. apply lstrip_keeps; assumption.
Qed.

Lemma remove_char_keeps (x c : ascii) (s : list ascii) :
  x <> c -> In x s -> In x (remove_char c s).
Proof.
  intros Hx H. unfold remove_char. apply filter_In. split; [assumption|].
  destruct (Ascii.eqb_spec x c); [contradiction|reflexivity].
Qed.

Lemma span_digits_keeps (x : ascii) (s : list ascii) :
  isdigit x = false -> In x s -> In x (snd (span_digits s)).
Proof.
  intros Hx. induction s as [|c r IH]; [intros []|].
  cbn [span_digits]. destruct (isdigit c) eqn:Hc.
  - intros [E|H]; [congruence|]. destruct (span_digits r) as [ds rest]. cbn [snd] in *. auto.
  - intros H. exact H.
Qed.

(** A text with a character [x] outside the alphabet is rejected at every
    stage of the grammar. *)
Section Foreign.

Variable x : ascii.
Hypothesis Hx : decimal_char x = false.

Lemma exponent_sign_keeps (r : list ascii) :
  In x r ->
  In x (snd (match r with
             | "-"%char :: r' => (true, r')
             | "+"%char :: r' => (false, r')
             | _ => (false, r)
             end)).
Proof.
  destruct (decimal_char_facts x Hx) as [_ [_ [Hp _]]].
  destruct r as [|c r']; [intros []|].
  intros [E|H].
  - subst c. destruct x as [[] [] [] [] [] [] [] []]; try discriminate Hp; left; reflexivity.
  - destruct c as [[] [] [] [] [] [] [] []]; cbn [snd]; try (right; exact H); exact H.
Qed.

Lemma parse_exponent_rejects (s : list ascii) : In x s -> parse_exponent s = None.
Proof.
  destruct (decimal_char_facts x Hx) as [Hd [_ [_ [Hl _]]]].
  destruct s as [|c r]; [intros []|]. intros H. unfold parse_exponent.
  destruct (Ascii.eqb_spec (lower c) "e") as [Ec|_]; [|reflexivity].
  assert (Hr : In x r).
  { destruct H as [E|H]; [|exact H]. subst c. exfalso.
    apply (one_of_false _ _ "e" Hl); [vm_compute; tauto|exact Ec]. }
  generalize (exponent_sign_keeps r Hr).
  match goal with |- context [snd ?p] => destruct p as [neg r2] end.
  cbn [snd]. intros Hk.
  pose proof (span_digits_keeps x r2 Hd Hk) as Hs.
  destruct (span_digits r2) as [[|d ds] [|y rest]]; cbn [snd] in Hs;
    try contradiction; reflexivity.
Qed.


Lemma parse_number_rejects (sign : bool) (s : list ascii) :
  In x s -> parse_number sign s = None.
Proof.
  destruct (decimal_char_facts x Hx) as [Hd [_ [Hp _]]].
  intros H. unfold parse_number.
  pose proof (span_digits_keeps x s Hd H) as Hs.
  destruct (span_digits s) as [intpart r]. cbn [snd] in Hs.
  assert (Hk : exists f r2 dot,
             match r with
             | "."%char :: r' => let '(f, r'') := span_digits r' in (f, r'', true)
             | _ => ([], r, false)
             end = (f, r2, dot) /\ In x r2).
  { destruct r as [|c r']; [contradiction|].
    assert (Hdef : c <> "."%char ->
                   exists f r2 dot, ([] : list ascii, c :: r', false) = (f, r2, dot) /\ In x r2).
    { intros _. exists [], (c :: r'), false. split; [reflexivity|exact Hs]. }
    destruct c as [[] [] [] [] [] [] [] []]; try (apply Hdef; discriminate).
    clear Hdef. destruct Hs as [E|Hs].
    - exfalso. apply (one_of_false _ _ "." Hp); [vm_compute; tauto|symmetry; exact E].
    - pose proof (span_digits_keeps x r' Hd Hs) as Hf.
      destruct (span_digits r') as [f r2]. exists f, r2, true. split; [reflexivity|exact Hf]. }
  destruct Hk as [f [r2 [dot [E Hr2]]]]. rewrite E.
  rewrite (parse_exponent_rejects r2 Hr2).
  destruct (intpart ++ f); reflexivity.
Qed.


Lemma signaling_keeps (y : ascii) (l : list ascii) :
  y <> "s"%char -> In y l ->
  In y (snd (match l with
             | "s"%char :: l' => (true, l')
             | _ => (false, l)
             end)).
Proof.
  intros Hy. destruct l as [|c l']; [intros []|].
  intros [E|H].
  - subst c. destruct y as [[] [] [] [] [] [] [] []]; try (left; reflexivity).
    contradiction Hy. reflexivity.
  - destruct c as [[] [] [] [] [] [] [] []]; cbn [snd]; try (right; exact H); exact H.
Qed.

Lemma parse_special_rejects (sign : bool) (s : list ascii) :
  In x s -> parse_special sign s = None.
Proof.
  destruct (decimal_char_facts x Hx) as [_ [_ [_ [Hl Hd]]]].
  intros H. unfold parse_special.
  assert (Hy : In (lower x) (string_lower s)) by (apply in_map; exact H).
  assert (Hn : forall c, In c (list_ascii_of_string "einftyas") -> lower x <> c).
  { intros c. apply one_of_false. exact Hl. }
  revert Hy Hn Hd. generalize (lower x) (string_lower s). clear. intros y l Hy Hn Hd.
  destruct (list_eq_dec ascii_dec l (list_ascii_of_string "inf")) as [E|_].
  { exfalso. rewrite E in Hy. cbn in Hy.
    repeat (destruct Hy as [Hy|Hy]; [apply (Hn y); [rewrite <- Hy; vm_compute; tauto|reflexivity]|]).
    exact Hy. }
  destruct (list_eq_dec ascii_dec l (list_ascii_of_string "infinity")) as [E|_].
  { exfalso. rewrite E in Hy. cbn in Hy.
    repeat (destruct Hy as [Hy|Hy]; [apply (Hn y); [rewrite <- Hy; vm_compute; tauto|reflexivity]|]).
    exact Hy. }
  generalize (signaling_keeps y l ltac:(apply Hn; vm_compute; tauto) Hy).
  match goal with |- context [snd ?p] => destruct p as [signaling l2] end.
  cbn [snd]. clear Hy. intros Hy.
  destruct l2 as [|c1 l3]; [reflexivity|].
  destruct c1 as [[] [] [] [] [] [] [] []]; try reflexivity.
  destruct l3 as [|c2 l4]; [reflexivity|].
  destruct c2 as [[] [] [] [] [] [] [] []]; try reflexivity.
  destruct l4 as [|c3 diag]; [reflexivity|].
  destruct c3 as [[] [] [] [] [] [] [] []]; try reflexivity.
  assert (Hdiag : In y diag).
  { repeat (destruct Hy as [Hy|Hy]; [exfalso; apply (Hn y); [rewrite <- Hy; vm_compute; tauto|reflexivity]|]).
    exact Hy. }
  pose proof (span_digits_keeps y diag Hd Hdiag) as Hs.
  destruct (span_digits diag) as [ds [|c rest]]; [contradiction|reflexivity].
Qed.

Lemma Decimal_syntax_rejects (s : list ascii) : In x s -> Decimal_syntax s = None.
Proof.
  destruct (decimal_char_facts x Hx) as [_ [Hs [Hp _]]].
  intros H. unfold Decimal_syntax.
  assert (Hc : In x (remove_char "_" (strip s))).
  { apply remove_char_keeps; [|apply strip_keeps; assumption].
    apply (one_of_false _ _ _ Hp). vm_compute. tauto. }
  revert Hc. generalize (remove_char "_" (strip s)). intros l Hc.
  assert (Hb : exists sign body,
             match l with
             | "-"%char :: r => (true, r)
             | "+"%char :: r => (false, r)
             | _ => (false, l)
             end = (sign, body) /\ In x body).
  { pose proof (exponent_sign_keeps l Hc) as Hk.
    match type of Hk with In _ (snd ?p) => destruct p as [sign body] end.
    exists sign, body. split; [reflexivity|exact Hk]. }
  destruct Hb as [sign [body [E Hb]]]. rewrite E.
  destruct body as [|c r]; [reflexivity|].
  rewrite (parse_number_rejects sign (c :: r) Hb), (parse_special_rejects sign (c :: r) Hb).
  destruct (isdigit c || Ascii.eqb c "."); reflexivity.
Qed.

Lemma Decimal_of_str_rejects (s : list ascii) : In x s -> Decimal_of_str s = None.
Proof.
  intros H. unfold Decimal_of_str. rewrite (Decimal_syntax_rejects s H). reflexivity.
Qed.

End Foreign.

(** [to_decimal] raises ValueError on a text with a character that is
    neither in the alphabet of [Decimal(value)] nor a comma or a dollar
    sign. *)
Lemma to_decimal_rejects (text : string) (x : ascii) :
  In x (list_ascii_of_string text) -> money_char x = false ->
  to_decimal text = Raise ValueError.
Proof.
  intros H Hm. unfold money_char in Hm. apply orb_false_iff in Hm. destruct Hm as [Hx Hc].
  destruct (decimal_char_facts x Hx) as [_ [Hs _]].
  unfold to_decimal. rewrite (Decimal_of_str_rejects x Hx); [reflexivity|].
  apply remove_char_keeps; [apply (one_of_false _ _ _ Hc); vm_compute; tauto|].
  apply remove_char_keeps; [apply (one_of_false _ _ _ Hc); vm_compute; tauto|].
  apply strip_keeps; assumption.
Qed.

Lemma remove_char_absent (c : ascii) (s : list ascii) :
  ~ In c s -> remove_char c s = s.
Proof.
  intros H. unfold remove_char. induction s as [|a r IH]; [reflexivity|].
  cbn [filter]. destruct (Ascii.eqb_spec a c) as [E|E].
  - exfalso. apply H. left. exact E.
  - cbn [negb]. rewrite IH; [reflexivity|]. intros Hr. apply H. right. exact Hr.
Qed.

Lemma Decimal_of_str_no_dollar (s : list ascii) (v : value) :
  Decimal_of_str s = Some v -> remove_char "$" s = s.
Proof.
  intros H. apply remove_char_absent. intros Hin.
  rewrite (Decimal_of_str_rejects "$" eq_refl s Hin) in H. discriminate.
Qed.

Lemma remove_char_comm (a b : ascii) (s : list ascii) :
  remove_char a (remove_char b s) = remove_char b (remove_char a s).
Proof.
  unfold remove_char. induction s as [|c r IH]; [reflexivity|].
  cbn [filter]. destruct (Ascii.eqb c a) eqn:Ea, (Ascii.eqb c b) eqn:Eb; cbn [negb filter];
    rewrite ?Ea, ?Eb; cbn [negb]; rewrite ?IH; reflexivity.
Qed.

(** Whatever the parser of the specification returns, [to_decimal]
    returns. *)
Lemma parse_money_spec_refined (text : string) (v : value) :
  parse_money_spec text = Ok v -> to_decimal text = Ok v.
Proof.
  unfold parse_money_spec, to_decimal.
  set (s := strip (list_ascii_of_string text)).
  rewrite remove_char_comm.
  assert (E : remove_char "$" s =
              remove_char "$" (match s with
                               | c :: r => if Ascii.eqb c "$" then r else s
                               | [] => s
                               end)).
  { destruct s as [|c r]; [reflexivity|].
    destruct (Ascii.eqb c "$") eqn:Ec; [|reflexivity].
    unfold remove_char. cbn [filter]. rewrite Ec. reflexivity. }
  rewrite E. clear E. rewrite remove_char_comm.
  generalize (match s with
              | c :: r => if Ascii.eqb c "$" then r else s
              | [] => s
              end). intros u.
  destruct (Decimal_of_str (remove_char "," u)) as [w|] eqn:Ew; [|discriminate].
  rewrite (Decimal_of_str_no_dollar _ _ Ew), Ew.
  destruct w; intros H; try discriminate H. exact H.
Qed.

Lemma digit_facts (c : ascii) :
  isdigit c = true ->
  isspace c = false /\ c <> ","%char /\ c <> "$"%char /\ c <> "_"%char.
Proof.
  intros H. destruct c as [[] [] [] [] [] [] [] []]; vm_compute in H; try discriminate H;
    repeat split; discriminate.
Qed.

Lemma strip_no_space (s : list ascii) :
  (forall c, In c s -> isspace c = false) -> strip s = s.
Proof.
  assert (Hl : forall u, (forall c, In c u -> isspace c = false) -> lstrip u = u).
  { intros [|a r] Hu; [reflexivity|]. cbn [lstrip]. rewrite (Hu a); [reflexivity|left; reflexivity]. }
  intros H. unfold strip. rewrite (Hl s H), Hl, rev_involutive; [reflexivity|].
  intros c Hc. apply H. apply in_rev. exact Hc.
Qed.

Lemma span_digits_all (ds : list ascii) :
  forallb isdigit ds = true -> span_digits ds = (ds, []).
Proof.
  induction ds as [|c r IH]; [reflexivity|]. cbn [forallb span_digits].
  intros H. apply andb_true_iff in H. destruct H as [Hc Hr].
  rewrite Hc, (IH Hr). reflexivity.
Qed.

Lemma digit_value_le (c : ascii) : isdigit c = true -> (digit_value c <= 9)%N.
Proof.
  intros H. destruct c as [[] [] [] [] [] [] [] []]; vm_compute in H; try discriminate H;
    vm_compute; discriminate.
Qed.

Lemma int_of_digits_lt (ds : list ascii) :
  forallb isdigit ds = true ->
  Z.of_N (int_of_digits ds) < 10 ^ Z.of_nat (List.length ds).
Proof.
  intros Hds. unfold int_of_digits.
  assert (H : forall acc : N,
             Z.of_N (fold_left (fun a c => (10 * a + digit_value c)%N) ds acc)
             < (Z.of_N acc + 1) * 10 ^ Z.of_nat (List.length ds)).
  { induction ds as [|c r IH]; intros acc.
    - cbn [fold_left List.length]. change (10 ^ Z.of_nat 0) with 1. lia.
    - cbn [forallb] in Hds. apply andb_true_iff in Hds. destruct Hds as [Hc Hr].
      cbn [fold_left]. pose proof (IH Hr (10 * acc + digit_value c)%N) as H.
      pose proof (digit_value_le c Hc) as Hd.
      replace (Z.of_nat (List.length (c :: r))) with (Z.of_nat (List.length r) + 1)
        by (cbn [List.length]; lia).
      rewrite pow10_S by lia.
      pose proof (pow10_pos (Z.of_nat (List.length r)) ltac:(lia)). nia. }
  pose proof (H 0%N) as H0. change (Z.of_N 0 + 1) with 1 in H0. lia.
Qed.

(** A whole number of at most [MAX_PREC] digits is within the limits. *)
Lemma whole_constructible (sign : bool) (ds : list ascii) :
  forallb isdigit ds = true -> ds <> [] -> Z.of_nat (List.length ds) <= MAX_PREC ->
  constructible (Decimal.mk sign (int_of_digits ds) 0) = true.
Proof.
  intros Hds Hne Hlen. unfold constructible, adjusted. cbn [d_exp].
  assert (Hl : 1 <= Z.of_nat (List.length ds)).
  { destruct ds; [contradiction Hne; reflexivity|cbn [List.length]; lia]. }
  pose proof (ndigits_le (coef (Decimal.mk sign (int_of_digits ds) 0))
                         (Z.of_nat (List.length ds)) Hl (int_of_digits_lt ds Hds)) as Hn.
  unfold MAX_PREC, MAX_EMAX, MIN_ETINY in *.
  rewrite !andb_true_iff, !Z.leb_le. lia.
Qed.

(** A minus sign before a whole number is accepted. *)
Lemma to_decimal_negative (ds : list ascii) :
  ds <> [] -> forallb isdigit ds = true -> Z.of_nat (List.length ds) <= MAX_PREC ->
  to_decimal (string_of_list_ascii ("-"%char :: ds))
  = Ok (Finite (Decimal.mk true (int_of_digits ds) 0)).
Proof.
  intros Hne Hds Hlen.
  pose proof (whole_constructible true ds Hds Hne Hlen) as Hcon.
  unfold to_decimal. rewrite list_ascii_of_string_of_list_ascii.
  assert (Hin : forall c, In c ("-"%char :: ds) ->
                          isspace c = false /\ c <> ","%char /\ c <> "$"%char /\ c <> "_"%char).
  { intros c [E|Hc].
    - subst c. repeat split; discriminate.
    - apply digit_facts. rewrite forallb_forall in Hds. apply Hds. exact Hc. }
  rewrite (strip_no_space ("-"%char :: ds)) by (intros c Hc; apply (Hin c Hc)).
  rewrite (remove_char_absent ","), (remove_char_absent "$");
    try (intros Hc; destruct (Hin _ Hc) as [_ [H1 [H2 _]]]; congruence).
  assert (Hsyn : Decimal_syntax ("-"%char :: ds)
                 = Some (Finite (Decimal.mk true (int_of_digits ds) 0))).
  { unfold Decimal_syntax.
    rewrite (strip_no_space ("-"%char :: ds)) by (intros c Hc; apply (Hin c Hc)).
    rewrite (remove_char_absent "_")
      by (intros Hc; destruct (Hin _ Hc) as [_ [_ [_ H3]]]; congruence).
    destruct ds as [|c r]; [contradiction Hne; reflexivity|].
    assert (Hc : isdigit c = true).
    { cbn [forallb] in Hds. apply andb_true_iff in Hds. apply Hds. }
    cbv beta iota. rewrite Hc. cbn [orb].
    unfold parse_number. rewrite (span_digits_all (c :: r) Hds).
    cbv beta iota. rewrite app_nil_r.
    cbn [parse_exponent List.length Z.of_nat Z.sub Z.opp Z.add].
    reflexivity. }
  unfold Decimal_of_str. rewrite Hsyn, Hcon. reflexivity.
Qed.

(** C8, as amended.  [to_decimal] strips the surrounding whitespace, removes
    every comma and every dollar sign, and returns what [Decimal(value)]
    constructs from the rest, raising ValueError when that rejects it, be
    it for the syntax or for a number beyond the limits of the decimal
    module (an exponent of 10^18 or more, as in 1e1000000000000000000).
    So it returns the value of every text that is a number within these
    limits once the whitespace, one leading dollar sign and the commas are
    stripped; it raises ValueError on every text with a character that is
    neither a digit, whitespace, a point, an underscore, a sign, a comma, a
    dollar sign nor a letter of the exponent marker or of inf, infinity,
    nan and snan; and it accepts a minus sign before a whole number of at
    most [MAX_PREC] digits. *)
Theorem to_decimal_cleans_then_parses :
  (forall text : string,
      to_decimal text =
      match Decimal_of_str
              (remove_char "$" (remove_char "," (list_ascii_of_string text))) with
      | Some v => Ok v
      | None => Raise ValueError
      end) /\
  (forall (text : string) (v : value),
      parse_money_spec text = Ok v -> to_decimal text = Ok v) /\
  (forall (text : string) (x : ascii),
      In x (list_ascii_of_string text) -> money_char x = false ->
      to_decimal text = Raise ValueError) /\
  (forall ds : list ascii,
      ds <> [] -> forallb isdigit ds = true -> Z.of_nat (List.length ds) <= MAX_PREC ->
      to_decimal (string_of_list_ascii ("-"%char :: ds))
      = Ok (Finite (Decimal.mk true (int_of_digits ds) 0))) /\
  to_decimal "" = Raise ValueError /\
  to_decimal "$" = Raise ValueError /\
  to_decimal "1.2.3" = Raise ValueError /\
  to_decimal "12 34" = Raise ValueError /\
  to_decimal "1e999999999999999999"
    = Ok (Finite (Decimal.mk false 1 999999999999999999)) /\
  to_decimal "1e1000000000000000000" = Raise ValueError /\
  parse_money_spec "1e1000000000000000000" = Raise ValueError.
Proof.
  split; [exact to_decimal_normal|].
  split; [exact parse_money_spec_refined|].
  split; [exact to_decimal_rejects|].
  split; [exact to_decimal_negative|].
  repeat split; reflexivity.
Qed.

Lemma to_decimal_cleans_then_parses_witness :
  to_decimal " $1,234.50 " = Ok (Finite (Decimal.mk false 123450 (-2))) /\
  to_decimal "twelve" = Raise ValueError /\
  to_decimal "-42" = Ok (Finite (Decimal.mk true 42 0)).
Proof.
  destruct to_decimal_cleans_then_parses as [_ [Hspec [Hrej [Hneg _]]]].
  split; [|split].
  - apply Hspec. reflexivity.
  - apply (Hrej "twelve"%string "w"%char); [simpl; tauto|reflexivity].
  - apply (Hneg (list_ascii_of_string "42")); [discriminate|reflexivity|].
    vm_compute. discriminate.
Defined.

(** C8 as stated fails: a dollar sign that does not lead the text and the
    texts nan and -Infinity are no amounts, and the parser of the
    specification rejects them, yet [to_decimal] returns a value for each,
    for the last two a value that is no number. *)
Lemma to_decimal_accepts_malformed :
  parse_money_spec "-$5" = Raise ValueError /\
  to_decimal "-$5" = Ok (Finite (Decimal.mk true 5 0)) /\
  parse_money_spec "3$4,,5" = Raise ValueError /\
  to_decimal "3$4,,5" = Ok (Finite (Decimal.mk false 345 0)) /\
  parse_money_spec "nan" = Raise ValueError /\
  to_decimal "nan" = Ok (NaN false false 0) /\
  parse_money_spec "-Infinity" = Raise ValueError /\
  to_decimal "-Infinity" = Ok (Infinity true) /\
  ~ (forall text : string,
        parse_money_spec text = Raise ValueError ->
        to_decimal text = Raise ValueError).
Proof.
  repeat (split; [reflexivity|]).
  intros H. specialize (H "nan"%string eq_refl). discriminate H.
Qed.

(* ================================================================= *)
(** * Further properties of the program *)

(** ** The allocators at the edge of their domain *)

(** X1.  [split_evenly] does not check the count: with no participant and
    a finite total (a number with a sign, a coefficient and an exponent;
    the infinities and the NaNs are no such totals) the division by
    [Decimal(0)] raises before any share is made, DivisionByZero for a
    total that is not zero and InvalidOperation (0/0) for a zero total. *)
Theorem split_evenly_no_participant (fuel : nat) (total : Decimal.t)
        (names : option (list string)) :
  split_evenly fuel total 0 names =
  Raise (if is_zero total then InvalidOperation else DivisionByZero).
Proof.
  unfold split_evenly, even_shares, Decimal.div.
  change (is_zero (Decimal.of_Z (Z.of_nat 0))) with true. cbv iota.
  destruct (is_zero total); reflexivity.
Qed.

Lemma sub_nothing (total : Decimal.t) :
  fits total ->
  exists residual, Decimal.sub total (Decimal.of_Z 0) = Ok residual /\
                   is_zero residual = is_zero total.
Proof.
  intros [He Hc]. rewrite cents_abs in Hc by assumption.
  pose proof (coef_nonneg total) as Hn.
  pose proof (pow10_pos (d_exp total + 2) ltac:(lia)) as Hp.
  unfold Decimal.sub, Decimal.add.
  change (is_zero (copy_negate (Decimal.of_Z 0))) with true.
  change (d_exp (copy_negate (Decimal.of_Z 0))) with 0.
  change (d_sign (copy_negate (Decimal.of_Z 0))) with true.
  rewrite andb_true_r.
  destruct (is_zero total) eqn:Hz.
  - eexists. split; [unfold _fix; cbn [is_zero coef d_int Z.of_N Z.eqb d_sign d_exp]; reflexivity|].
    reflexivity.
  - apply is_zero_false in Hz.
    assert (He25 : d_exp total <= 25).
    { destruct (Z_le_gt_dec (d_exp total) 25) as [|Hgt]; [assumption|exfalso].
      pose proof (pow10_le 28 (d_exp total + 2) ltac:(lia)). nia. }
    assert (HE : Z.max (Z.min (d_exp total) 0) (d_exp total - prec - 1)
                 = Z.min (d_exp total) 0) by (ctx; lia).
    rewrite HE. unfold _rescale. rewrite (proj2 (is_zero_false total)) by lia.
    destruct (Z.leb_spec (Z.min (d_exp total) 0) (d_exp total)) as [_|Hbad]; [|lia].
    set (c := coef total * 10 ^ (d_exp total - Z.min (d_exp total) 0)).
    assert (Hc0 : 0 < c < 10 ^ 28).
    { unfold c. destruct (Z.min_spec (d_exp total) 0) as [[_ E]|[_ E]]; rewrite E.
      - rewrite Z.sub_diag. change (10 ^ 0) with 1.
        pose proof (pow10_le 0 (d_exp total + 2) ltac:(lia)) as H0.
        change (10 ^ 0) with 1 in H0. nia.
      - rewrite Z.sub_0_r. pose proof (pow10_pos (d_exp total) ltac:(lia)).
        pose proof (pow10_lt (d_exp total) (d_exp total + 2) ltac:(lia)). nia. }
    exists (mkd (d_sign total) c (Z.min (d_exp total) 0)).
    split.
    + apply fix_exact; [rewrite coef_mkd by lia; lia|].
      cbn [d_exp mkd]. ctx. lia.
    + apply is_zero_false. rewrite coef_mkd by lia. lia.
Qed.

(** X2.  With no percentage there is no share to take the residual: for a
    total of at most two decimal places below 10^26 the call returns the
    empty list when the total is zero and otherwise fails with IndexError
    at the first step of the loop. *)
Theorem split_by_percentage_no_percentage (fuel : nat) (total : Decimal.t)
        (names : option (list string)) :
  fits total ->
  split_by_percentage (S fuel) total [] names =
  if is_zero total then Ok [] else Raise IndexError.
Proof.
  intros Hf. destruct (sub_nothing total Hf) as [residual [Hs Hz]].
  unfold split_by_percentage, percentage_shares.
  cbn [map sequence bind py_sum]. rewrite Hs. cbn [bind List.length residual_loop].
  rewrite ne_zero_00, Hz.
  destruct (is_zero total) eqn:Ht; cbn [negb].
  - cbn [bind]. destruct (names_or_default names 0); reflexivity.
  - unfold loop_body. destruct (Decimal.gt residual zero_00); reflexivity.
Qed.

Lemma split_by_percentage_no_percentage_witness :
  split_by_percentage 1 (Decimal.mk false 1000 (-2)) [] None = Raise IndexError /\
  split_by_percentage 1 (Decimal.mk false 0 (-2)) [] None = Ok [].
Proof.
  split.
  - apply (split_by_percentage_no_percentage 0 (Decimal.mk false 1000 (-2)) None).
    split; [simpl; lia|vm_compute; reflexivity].
  - apply (split_by_percentage_no_percentage 0 (Decimal.mk false 0 (-2)) None).
    split; [simpl; lia|vm_compute; reflexivity].
Defined.

(** ** How even an even split is *)

Lemma share_of_bound (m n j : nat) (c : Z) :
  (0 < n)%nat -> Z.of_nat m <= Z.of_nat n * c -> share_of m n j <= c.
Proof.
  intros Hn Hm. unfold share_of.
  pose proof (Nat.div_mod_eq m n) as Hd.
  pose proof (Nat.mod_upper_bound m n ltac:(lia)) as Hr.
  destruct (Nat.ltb_spec j (m mod n)); nia.
Qed.

Lemma share_of_nonneg (m n j : nat) : 0 <= share_of m n j.
Proof. unfold share_of. destruct (Nat.ltb_spec j (m mod n)); lia. Qed.

Lemma In_nth_cents (out : list Decimal.t) (s : Decimal.t) :
  In s out -> exists j, (j < List.length out)%nat /\ nth j out zero_00 = s.
Proof. intros H. destruct (In_nth out s zero_00 H) as [j [Hj E]]. exists j. auto. Qed.

(** X3.  In an even split of a total that is not negative no share is
    negative, every share has two decimal places, and no two shares differ
    by more than one cent. *)
Theorem even_split_is_fair (K M : Z) (total : Decimal.t) (n : nat)
        (names : option (list string)) :
  valid_total K total -> valid_count M n -> 0 <= K -> 0 <= M -> K + M <= 24 ->
  exists fuel result,
    split_evenly fuel total n names = Ok result /\
    (forall s, In s (map snd result) -> d_exp s = -2 /\ 0 <= cents s) /\
    (forall a b, In a (map snd result) -> In b (map snd result) ->
                 Z.abs (cents a - cents b) <= 1).
Proof.
  intros Ht Hn HK HM HKM.
  destruct (split_evenly_spec total n names K M Ht Hn HK HM HKM)
    as [r [residual [out [E1 [E2 [E3 [E4 [E5 [E6 [E7 [E8 E9]]]]]]]]]]].
  destruct Hn as [Hn1 HnM]. destruct E3 as [Er [Cr0 Cr1]].
  destruct (direction_cents residual ltac:(lia)) as [Hdir Hres].
  assert (Hc0 : 0 <= cents total).
  { rewrite (nonneg_cents total (vt_nonneg _ _ Ht)).
    pose proof (coef_nonneg total).
    pose proof (pow10_pos (d_exp total + 2) ltac:(pose proof (vt_places _ _ Ht); lia)). nia. }
  assert (Hsh : forall j, (j < n)%nat ->
              cents (nth j out zero_00)
              = cents r + direction residual * share_of (steps residual) n j).
  { intros j Hj. rewrite <- nth_map_cents, E8.
    rewrite distribute_round_robin by (try rewrite repeat_length; lia).
    rewrite nth_repeat_Z by exact Hj. reflexivity. }
  assert (Hin : forall s, In s (map snd (combine (names_or_default names n) out)) -> In s out).
  { intros s Hs. apply in_map_iff in Hs. destruct Hs as [[nm s'] [Es Hs]].
    simpl in Es. subst s'. apply in_combine_r in Hs. exact Hs. }
  exists (S (steps residual)), (combine (names_or_default names n) out).
  split; [exact E2|]. split.
  - intros s Hs. apply Hin in Hs. split.
    + rewrite Forall_forall in E6. apply E6. exact Hs.
    + destruct (In_nth_cents out s Hs) as [j [Hj Ej]]. rewrite E7 in Hj.
      rewrite <- Ej, (Hsh j Hj).
      pose proof (share_of_nonneg (steps residual) n j) as H0.
      destruct Hdir as [Hd|Hd]; rewrite Hd; [lia|].
      pose proof (share_of_bound (steps residual) n j (cents r) ltac:(lia)) as Hb.
      rewrite Hd in Hres. lia.
  - intros a b Ha Hb. apply Hin in Ha, Hb.
    destruct (In_nth_cents out a Ha) as [i [Hi Ei]].
    destruct (In_nth_cents out b Hb) as [j [Hj Ej]]. rewrite E7 in Hi, Hj.
    rewrite <- Ei, <- Ej, (Hsh i Hi), (Hsh j Hj).
    destruct (Nat.le_ge_cases i j) as [Hij|Hij].
    + pose proof (share_of_order (steps residual) n i j Hij).
      destruct Hdir as [Hd|Hd]; rewrite Hd; lia.
    + pose proof (share_of_order (steps residual) n j i Hij).
      destruct Hdir as [Hd|Hd]; rewrite Hd; lia.
Qed.

Lemma even_split_is_fair_witness :
  exists fuel result,
    split_evenly fuel (Decimal.mk false 10000 (-2)) 3 None = Ok result /\
    (forall s, In s (map snd result) -> d_exp s = -2 /\ 0 <= cents s) /\
    (forall a b, In a (map snd result) -> In b (map snd result) ->
                 Z.abs (cents a - cents b) <= 1).
Proof.
  apply (even_split_is_fair 3 1 (Decimal.mk false 10000 (-2)) 3%nat None).
  - split; [reflexivity|simpl; lia|right; vm_compute; discriminate].
  - split; [lia|vm_compute; discriminate].
  - lia.
  - lia.
  - lia.
Defined.

(** ** Rounding to cents *)

Lemma dval_sign (d : Decimal.t) :
  (dval d == if d_sign d then - Qabs (dval d) else Qabs (dval d))%Q.
Proof.
  pose proof (Qabs_dval d) as H. unfold dval, signed in *.
  destruct (d_sign d); rewrite H; [|reflexivity].
  rewrite inject_Z_opp. ring.
Qed.

Lemma dval_mkd_cents (s : bool) (c : Z) :
  0 <= c ->
  (dval (mkd s c (-2)) == if s then - (inject_Z c * (1 # 100)) else inject_Z c * (1 # 100))%Q.
Proof.
  intros Hc. rewrite dval_cents by reflexivity. rewrite cents_mkd by assumption.
  destruct s; unfold Qeq, Qmult, Qopp, inject_Z; simpl; lia.
Qed.

(** X5.  Whenever [round_money] returns, the result has two decimal places and
    the sign of the amount, lies within half a cent of the amount, and is
    left as it is by another rounding. *)
Theorem round_money_nearest_cent (d r : Decimal.t) :
  round_money d = Ok r ->
  d_exp r = -2 /\ d_sign r = d_sign d /\
  (Qabs (dval r - dval d) <= 1 # 200)%Q /\
  round_money r = Ok r.
Proof.
  intros H. rewrite round_money_char in H.
  pose proof (half_up_coef_nonneg d) as Hn.
  destruct (Z.ltb_spec (half_up_coef d) (10 ^ 28)) as [Hlt|]; [|discriminate].
  inversion H as [Hr]. clear H.
  split; [reflexivity|]. split; [reflexivity|]. split.
  - rewrite (dval_mkd_cents (d_sign d) (half_up_coef d) Hn), (dval_sign d) at 1.
    rewrite <- (round_half_up_spec_coef d). unfold round_half_up_spec.
    set (X := Qabs (dval d)).
    pose proof (Qfloor_le (X * 100 + (1 # 2))) as H1.
    pose proof (Qlt_floor (X * 100 + (1 # 2))) as H2.
    rewrite inject_Z_plus in H2.
    set (C := inject_Z (Qfloor (X * 100 + (1 # 2)))) in *.
    apply Qabs_Qle_condition.
    change (inject_Z 1) with 1%Q in H2.
    destruct (d_sign d); split; lra.
  - rewrite round_money_char.
    assert (Hh : half_up_coef (mkd (d_sign d) (half_up_coef d) (-2)) = half_up_coef d).
    { unfold half_up_coef at 1. cbn [d_exp mkd]. rewrite coef_mkd by assumption.
      change (-2 <=? -2) with true. cbv iota. change (10 ^ (-2 + 2)) with 1. lia. }
    rewrite Hh. destruct (Z.ltb_spec (half_up_coef d) (10 ^ 28)); [|lia]. reflexivity.
Qed.

Lemma round_money_nearest_cent_witness :
  d_exp (Decimal.mk false 235 (-2)) = -2 /\
  d_sign (Decimal.mk false 235 (-2)) = d_sign (Decimal.mk false 2345 (-3)) /\
  (Qabs (dval (Decimal.mk false 235 (-2)) - dval (Decimal.mk false 2345 (-3))) <= 1 # 200)%Q /\
  round_money (Decimal.mk false 235 (-2)) = Ok (Decimal.mk false 235 (-2)).
Proof.
  apply (round_money_nearest_cent (Decimal.mk false 2345 (-3)) (Decimal.mk false 235 (-2))).
  reflexivity.
Defined.

(** ** The default names *)

Lemma string_of_nat_inj (i j : nat) : string_of_nat i = string_of_nat j -> i = j.
Proof.
  unfold string_of_nat. intros H.
  assert (E : Some (Nat.to_uint i) = Some (Nat.to_uint j)).
  { rewrite <- !NilEmpty.usu. rewrite H. reflexivity. }
  inversion E as [E'].
  rewrite <- (DecimalNat.Unsigned.of_to i), <- (DecimalNat.Unsigned.of_to j), E'.
  reflexivity.
Qed.

Lemma NoDup_map_injective {A B : Type} (f : A -> B) (l : list A) :
  (forall x y, f x = f y -> x = y) -> NoDup l -> NoDup (map f l).
Proof.
  intros Hf. induction 1 as [|x l Hx Hl IH]; cbn [map]; constructor; [|exact IH].
  intros Hin. apply in_map_iff in Hin. destruct Hin as [y [E Hy]].
  apply Hf in E. subst y. contradiction.
Qed.

(** X14.  The default names are [n] names, no two of them the same; the name at
    index [i] is Person [i + 1]. *)
Theorem default_names_distinct (n : nat) :
  List.length (default_names n) = n /\
  NoDup (default_names n) /\
  forall i, (i < n)%nat ->
    nth i (default_names n) ""%string = ("Person " ++ string_of_nat (S i))%string.
Proof.
  split; [apply default_names_length|]. split.
  - unfold default_names. apply NoDup_map_injective; [|apply seq_NoDup].
    intros i j H. apply string_of_nat_inj.
    simpl in H. inversion H. reflexivity.
  - intros i Hi. unfold default_names.
    set (f := fun k => ("Person " ++ string_of_nat k)%string).
    rewrite (nth_indep _ ""%string (f O))
      by (rewrite length_map, length_seq; exact Hi).
    rewrite (map_nth f), seq_nth by exact Hi. reflexivity.
Qed.

(** ** Reading the amount *)

Lemma to_decimal_py_strip (line : string) : to_decimal (py_strip line) = to_decimal line.
Proof.
  unfold to_decimal, py_strip.
  rewrite list_ascii_of_string_of_list_ascii, strip_idempotent. reflexivity.
Qed.

(** X7.  What [get_positive_decimal] returns is never negative and no NaN: it
    is the value [to_decimal] gives for the first line that is not turned
    down.  What was written up to then is, for every line before it in
    turn, the prompt and the one message that answers the line (Invalid
    number when [to_decimal] raises ValueError, Amount cannot be negative
    otherwise), and then the prompt the accepted line answers: nothing
    else, and in this order. *)
Theorem get_positive_decimal_returns (prompt : string) (stdin : list string)
        (v : value) (rest : list string) (out : list event) :
  get_positive_decimal prompt stdin = Returns v rest out ->
  negative v = Ok false /\
  exists skipped line,
    stdin = skipped ++ line :: rest /\
    to_decimal line = Ok v /\
    Forall amount_rejected skipped /\
    out = exchange prompt amount_reply skipped ++ [Prompt prompt].
Proof.
  revert out. induction stdin as [|line stdin IH]; intros out H; [discriminate H|].
  cbn [get_positive_decimal] in H. rewrite to_decimal_py_strip in H.
  destruct (to_decimal line) as [d|e|] eqn:Ed.
  - destruct (negative d) as [[|]|e|] eqn:En.
    + destruct (get_positive_decimal prompt stdin) as [v' rest' out'| | |] eqn:Eg;
        try discriminate H.
      cbn [emit] in H. inversion H. subst v' rest' out.
      destruct (IH out' eq_refl) as [Hv [skipped [l [E1 [E2 [E3 E4]]]]]].
      split; [exact Hv|]. exists (line :: skipped), l.
      split; [rewrite E1; reflexivity|]. split; [exact E2|].
      split; [constructor; [right; exists d; auto|exact E3]|].
      unfold exchange. cbn [flat_map]. fold (exchange prompt amount_reply skipped).
      unfold amount_reply at 1. rewrite Ed, E4. reflexivity.
    + cbn [emit] in H. inversion H. subst d rest out.
      split; [exact En|]. exists [], line.
      split; [reflexivity|]. split; [exact Ed|]. split; [constructor|reflexivity].
    + destruct e; try discriminate H. destruct d; discriminate En.
    + discriminate H.
  - destruct e; try discriminate H.
    destruct (get_positive_decimal prompt stdin) as [v' rest' out'| | |] eqn:Eg;
      try discriminate H.
    cbn [emit] in H. inversion H. subst v' rest' out.
    destruct (IH out' eq_refl) as [Hv [skipped [l [E1 [E2 [E3 E4]]]]]].
    split; [exact Hv|]. exists (line :: skipped), l.
    split; [rewrite E1; reflexivity|]. split; [exact E2|].
    split; [constructor; [left; exact Ed|exact E3]|].
    unfold exchange. cbn [flat_map]. fold (exchange prompt amount_reply skipped).
    unfold amount_reply at 1. rewrite Ed, E4. reflexivity.
  - discriminate H.
Qed.

(** Two lines are turned down, each with its own message, before 12.50 is
    read. *)
Lemma get_positive_decimal_returns_witness :
  negative (Finite (Decimal.mk false 1250 (-2))) = Ok false /\
  exists skipped line,
    ["abc"; "-3"; " $12.50 "; "7"]%string = skipped ++ line :: ["7"%string] /\
    to_decimal line = Ok (Finite (Decimal.mk false 1250 (-2))) /\
    Forall amount_rejected skipped /\
    [Prompt "Total: "; Print "Invalid number. Try again (e.g. 123.45).";
     Prompt "Total: "; Print "Amount cannot be negative. Try again.";
     Prompt "Total: "]
    = exchange "Total: " amount_reply skipped ++ [Prompt "Total: "].
Proof.
  apply (get_positive_decimal_returns "Total: " ["abc"; "-3"; " $12.50 "; "7"]%string).
  reflexivity.
Defined.

Lemma emit_nil {A : Type} (r : run A) : emit [] r = r.
Proof. destruct r; reflexivity. Qed.

Lemma emit_emit {A : Type} (a b : list event) (r : run A) :
  emit a (emit b r) = emit (a ++ b) r.
Proof. destruct r; cbn [emit]; rewrite app_assoc; reflexivity. Qed.

Lemma get_positive_decimal_skips (prompt : string) (skipped : list string) :
  Forall amount_rejected skipped ->
  forall stdin, exists out,
    get_positive_decimal prompt (skipped ++ stdin)
    = emit out (get_positive_decimal prompt stdin) /\
    out = exchange prompt amount_reply skipped.
Proof.
  induction 1 as [|line skipped Hl Hs IH]; intros stdin.
  - exists []. split; [|reflexivity]. rewrite emit_nil. reflexivity.
  - destruct (IH stdin) as [out [E L]].
    cbn [app get_positive_decimal]. rewrite to_decimal_py_strip, E.
    unfold exchange. cbn [flat_map]. fold (exchange prompt amount_reply skipped).
    unfold amount_reply at 1 2.
    destruct Hl as [Hl|[v [Hl Hn]]]; rewrite Hl; [|rewrite Hn].
    + exists (Prompt prompt :: Print "Invalid number. Try again (e.g. 123.45)." :: out).
      split; [|rewrite L; reflexivity]. rewrite !emit_emit. reflexivity.
    + exists (Prompt prompt :: Print "Amount cannot be negative. Try again." :: out).
      split; [|rewrite L; reflexivity]. rewrite !emit_emit. reflexivity.
Qed.

(** X8.  A line that [to_decimal] reads as a NaN ends [get_positive_decimal]
    with InvalidOperation, which its handler for ValueError does not
    catch, however many lines were turned down before; and when every line
    is turned down the call ends with the end of the input. *)
Theorem get_positive_decimal_nan (prompt : string) (skipped : list string) :
  Forall amount_rejected skipped ->
  (forall line rest sign signaling diag,
      to_decimal line = Ok (NaN sign signaling diag) ->
      exists out,
        get_positive_decimal prompt (skipped ++ line :: rest)
        = Raises InvalidOperation out) /\
  (exists out, get_positive_decimal prompt skipped = EndOfInput out).
Proof.
  intros Hs. split.
  - intros line rest sign signaling diag Hl.
    destruct (get_positive_decimal_skips prompt skipped Hs (line :: rest)) as [out [E _]].
    rewrite E. cbn [get_positive_decimal]. rewrite to_decimal_py_strip, Hl.
    eexists. reflexivity.
  - destruct (get_positive_decimal_skips prompt skipped Hs []) as [out [E _]].
    rewrite app_nil_r in E. rewrite E. eexists. reflexivity.
Qed.

Lemma get_positive_decimal_nan_witness :
  (exists out,
      get_positive_decimal "Total: " ["-1"; "x"; "nan"; "5"]%string
      = Raises InvalidOperation out) /\
  (exists out, get_positive_decimal "Total: " ["-1"; "x"]%string = EndOfInput out).
Proof.
  assert (Hs : Forall amount_rejected ["-1"; "x"]%string).
  { constructor; [right; eexists; split; reflexivity|].
    constructor; [left; reflexivity|constructor]. }
  destruct (get_positive_decimal_nan "Total: " ["-1"; "x"]%string Hs) as [H1 H2].
  split; [|exact H2].
  exact (H1 "nan"%string ["5"%string] false false 0%N eq_refl).
Defined.

(** ** Reading the count *)

Lemma py_isdigit_facts (c : ascii) :
  py_isdigit c = true ->
  int_space c = false /\ c <> "-"%char /\ c <> "+"%char /\ c <> "_"%char.
Proof.
  intros H. destruct c as [[] [] [] [] [] [] [] []]; vm_compute in H; try discriminate H;
    repeat split; discriminate.
Qed.

Lemma isdigit_py_isdigit (c : ascii) : isdigit c = true -> py_isdigit c = true.
Proof. intros H. unfold py_isdigit. rewrite H. reflexivity. Qed.

Lemma int_strip_no_space (s : list ascii) :
  (forall c, In c s -> int_space c = false) ->
  rev (int_lstrip (rev (int_lstrip s))) = s.
Proof.
  assert (Hl : forall u, (forall c, In c u -> int_space c = false) -> int_lstrip u = u).
  { intros [|a r] Hu; [reflexivity|]. cbn [int_lstrip].
    rewrite (Hu a); [reflexivity|left; reflexivity]. }
  intros H. rewrite (Hl s H), Hl, rev_involutive; [reflexivity|].
  intros c Hc. apply H. apply in_rev. exact Hc.
Qed.

Lemma literal_digits_all (s : list ascii) (after_digit : bool) :
  forallb isdigit s = true -> s <> [] \/ after_digit = true ->
  literal_digits after_digit s = Some s.
Proof.
  revert after_digit. induction s as [|c r IH]; intros b Hs Hb.
  - destruct Hb as [Hb|Hb]; [contradiction Hb; reflexivity|]. subst b. reflexivity.
  - cbn [forallb] in Hs. apply andb_true_iff in Hs. destruct Hs as [Hc Hr].
    cbn [literal_digits]. rewrite Hc, (IH true Hr); [reflexivity|right; reflexivity].
Qed.

Lemma literal_digits_foreign (s : list ascii) (after_digit : bool) (c : ascii) :
  In c s -> isdigit c = false -> c <> "_"%char -> literal_digits after_digit s = None.
Proof.
  intros Hin Hc Hu. revert after_digit. induction s as [|x r IH]; intros b; [contradiction|].
  cbn [literal_digits]. destruct Hin as [E|Hin].
  - subst x. rewrite Hc. destruct (Ascii.eqb_spec c "_"); [contradiction|reflexivity].
  - destruct (isdigit x); [rewrite (IH Hin); reflexivity|].
    destruct (Ascii.eqb x "_"); [|reflexivity].
    destruct b; [apply IH; exact Hin|reflexivity].
Qed.

Lemma forallb_false_witness {A : Type} (f : A -> bool) (l : list A) :
  forallb f l = false -> exists x, In x l /\ f x = false.
Proof.
  induction l as [|x u IH]; [discriminate|].
  cbn [forallb]. destruct (f x) eqn:Hx; intros H.
  - destruct (IH H) as [y [Hy1 Hy2]]. exists y. split; [right; exact Hy1|exact Hy2].
  - exists x. split; [left; reflexivity|exact Hx].
Qed.

(** [int] on a text that passes [isdigit]: the value of the digits, or
    ValueError for a superscript digit or more than 4300 digits. *)
Lemma int_of_isdigit (s : list ascii) :
  str_isdigit s = true ->
  int_of_str s =
  if forallb isdigit s && (List.length s <=? max_str_digits)%nat
  then Ok (Z.of_N (int_of_digits s)) else Raise ValueError.
Proof.
  intros H. destruct s as [|c r]; [discriminate H|].
  cbn [str_isdigit] in H. set (s := c :: r) in *.
  assert (Hall : forall x, In x s -> py_isdigit x = true)
    by (apply forallb_forall; exact H).
  unfold int_of_str.
  rewrite int_strip_no_space by (intros x Hx; apply py_isdigit_facts, Hall, Hx).
  destruct (py_isdigit_facts c (Hall c (or_introl eq_refl))) as [_ [Hm [Hp _]]].
  unfold s at 1.
  destruct (Ascii.eqb_spec c "-"); [contradiction|].
  destruct (Ascii.eqb_spec c "+"); [contradiction|]. fold s.
  destruct (forallb isdigit s) eqn:Hd.
  - rewrite (literal_digits_all s false Hd) by (left; discriminate).
    cbn [andb]. destruct (Nat.leb_spec (List.length s) max_str_digits) as [Hl|Hl].
    + destruct (Nat.ltb_spec max_str_digits (List.length s)); [lia|reflexivity].
    + destruct (Nat.ltb_spec max_str_digits (List.length s)); [reflexivity|lia].
  - cbn [andb].
    destruct (forallb_false_witness isdigit s Hd) as [x [Hx1 Hx2]].
    rewrite (literal_digits_foreign s false x Hx1 Hx2); [reflexivity|].
    apply (py_isdigit_facts x (Hall x Hx1)).
Qed.

Lemma int_of_digits_nonneg (s : list ascii) : 0 <= Z.of_N (int_of_digits s).
Proof. lia. Qed.

(** X9.  What [get_positive_int] returns is a whole number that is not
    negative and not below [min_value]: it is what [int] gives for the
    first line that, stripped, passes [str.isdigit] and whose number is not
    below [min_value].  In a line of code points below 256, as a line is
    here, the characters of that line are then the digits 0 to 9 and the
    number is their decimal value.  What was written up to then is, for
    every line before it in turn, the prompt and the one message that
    answers the line (Please enter a positive integer when the line does
    not pass [str.isdigit], Please enter an integer >= [min_value]
    otherwise), and then the prompt the accepted line answers: nothing
    else, and in this order. *)
Theorem get_positive_int_returns (prompt : string) (min_value : Z) (stdin : list string)
        (n : Z) (rest : list string) (out : list event) :
  get_positive_int prompt min_value stdin = Returns n rest out ->
  min_value <= n /\ 0 <= n /\
  exists skipped line,
    stdin = skipped ++ line :: rest /\
    Forall (count_rejected min_value) skipped /\
    str_isdigit (strip (list_ascii_of_string line)) = true /\
    int_of_str (strip (list_ascii_of_string line)) = Ok n /\
    forallb isdigit (strip (list_ascii_of_string line)) = true /\
    n = Z.of_N (int_of_digits (strip (list_ascii_of_string line))) /\
    out = exchange prompt (count_reply min_value) skipped ++ [Prompt prompt].
Proof.
  revert out. induction stdin as [|line stdin IH]; intros out H; [discriminate H|].
  cbn [get_positive_int] in H.
  set (s := strip (list_ascii_of_string line)) in *.
  destruct (str_isdigit s) eqn:Hs; cbn [negb] in H.
  - rewrite (int_of_isdigit s Hs) in H.
    destruct (forallb isdigit s) eqn:Hd; cbn [andb] in H.
    + destruct (List.length s <=? max_str_digits)%nat eqn:El; [|discriminate H].
      destruct (Z.ltb_spec (Z.of_N (int_of_digits s)) min_value) as [Hlt|Hge].
      * destruct (get_positive_int prompt min_value stdin) as [n' rest' out'| | |] eqn:Eg;
          try discriminate H.
        cbn [emit] in H. inversion H. subst n' rest' out.
        destruct (IH out' eq_refl)
          as [H1 [H2 [skipped [l [E1 [E2 [E3 [E4 [E5 [E6 E7]]]]]]]]]].
        split; [exact H1|]. split; [exact H2|]. exists (line :: skipped), l.
        split; [rewrite E1; reflexivity|].
        split.
        { constructor; [|exact E2]. unfold count_rejected. fold s.
          right. exists (Z.of_N (int_of_digits s)).
          rewrite (int_of_isdigit s Hs), Hd, El. split; [reflexivity|exact Hlt]. }
        split; [exact E3|]. split; [exact E4|]. split; [exact E5|]. split; [exact E6|].
        unfold exchange. cbn [flat_map].
        fold (exchange prompt (count_reply min_value) skipped).
        unfold count_reply at 1. fold s. rewrite Hs, E7. reflexivity.
      * cbn [emit] in H. inversion H. subst n rest out.
        split; [exact Hge|]. split; [lia|]. exists [], line.
        split; [reflexivity|]. split; [constructor|]. fold s.
        split; [exact Hs|].
        split; [rewrite (int_of_isdigit s Hs), Hd, El; reflexivity|].
        split; [exact Hd|]. split; reflexivity.
    + discriminate H.
  - destruct (get_positive_int prompt min_value stdin) as [n' rest' out'| | |] eqn:Eg;
      try discriminate H.
    cbn [emit] in H. inversion H. subst n' rest' out.
    destruct (IH out' eq_refl)
      as [H1 [H2 [skipped [l [E1 [E2 [E3 [E4 [E5 [E6 E7]]]]]]]]]].
    split; [exact H1|]. split; [exact H2|]. exists (line :: skipped), l.
    split; [rewrite E1; reflexivity|].
    split; [constructor; [unfold count_rejected; fold s; left; exact Hs|exact E2]|].
    split; [exact E3|]. split; [exact E4|]. split; [exact E5|]. split; [exact E6|].
    unfold exchange. cbn [flat_map].
    fold (exchange prompt (count_reply min_value) skipped).
    unfold count_reply at 1. fold s. rewrite Hs, E7. reflexivity.
Qed.

(** Two lines are turned down, each with its own message, before 12 is
    read. *)
Lemma get_positive_int_returns_witness :
  1 <= 12 /\ 0 <= 12 /\
  exists skipped line,
    ["three"; "0"; " 12 "; "y"]%string = skipped ++ line :: ["y"%string] /\
    Forall (count_rejected 1) skipped /\
    str_isdigit (strip (list_ascii_of_string line)) = true /\
    int_of_str (strip (list_ascii_of_string line)) = Ok 12 /\
    forallb isdigit (strip (list_ascii_of_string line)) = true /\
    12 = Z.of_N (int_of_digits (strip (list_ascii_of_string line))) /\
    [Prompt "People: "; Print "Please enter a positive integer.";
     Prompt "People: "; Print "Please enter an integer >= 1.";
     Prompt "People: "]
    = exchange "People: " (count_reply 1) skipped ++ [Prompt "People: "].
Proof.
  apply (get_positive_int_returns "People: " 1 ["three"; "0"; " 12 "; "y"]%string).
  reflexivity.
Defined.

Lemma get_positive_int_skips (prompt : string) (min_value : Z) (skipped : list string) :
  Forall (count_rejected min_value) skipped ->
  forall stdin, exists out,
    get_positive_int prompt min_value (skipped ++ stdin)
    = emit out (get_positive_int prompt min_value stdin) /\
    out = exchange prompt (count_reply min_value) skipped.
Proof.
  induction 1 as [|line skipped Hl Hs IH]; intros stdin.
  - exists []. split; [|reflexivity]. rewrite emit_nil. reflexivity.
  - destruct (IH stdin) as [out [E L]].
    cbn [app get_positive_int]. rewrite E.
    unfold exchange. cbn [flat_map].
    fold (exchange prompt (count_reply min_value) skipped).
    unfold count_reply at 1 2.
    unfold count_rejected in Hl.
    set (s := strip (list_ascii_of_string line)) in *.
    destruct (str_isdigit s) eqn:Hd; cbn [negb].
    + destruct Hl as [Hl|[n [Hl Hn]]]; [discriminate Hl|]. rewrite Hl.
      destruct (Z.ltb_spec n min_value); [|lia].
      eexists (Prompt prompt :: Print _ :: out).
      split; [|rewrite L; reflexivity]. rewrite !emit_emit. reflexivity.
    + exists (Prompt prompt :: Print "Please enter a positive integer." :: out).
      split; [|rewrite L; reflexivity]. rewrite !emit_emit. reflexivity.
Qed.

(** X10.  A line that passes [isdigit] and that [int] refuses, for a superscript
    digit or for more than 4300 digits, ends [get_positive_int] with
    ValueError, for which it has no handler, however many lines were
    turned down before. *)
Theorem get_positive_int_refused (prompt : string) (min_value : Z)
        (skipped : list string) (line : string) (rest : list string) :
  Forall (count_rejected min_value) skipped ->
  str_isdigit (strip (list_ascii_of_string line)) = true ->
  forallb isdigit (strip (list_ascii_of_string line)) = false \/
  (max_str_digits < List.length (strip (list_ascii_of_string line)))%nat ->
  exists out,
    get_positive_int prompt min_value (skipped ++ line :: rest) = Raises ValueError out.
Proof.
  intros Hs Hd Hbad.
  destruct (get_positive_int_skips prompt min_value skipped Hs (line :: rest)) as [out [E _]].
  rewrite E. cbn [get_positive_int].
  set (s := strip (list_ascii_of_string line)) in *.
  rewrite Hd. cbn [negb]. rewrite (int_of_isdigit s Hd).
  assert (Hf : forallb isdigit s && (List.length s <=? max_str_digits)%nat = false).
  { destruct Hbad as [Hb|Hb]; [rewrite Hb; reflexivity|].
    destruct (Nat.leb_spec (List.length s) max_str_digits); [lia|apply andb_false_r]. }
  rewrite Hf. eexists. reflexivity.
Qed.

Lemma get_positive_int_refused_witness :
  exists out,
    get_positive_int "People: " 1 (["0"%string] ++ String "178" "3" :: ["4"%string])
    = Raises ValueError out.
Proof.
  apply (get_positive_int_refused "People: " 1 ["0"%string] (String "178" "3") ["4"%string]).
  - constructor; [|constructor]. right. exists 0. split; [reflexivity|lia].
  - reflexivity.
  - left. reflexivity.
Defined.

(** ** Asking for the names *)

Lemma read_names_returns (count : nat) :
  forall i stdin names rest out,
    read_names i count stdin = Returns names rest out ->
    List.length names = count /\
    Forall (fun name => name <> ""%string) names /\
    List.length stdin = (count + List.length rest)%nat /\
    List.length out = count.
Proof.
  induction count as [|count IH]; intros i stdin names rest out H.
  - cbn [read_names] in H. inversion H. subst. repeat split; constructor.
  - cbn [read_names] in H. destruct stdin as [|line stdin]; [discriminate H|].
    destruct (read_names (S i) count stdin) as [names' rest' out'| | |] eqn:E;
      try discriminate H.
    cbn [map_run emit] in H. inversion H. subst names rest out.
    destruct (IH (S i) stdin names' rest' out' E) as [H1 [H2 [H3 H4]]].
    split; [cbn [List.length]; lia|]. split.
    + constructor; [|exact H2].
      destruct (String.eqb_spec (py_strip line) "") as [Ee|Ee]; [discriminate|exact Ee].
    + split; cbn [List.length app]; lia.
Qed.

(** X11.  Whenever [ask_names] returns it returns exactly [n] names, none of
    them empty.  It has read one line, and [n] more when the answer,
    stripped and in lower case, is y; for any other answer the names are
    the default names of the allocators. *)
Theorem ask_names_returns (n : nat) (stdin : list string)
        (names rest : list string) (out : list event) :
  ask_names n stdin = Returns names rest out ->
  List.length names = n /\
  Forall (fun name => name <> ""%string) names /\
  exists answer lines,
    stdin = answer :: lines /\
    if String.eqb (py_lower (py_strip answer)) "y"
    then List.length lines = (n + List.length rest)%nat
    else names = default_names n /\ rest = lines.
Proof.
  intros H. unfold ask_names in H. destruct stdin as [|answer lines]; [discriminate H|].
  destruct (String.eqb (py_lower (py_strip answer)) "y") eqn:Ey.
  - destruct (read_names 1 n lines) as [names' rest' out'| | |] eqn:E; try discriminate H.
    cbn [emit] in H. inversion H. subst names rest out.
    destruct (read_names_returns n 1%nat lines names' rest' out' E) as [H1 [H2 [H3 _]]].
    split; [exact H1|]. split; [exact H2|]. exists answer, lines.
    split; [reflexivity|]. rewrite Ey. exact H3.
  - cbn [emit] in H. inversion H. subst names rest out.
    split; [apply default_names_length|]. split.
    + apply Forall_forall. intros name Hin. unfold default_names in Hin.
      apply in_map_iff in Hin. destruct Hin as [k [Ek _]]. subst name. discriminate.
    + exists answer, lines. split; [reflexivity|]. rewrite Ey. split; reflexivity.
Qed.

Lemma ask_names_returns_witness :
  List.length ["Ann"; "Person 2"]%string = 2%nat /\
  Forall (fun name => name <> ""%string) ["Ann"; "Person 2"]%string /\
  exists answer lines,
    [" Y "; " Ann"; "  "; "e"]%string = answer :: lines /\
    if String.eqb (py_lower (py_strip answer)) "y"
    then List.length lines = (2 + List.length ["e"%string])%nat
    else ["Ann"; "Person 2"]%string = default_names 2 /\ ["e"%string] = lines.
Proof.
  eapply (ask_names_returns 2 [" Y "; " Ann"; "  "; "e"]%string).
  reflexivity.
Defined.

(** ** Exporting the result *)

Lemma rfind_spec (c : ascii) (p : list ascii) :
  (rfind c p = -1 /\ ~ In c p) \/
  (exists pre post, p = pre ++ c :: post /\ rfind c p = Z.of_nat (List.length pre) /\
                    ~ In c post).
Proof.
  induction p as [|x r IH]; [left; split; [reflexivity|intros []]|].
  cbn [rfind]. destruct IH as [[E Hn]|[pre [post [E1 [E2 Hn]]]]].
  - rewrite E. cbn [Z.leb Z.compare]. cbv iota.
    destruct (Ascii.eqb_spec x c) as [Ex|Ex].
    + right. exists [], r. subst x. split; [reflexivity|]. split; [reflexivity|exact Hn].
    + left. split; [reflexivity|]. intros [H|H]; [congruence|contradiction].
  - right. exists (x :: pre), post. rewrite E2.
    destruct (Z.leb_spec 0 (Z.of_nat (List.length pre))); [|lia].
    split; [rewrite E1; reflexivity|]. split; [cbn [List.length]; lia|exact Hn].
Qed.

Lemma skipn_incl {A : Type} (n : nat) (l : list A) (x : A) : In x (skipn n l) -> In x l.
Proof.
  revert l. induction n as [|n IH]; intros [|a l] H; cbn [skipn] in H; auto.
  right. apply IH. exact H.
Qed.

Lemma skipn_past {A : Type} (pre : list A) (c : A) (post : list A) :
  skipn (S (List.length pre)) (pre ++ c :: post) = post.
Proof. induction pre as [|a pre IH]; [reflexivity|exact IH]. Qed.

Lemma splitext_spec (p base ext : list ascii) :
  splitext p = (base, ext) ->
  base ++ ext = p /\
  (ext = [] \/ exists e, ext = "."%char :: e /\ ~ In "."%char e /\ ~ In "/"%char e) /\
  (~ In "."%char p -> ext = []).
Proof.
  unfold splitext. intros H.
  destruct (rfind_spec "." p) as [[Ed Hd]|[pre [post [E1 [Ed Hd]]]]].
  - rewrite Ed in H.
    assert (Hs : (rfind "/" p <? -1) = false).
    { destruct (rfind_spec "/" p) as [[Es _]|[pre' [post' [_ [Es _]]]]]; rewrite Es;
        apply Z.ltb_ge; lia. }
    rewrite Hs in H. inversion H. subst base ext.
    split; [apply app_nil_r|]. split; [left; reflexivity|reflexivity].
  - rewrite Ed in H. split; [|split].
    + destruct (rfind "/" p <? Z.of_nat (List.length pre));
        [destruct (existsb _ _)|]; inversion H; try apply app_nil_r.
      apply firstn_skipn.
    + destruct (rfind "/" p <? Z.of_nat (List.length pre)) eqn:Hlt;
        [destruct (existsb _ _)|]; inversion H; try (left; reflexivity).
      right. exists post. rewrite Nat2Z.id.
      split; [rewrite E1, skipn_app, skipn_all, Nat.sub_diag; reflexivity|].
      split; [exact Hd|].
      apply Z.ltb_lt in Hlt.
      destruct (rfind_spec "/" p) as [[Es Hs]|[pre' [post' [E1' [Es Hs]]]]].
      * intros Hin. apply Hs. rewrite E1. apply in_or_app. right. right. exact Hin.
      * rewrite Es in Hlt. intros Hin. apply Hs.
        rewrite <- (skipn_past pre' "/"%char post'), <- E1'.
        rewrite <- (skipn_past pre "."%char post), <- E1 in Hin.
        replace (S (List.length pre))
          with ((S (List.length pre) - S (List.length pre')) + S (List.length pre'))%nat in Hin
          by lia.
        rewrite <- skipn_skipn in Hin. apply skipn_incl in Hin. exact Hin.
    + intros Hn. exfalso. apply Hn. rewrite E1. apply in_or_app. right. left. reflexivity.
Qed.

(** X15.  [splitext] cuts the path in two: root and extension together are the
    path again, and the extension is empty or begins with a dot and has
    no further dot and no slash in it; a path without a dot has no
    extension. *)
Theorem splitext_parts (p base ext : list ascii) :
  splitext p = (base, ext) ->
  base ++ ext = p /\
  (ext = [] \/ exists e, ext = "."%char :: e /\ ~ In "."%char e /\ ~ In "/"%char e) /\
  (~ In "."%char p -> ext = []).
Proof.
  exact (splitext_spec p base ext).
Qed.

Lemma splitext_parts_witness :
  list_ascii_of_string "out/bill.v2" ++ list_ascii_of_string ".txt"
  = list_ascii_of_string "out/bill.v2.txt" /\
  (list_ascii_of_string ".txt" = [] \/
   exists e, list_ascii_of_string ".txt" = "."%char :: e /\
             ~ In "."%char e /\ ~ In "/"%char e) /\
  (~ In "."%char (list_ascii_of_string "out/bill.v2.txt") -> list_ascii_of_string ".txt" = []).
Proof.
  apply (splitext_parts (list_ascii_of_string "out/bill.v2.txt")). reflexivity.
Defined.

Lemma string_of_list_ascii_app (a b : list ascii) :
  string_of_list_ascii (a ++ b) = (string_of_list_ascii a ++ string_of_list_ascii b)%string.
Proof. induction a as [|c a IH]; [reflexivity|]. cbn. rewrite IH. reflexivity. Qed.

Lemma string_length_app (a b : string) :
  String.length (a ++ b) = (String.length a + String.length b)%nat.
Proof. induction a as [|c a IH]; [reflexivity|]. cbn. rewrite IH. reflexivity. Qed.

(** X16.  [export_to_txt] asks [os.path.exists] once, of its first choice of
    a name: the file name, with .txt put after it when it has no extension.
    It then opens one path for writing: the first choice when the answer
    is no, and otherwise the first choice with the time stamp put before
    its extension, which is another path, so that a path reported to exist
    is never opened.  When [open] raises, as it does for a missing
    directory, the exception leaves the call and nothing is written;
    otherwise the text is written to the file opened, the file is closed,
    and the call returns the path opened, or raises what the write
    raised. *)
Theorem export_keeps_existing_file (filename result_summary timestamp : string)
        (fs : file_system) :
  let first :=
    match snd (splitext (list_ascii_of_string filename)) with
    | [] => (filename ++ ".txt")%string
    | _ => filename
    end in
  exists name,
    (fs_exists fs first = false -> name = first) /\
    (fs_exists fs first = true ->
     name <> first /\
     exists base ext,
       first = (base ++ ext)%string /\ name = (base ++ "_" ++ timestamp ++ ext)%string) /\
    export_to_txt filename result_summary timestamp fs =
    match fs_open fs name with
    | Some e => (Raise e, [AskExists first; OpenToWrite name])
    | None =>
        (match fs_write fs name result_summary with
         | Some e => Raise e
         | None => Ok name
         end,
         [AskExists first; OpenToWrite name;
          WriteText name result_summary; CloseFile name])
    end.
Proof.
  unfold export_to_txt.
  destruct (splitext (list_ascii_of_string filename)) as [base ext] eqn:Es.
  destruct (splitext_spec _ _ _ Es) as [Hcat _].
  cbn [snd].
  set (b := string_of_list_ascii base).
  set (e := match ext with [] => ".txt"%string | _ :: _ => string_of_list_ascii ext end).
  assert (Hfirst : match ext with [] => (filename ++ ".txt")%string | _ :: _ => filename end
                   = (b ++ e)%string).
  { unfold b, e. destruct ext as [|c ext].
    - rewrite app_nil_r in Hcat. rewrite Hcat, string_of_list_ascii_of_string. reflexivity.
    - rewrite <- string_of_list_ascii_app, Hcat, string_of_list_ascii_of_string. reflexivity. }
  rewrite Hfirst. clear Hfirst.
  exists (if fs_exists fs (b ++ e) then (b ++ "_" ++ timestamp ++ e)%string
          else (b ++ e)%string).
  split; [intros Hex; rewrite Hex; reflexivity|].
  split; [|reflexivity].
  intros Hex. rewrite Hex. split.
  - intros E. apply (f_equal String.length) in E.
    rewrite !string_length_app in E. cbn [String.length] in E. lia.
  - exists b, e. split; reflexivity.
Qed.

(** [bill.txt] exists, and the text goes to [bill_20250101-120000.txt];
    [nodir/bill.txt] cannot be opened, and the call raises with nothing
    written. *)
Lemma export_keeps_existing_file_witness :
  (exists name,
      name <> "bill.txt"%string /\
      export_to_txt "bill" "new" "20250101-120000" bill_exists
      = (Ok name, [AskExists "bill.txt"; OpenToWrite name;
                   WriteText name "new"; CloseFile name])) /\
  export_to_txt "nodir/bill" "new" "20250101-120000" no_directory
  = (Raise OSError, [AskExists "nodir/bill.txt"; OpenToWrite "nodir/bill.txt"]).
Proof.
  split.
  - destruct (export_keeps_existing_file "bill" "new" "20250101-120000" bill_exists)
      as [name [_ [H2 H3]]].
    exists name. split; [apply (H2 eq_refl)|exact H3].
  - destruct (export_keeps_existing_file "nodir/bill" "new" "20250101-120000" no_directory)
      as [name [H1 [_ H3]]].
    rewrite (H1 eq_refl) in H3. exact H3.
Defined.

(** ** Printing an amount and reading it back *)

(** The value of a digit sequence, most significant digit first. *)
Lemma int_of_digits_app (a b : list ascii) :
  int_of_digits (a ++ b) =
  fold_left (fun acc c => (10 * acc + digit_value c)%N) b (int_of_digits a).
Proof. unfold int_of_digits. apply fold_left_app. Qed.

Lemma uint_chars_fold_pos (u : Init.Decimal.uint) :
  forall p : positive,
    fold_left (fun acc c => (10 * acc + digit_value c)%N)
              (list_ascii_of_string (NilEmpty.string_of_uint u)) (N.pos p)
    = N.pos (Pos.of_uint_acc u p).
Proof.
  induction u as [|u IH|u IH|u IH|u IH|u IH|u IH|u IH|u IH|u IH|u IH]; intros p;
    [reflexivity|..];
    cbn [NilEmpty.string_of_uint list_ascii_of_string fold_left Pos.of_uint_acc];
    rewrite <- IH; f_equal;
    match goal with |- (_ + digit_value ?c)%N = _ =>
      let v := eval vm_compute in (digit_value c) in change (digit_value c) with v end;
    lia.
Qed.

Lemma uint_chars_fold (u : Init.Decimal.uint) :
  fold_left (fun acc c => (10 * acc + digit_value c)%N)
            (list_ascii_of_string (NilEmpty.string_of_uint u)) 0%N
  = N.of_uint u.
Proof.
  induction u as [|u IH|u IH|u IH|u IH|u IH|u IH|u IH|u IH|u IH|u IH];
    [reflexivity|exact IH|..];
    cbn [NilEmpty.string_of_uint list_ascii_of_string fold_left];
    match goal with |- fold_left _ _ ?a = _ =>
      let v := eval vm_compute in a in change a with v end;
    apply uint_chars_fold_pos.
Qed.

Lemma uint_chars_digits (u : Init.Decimal.uint) :
  forallb isdigit (list_ascii_of_string (NilEmpty.string_of_uint u)) = true.
Proof.
  induction u as [|u IH|u IH|u IH|u IH|u IH|u IH|u IH|u IH|u IH|u IH];
    [reflexivity|..];
    cbn [NilEmpty.string_of_uint list_ascii_of_string forallb]; rewrite IH; reflexivity.
Qed.

Lemma to_uint_nonnil (n : N) : N.to_uint n <> Init.Decimal.Nil.
Proof.
  destruct n as [|p]; [discriminate|]. apply DecimalPos.Unsigned.to_uint_nonnil.
Qed.

Lemma digits_of_N_NilEmpty (n : N) :
  digits_of_N n = list_ascii_of_string (NilEmpty.string_of_uint (N.to_uint n)).
Proof.
  unfold digits_of_N, NilZero.string_of_uint.
  pose proof (to_uint_nonnil n) as H. destruct (N.to_uint n); [contradiction H|..]; reflexivity.
Qed.

Lemma digits_of_N_value (n : N) : int_of_digits (digits_of_N n) = n.
Proof.
  rewrite digits_of_N_NilEmpty. unfold int_of_digits. rewrite uint_chars_fold.
  apply DecimalN.Unsigned.of_to.
Qed.

Lemma digits_of_N_digits (n : N) : forallb isdigit (digits_of_N n) = true.
Proof. rewrite digits_of_N_NilEmpty. apply uint_chars_digits. Qed.

Lemma digits_of_N_nonempty (n : N) : digits_of_N n <> [].
Proof.
  rewrite digits_of_N_NilEmpty. pose proof (to_uint_nonnil n) as H.
  destruct (N.to_uint n); [exfalso; apply H; reflexivity|..];
    cbn [NilEmpty.string_of_uint list_ascii_of_string]; discriminate.
Qed.

Lemma span_digits_app (ds rest : list ascii) :
  forallb isdigit ds = true ->
  match rest with [] => True | c :: _ => isdigit c = false end ->
  span_digits (ds ++ rest) = (ds, rest).
Proof.
  intros Hd Hr. induction ds as [|c ds IH].
  - destruct rest as [|c r]; [reflexivity|]. cbn [app span_digits]. rewrite Hr. reflexivity.
  - cbn [forallb] in Hd. apply andb_true_iff in Hd. destruct Hd as [Hc Hd].
    cbn [app span_digits]. rewrite Hc, (IH Hd). reflexivity.
Qed.

Lemma parse_exponent_signed (k : Z) :
  parse_exponent ("E"%char :: signed_digits k) = Some k.
Proof.
  unfold parse_exponent, signed_digits.
  change (Ascii.eqb (lower "E") "e") with true. cbv iota.
  pose proof (span_digits_app (digits_of_N (Z.abs_N k)) [] (digits_of_N_digits _) I) as Hs.
  rewrite app_nil_r in Hs.
  pose proof (digits_of_N_nonempty (Z.abs_N k)) as Hne.
  destruct (Z.ltb_spec k 0); cbv beta iota; rewrite Hs;
    destruct (digits_of_N (Z.abs_N k)) as [|c r] eqn:E; try (contradiction Hne; reflexivity);
    rewrite <- E, digits_of_N_value; f_equal; lia.
Qed.

(** A number in the pieces [str] writes: digits, a fraction after a
    point, an exponent. *)
Lemma parse_number_pieces (sign : bool) (whole frac : list ascii)
      (point marker : bool) (k : Z) :
  forallb isdigit whole = true -> forallb isdigit frac = true -> whole <> [] ->
  parse_number sign
    (whole ++ (if point then "."%char :: frac else [])
           ++ (if marker then "E"%char :: signed_digits k else []))
  = Some (Finite (Decimal.mk sign
                    (int_of_digits (whole ++ (if point then frac else [])))
                    ((if marker then k else 0)
                     - Z.of_nat (List.length (if point then frac else []))))).
Proof.
  intros Hw Hf Hne. unfold parse_number.
  rewrite (span_digits_app whole _ Hw)
    by (destruct point; [reflexivity|destruct marker; [reflexivity|exact I]]).
  destruct point.
  - cbn [app]. rewrite (span_digits_app frac _ Hf) by (destruct marker; [reflexivity|exact I]).
    destruct (whole ++ frac) as [|c r] eqn:E.
    { destruct whole; [contradiction Hne; reflexivity|discriminate E]. }
    rewrite <- E. destruct marker; [rewrite parse_exponent_signed|]; reflexivity.
  - destruct marker; cbn [app]; rewrite !app_nil_r;
      (destruct whole as [|c r]; [contradiction Hne; reflexivity|]);
      [rewrite parse_exponent_signed|]; reflexivity.
Qed.

Lemma str_char_facts (c : ascii) :
  str_char c = true ->
  isspace c = false /\ c <> ","%char /\ c <> "$"%char /\ c <> "_"%char.
Proof.
  intros H. destruct c as [[] [] [] [] [] [] [] []]; vm_compute in H; try discriminate H;
    repeat split; discriminate.
Qed.

Lemma digits_str_char (l : list ascii) :
  forallb isdigit l = true -> forallb str_char l = true.
Proof.
  intros H. apply forallb_forall. intros c Hc. unfold str_char.
  rewrite forallb_forall in H. rewrite (H c Hc). reflexivity.
Qed.

Lemma sign_split_digit (c : ascii) (r : list ascii) :
  isdigit c = true ->
  match c :: r with
  | "-"%char :: r' => (true, r')
  | "+"%char :: r' => (false, r')
  | _ => (false, c :: r)
  end = (false, c :: r).
Proof.
  intros H. destruct c as [[] [] [] [] [] [] [] []]; vm_compute in H; try discriminate H;
    reflexivity.
Qed.

Lemma int_of_digits_zeros (m : nat) : int_of_digits (repeat "0"%char m) = 0%N.
Proof. unfold int_of_digits. induction m as [|m IH]; [reflexivity|exact IH]. Qed.

(** [to_decimal] on a text in the pieces [str] writes. *)
Lemma to_decimal_pieces (sign : bool) (whole frac : list ascii)
      (point marker : bool) (k : Z) :
  forallb isdigit whole = true -> forallb isdigit frac = true -> whole <> [] ->
  to_decimal (string_of_list_ascii
                ((if sign then ["-"%char] else [])
                   ++ whole ++ (if point then "."%char :: frac else [])
                   ++ (if marker then "E"%char :: signed_digits k else [])))
  = let d := Decimal.mk sign
               (int_of_digits (whole ++ (if point then frac else [])))
               ((if marker then k else 0)
                - Z.of_nat (List.length (if point then frac else []))) in
    if constructible d then Ok (Finite d) else Raise ValueError.
Proof.
  intros Hw Hf Hne. cbv zeta.
  pose proof (parse_number_pieces sign whole frac point marker k Hw Hf Hne) as Hp.
  set (body := whole ++ (if point then "."%char :: frac else [])
                     ++ (if marker then "E"%char :: signed_digits k else [])) in *.
  set (l := (if sign then ["-"%char] else []) ++ body).
  assert (Hl : forallb str_char l = true).
  { unfold l, body. rewrite !forallb_app. rewrite (digits_str_char whole Hw).
    assert (H1 : forallb str_char (if sign then ["-"%char] else []) = true)
      by (destruct sign; reflexivity).
    assert (H2 : forallb str_char (if point then "."%char :: frac else []) = true).
    { destruct point; [|reflexivity]. cbn [forallb]. rewrite (digits_str_char frac Hf).
      reflexivity. }
    assert (H3 : forallb str_char (if marker then "E"%char :: signed_digits k else []) = true).
    { destruct marker; [|reflexivity]. unfold signed_digits. cbn [forallb].
      rewrite (digits_str_char _ (digits_of_N_digits _)). destruct (k <? 0); reflexivity. }
    rewrite H1, H2, H3. reflexivity. }
  assert (Hin : forall c, In c l ->
                  isspace c = false /\ c <> ","%char /\ c <> "$"%char /\ c <> "_"%char).
  { intros c Hc. apply str_char_facts. rewrite forallb_forall in Hl. apply Hl. exact Hc. }
  unfold to_decimal. rewrite list_ascii_of_string_of_list_ascii.
  rewrite (strip_no_space l) by (intros c Hc; apply (Hin c Hc)).
  rewrite (remove_char_absent ","), (remove_char_absent "$");
    try (intros Hc; destruct (Hin _ Hc) as [_ [H1 [H2 _]]]; congruence).
  unfold Decimal_of_str, Decimal_syntax.
  rewrite (strip_no_space l) by (intros c Hc; apply (Hin c Hc)).
  rewrite (remove_char_absent "_")
    by (intros Hc; destruct (Hin _ Hc) as [_ [_ [_ H3]]]; congruence).
  assert (Hb : exists c r, body = c :: r /\ isdigit c = true).
  { unfold body. destruct whole as [|c r]; [contradiction Hne; reflexivity|].
    exists c. eexists. split; [reflexivity|].
    cbn [forallb] in Hw. apply andb_true_iff in Hw. apply Hw. }
  destruct Hb as [c [r [Eb Hc]]].
  assert (Hsplit : match l with
                   | "-"%char :: r' => (true, r')
                   | "+"%char :: r' => (false, r')
                   | _ => (false, l)
                   end = (sign, body)).
  { unfold l. destruct sign; [reflexivity|]. cbn [app]. rewrite Eb.
    apply sign_split_digit. exact Hc. }
  rewrite Hsplit, Eb, Hc. cbn [orb]. rewrite <- Eb, Hp.
  destruct (constructible _); reflexivity.
Qed.

(** X6.  Reading back what is printed: [to_decimal] of [str(d)] is [d], with
    its sign, coefficient and exponent, for every finite [d] within the
    limits of the decimal module, that is for every number a program can
    hold (for a triple outside the limits the text is refused). *)
Theorem to_decimal_of_str (d : Decimal.t) :
  to_decimal (Decimal_str d) =
  if constructible d then Ok (Finite d) else Raise ValueError.
Proof.
  destruct d as [sign c e]. unfold Decimal_str. cbn [d_sign d_int d_exp].
  pose proof (digits_of_N_digits c) as Hd.
  pose proof (digits_of_N_nonempty c) as Hne.
  pose proof (digits_of_N_value c) as Hv.
  set (digs := digits_of_N c) in *.
  set (len := Z.of_nat (List.length digs)).
  assert (Hlen : 1 <= len).
  { unfold len. destruct digs; [contradiction Hne; reflexivity|]. cbn [List.length]. lia. }
  set (leftdigits := e + len).
  set (dp := if (e <=? 0) && (-6 <? leftdigits) then leftdigits else 1).
  assert (Hdp : dp <= len /\ (dp = 1 \/ dp = leftdigits /\ e <= 0)).
  { unfold dp. destruct (Z.leb_spec e 0); cbn [andb]; [|lia].
    destruct (Z.ltb_spec (-6) leftdigits); unfold leftdigits in *; lia. }
  destruct Hdp as [Hdp1 Hdp2].
  set (marker := negb (leftdigits =? dp)).
  assert (Hexp : (if leftdigits =? dp then []
                  else "E"%char :: signed_digits (leftdigits - dp))
                 = (if marker then "E"%char :: signed_digits (leftdigits - dp) else []))
    by (unfold marker; destruct (leftdigits =? dp); reflexivity).
  assert (Hk : (if marker then leftdigits - dp else 0) = leftdigits - dp).
  { unfold marker. destruct (Z.eqb_spec leftdigits dp); cbn [negb]; lia. }
  rewrite Hexp. clear Hexp.
  destruct (Z.leb_spec dp 0) as [H0|H0].
  - (* 0.000ddd *)
    assert (Hf : forallb isdigit (repeat "0"%char (Z.to_nat (- dp)) ++ digs) = true).
    { rewrite forallb_app, Hd, andb_true_r. apply forallb_forall.
      intros x Hx. apply repeat_spec in Hx. subst x. reflexivity. }
    rewrite (to_decimal_pieces sign ["0"%char] _ true marker (leftdigits - dp)
               eq_refl Hf ltac:(discriminate)).
    cbv zeta. rewrite Hk.
    match goal with |- (if constructible ?x then _ else _) = _ =>
      assert (E : x = Decimal.mk sign c e); [|rewrite E; reflexivity] end.
    f_equal.
    + assert (Hz : int_of_digits ("0"%char :: repeat "0"%char (Z.to_nat (- dp))) = 0%N).
      { apply (int_of_digits_zeros (S (Z.to_nat (- dp)))). }
      change (["0"%char] ++ repeat "0"%char (Z.to_nat (- dp)) ++ digs)
        with (("0"%char :: repeat "0"%char (Z.to_nat (- dp))) ++ digs).
      rewrite int_of_digits_app, Hz. exact Hv.
    + rewrite length_app, repeat_length. fold len. unfold leftdigits in *. lia.
  - destruct (Z.leb_spec len dp) as [H1|H1].
    + (* ddd *)
      assert (Edp : dp = len) by lia.
      replace (Z.to_nat (dp - len)) with O by lia. cbn [repeat]. rewrite app_nil_r.
      rewrite (to_decimal_pieces sign digs [] false marker (leftdigits - dp) Hd eq_refl Hne).
      cbv zeta. rewrite Hk, app_nil_r, Hv. cbn [List.length].
      match goal with |- (if constructible ?x then _ else _) = _ =>
        assert (E : x = Decimal.mk sign c e); [|rewrite E; reflexivity] end.
      f_equal. unfold leftdigits. lia.
    + (* d.dd *)
      assert (Hw : forallb isdigit (firstn (Z.to_nat dp) digs) = true).
      { apply forallb_forall. intros x Hx. rewrite forallb_forall in Hd. apply Hd.
        rewrite <- (firstn_skipn (Z.to_nat dp) digs). apply in_or_app. left. exact Hx. }
      assert (Hf : forallb isdigit (skipn (Z.to_nat dp) digs) = true).
      { apply forallb_forall. intros x Hx. rewrite forallb_forall in Hd. apply Hd.
        rewrite <- (firstn_skipn (Z.to_nat dp) digs). apply in_or_app. right. exact Hx. }
      assert (Hwne : firstn (Z.to_nat dp) digs <> []).
      { intros E. apply (f_equal (@List.length ascii)) in E.
        rewrite length_firstn in E. cbn [List.length] in E. unfold len in *. lia. }
      rewrite (to_decimal_pieces sign _ _ true marker (leftdigits - dp) Hw Hf Hwne).
      cbv zeta. rewrite Hk, firstn_skipn, Hv, length_skipn.
      match goal with |- (if constructible ?x then _ else _) = _ =>
        assert (E : x = Decimal.mk sign c e); [|rewrite E; reflexivity] end.
      f_equal. unfold leftdigits, len in *. lia.
Qed.

(** ** The residual in percentage mode *)

(** X4.  In percentage mode too the residual goes round the participants from
    the first: the share of participant [j] is the rounded percentage share
    plus or minus one cent for each of the [share_of m n j] times the round
    robin reaches [j] in the [m] iterations, and an earlier participant is
    reached at least as often as a later one. *)
Theorem percentage_round_robin (K M : Z) (total : Decimal.t)
        (percentages : list Decimal.t) (names : option (list string)) :
  valid_total K total -> Forall valid_percentage percentages ->
  valid_count M (List.length percentages) -> 0 <= K -> 0 <= M -> K + M <= 22 ->
  exists shares residual out,
    percentage_shares total percentages = Ok (shares, residual) /\
    split_by_percentage (S (steps residual)) total percentages names
      = Ok (combine (names_or_default names (List.length percentages)) out) /\
    List.length out = List.length percentages /\
    forall j, (j < List.length percentages)%nat ->
      d_exp (nth j out zero_00) = -2 /\
      cents (nth j out zero_00)
        = cents (nth j shares zero_00)
          + direction residual * share_of (steps residual) (List.length percentages) j /\
      forall j', (j <= j')%nat ->
        share_of (steps residual) (List.length percentages) j'
        <= share_of (steps residual) (List.length percentages) j.
Proof.
  intros Ht Hps Hn HK HM HKM.
  destruct (split_by_percentage_spec total percentages names K M Ht Hps Hn HK HM HKM)
    as [shares [residual [out [E1 [E2 [E3 [E4 [E5 [E6 [E7 [E8 [E9 E10]]]]]]]]]]]].
  exists shares, residual, out.
  split; [exact E1|]. split; [exact E2|]. split; [exact E8|].
  intros j Hj. split; [apply Forall_nth; [exact E7|lia]|]. split.
  - rewrite <- !nth_map_cents, E9.
    apply distribute_round_robin; [exact Hj|]. rewrite length_map. symmetry. exact E4.
  - intros j' Hjj. apply share_of_order. exact Hjj.
Qed.

(** 1000.00 by the percentages 33.33, 33.33 and 33.33: the rounded shares
    are 333.30 each, the residual is 0.10, and its ten cents go round the
    three participants, four to the first and three to each of the
    others. *)
Lemma percentage_round_robin_witness :
  (exists shares residual out,
    percentage_shares (Decimal.mk false 100000 (-2))
      [Decimal.mk false 3333 (-2); Decimal.mk false 3333 (-2); Decimal.mk false 3333 (-2)]
      = Ok (shares, residual) /\
    split_by_percentage (S (steps residual)) (Decimal.mk false 100000 (-2))
      [Decimal.mk false 3333 (-2); Decimal.mk false 3333 (-2); Decimal.mk false 3333 (-2)] None
      = Ok (combine (names_or_default None 3) out) /\
    List.length out = 3%nat /\
    forall j, (j < 3)%nat ->
      d_exp (nth j out zero_00) = -2 /\
      cents (nth j out zero_00)
        = cents (nth j shares zero_00)
          + direction residual * share_of (steps residual) 3 j /\
      forall j', (j <= j')%nat ->
        share_of (steps residual) 3 j' <= share_of (steps residual) 3 j) /\
  percentage_shares (Decimal.mk false 100000 (-2))
    [Decimal.mk false 3333 (-2); Decimal.mk false 3333 (-2); Decimal.mk false 3333 (-2)]
    = Ok ([Decimal.mk false 33330 (-2); Decimal.mk false 33330 (-2);
           Decimal.mk false 33330 (-2)], Decimal.mk false 10 (-2)) /\
  split_by_percentage 11 (Decimal.mk false 100000 (-2))
    [Decimal.mk false 3333 (-2); Decimal.mk false 3333 (-2); Decimal.mk false 3333 (-2)] None
    = Ok [("Person 1"%string, Decimal.mk false 33334 (-2));
          ("Person 2"%string, Decimal.mk false 33333 (-2));
          ("Person 3"%string, Decimal.mk false 33333 (-2))].
Proof.
  split; [|split; reflexivity].
  apply (percentage_round_robin 4 1 (Decimal.mk false 100000 (-2))
           [Decimal.mk false 3333 (-2); Decimal.mk false 3333 (-2); Decimal.mk false 3333 (-2)]
           None).
  - split; [reflexivity|simpl; lia|right; vm_compute; discriminate].
  - repeat (apply Forall_cons; [split; [reflexivity|right; vm_compute; discriminate]|]).
    apply Forall_nil.
  - split; [simpl; lia|vm_compute; discriminate].
  - lia.
  - lia.
  - lia.
Defined.

(** ** The names asked for, in the result *)

(** X13.  The names [ask_names] returns for [n] participants are as many as the
    shares: whenever [split_evenly] returns with them, every name is in
    the result, in the order asked, and no share is dropped. *)
Theorem asked_names_all_paired (n : nat) (stdin : list string)
        (names rest : list string) (out : list event)
        (fuel : nat) (total : Decimal.t) (result : list (string * Decimal.t)) :
  ask_names n stdin = Returns names rest out ->
  split_evenly fuel total n (Some names) = Ok result ->
  map fst result = names /\ List.length result = n /\
  exists full, split_evenly fuel total n None = Ok full /\ map snd result = map snd full.
Proof.
  intros Ha Hs.
  assert (Hl : List.length names = n).
  { unfold ask_names in Ha. destruct stdin as [|answer lines]; [discriminate Ha|].
    destruct (String.eqb (py_lower (py_strip answer)) "y").
    - destruct (read_names 1 n lines) as [names' rest' out'| | |] eqn:E; try discriminate Ha.
      cbn [emit] in Ha. inversion Ha. subst names' rest' out.
      apply (read_names_returns n 1%nat lines names rest out' E).
    - cbn [emit] in Ha. inversion Ha. apply default_names_length. }
  pose proof (split_evenly_names fuel total n (Some names)) as S.
  destruct (split_evenly fuel total n None) as [full| |]; try congruence.
  destruct S as [Hf S]. rewrite S in Hs. inversion Hs. cbn [names_or_default].
  assert (Hlen : List.length names = List.length (map snd full))
    by (rewrite length_map; lia).
  split; [apply map_fst_combine; exact Hlen|].
  split; [rewrite length_combine, length_map; lia|].
  exists full. split; [reflexivity|]. apply map_snd_combine. exact Hlen.
Qed.

Lemma asked_names_all_paired_witness :
  map fst [("Ann"%string, Decimal.mk false 500 (-2));
           ("Person 2"%string, Decimal.mk false 501 (-2))]
  = ["Ann"; "Person 2"]%string /\
  List.length [("Ann"%string, Decimal.mk false 500 (-2));
               ("Person 2"%string, Decimal.mk false 501 (-2))] = 2%nat /\
  exists full,
    split_evenly 2 (Decimal.mk false 1001 (-2)) 2 None = Ok full /\
    map snd [("Ann"%string, Decimal.mk false 500 (-2));
             ("Person 2"%string, Decimal.mk false 501 (-2))] = map snd full.
Proof.
  eapply (asked_names_all_paired 2 ["y"; "Ann"; ""]%string ["Ann"; "Person 2"]%string []
            _ 2 (Decimal.mk false 1001 (-2))).
  - reflexivity.
  - reflexivity.
Defined.

(** ** The answer that asks for names *)

Lemma py_lower_y (s : string) :
  py_lower s = "y"%string <-> s = "y"%string \/ s = "Y"%string.
Proof.
  unfold py_lower. split.
  - intros H. destruct s as [|c [|c' s']]; cbn in H; try discriminate H.
    inversion H as [Hc]. clear H.
    destruct c as [[] [] [] [] [] [] [] []]; vm_compute in Hc; try discriminate Hc;
      first [left; reflexivity|right; reflexivity].
  - intros [H|H]; subst s; reflexivity.
Qed.

(** X12.  [ask_names] reads names exactly when the answer, stripped, is y or Y;
    after any other answer, yes included, it reads no further line and
    returns the default names. *)
Theorem ask_names_answer (n : nat) (answer : string) (lines : list string) :
  let prompt := "Would you like to enter names for each person? (y/N): "%string in
  (py_strip answer = "y"%string \/ py_strip answer = "Y"%string ->
   ask_names n (answer :: lines) = emit [Prompt prompt] (read_names 1 n lines)) /\
  (py_strip answer <> "y"%string -> py_strip answer <> "Y"%string ->
   ask_names n (answer :: lines) = Returns (default_names n) lines [Prompt prompt]).
Proof.
  cbv zeta. unfold ask_names. split.
  - intros H. apply py_lower_y in H. rewrite H. reflexivity.
  - intros H1 H2.
    destruct (String.eqb_spec (py_lower (py_strip answer)) "y") as [E|_]; [|reflexivity].
    apply py_lower_y in E. destruct E; contradiction.
Qed.

Lemma ask_names_answer_witness :
  ask_names 2 [" Y"; "Ann"; "Bob"]%string
  = emit [Prompt "Would you like to enter names for each person? (y/N): "]
         (read_names 1 2 ["Ann"; "Bob"]%string) /\
  ask_names 2 ["yes"; "Ann"; "Bob"]%string
  = Returns (default_names 2) ["Ann"; "Bob"]%string
            [Prompt "Would you like to enter names for each person? (y/N): "].
Proof.
  split.
  - apply (ask_names_answer 2 " Y" ["Ann"; "Bob"]%string). right. reflexivity.
  - apply (ask_names_answer 2 "yes" ["Ann"; "Bob"]%string); discriminate.
Defined.
